(** * BabyAgent vision pipeline: a shallow embedding of [BabyAgent/vision.py]

    The pipeline acquires a video (local path, generic URL or YouTube URL),
    samples frames into a scratch directory, extracts and transcribes the
    audio track, scans the transcript for Dunstan baby-language cues, and
    sends frames, transcript and cues to a vision model.

    Python text is modelled by the [string] of its UTF-8 bytes, read by
    character where the code looks at characters; Python floats by
    rationals [Q] in the sampler, whose arithmetic is then exact, and by
    IEEE 754 binary64 values where the stride is computed, rounding
    included; the filesystem by a finite map from path strings to nodes;
    and everything outside the repository (urllib, the OS, OpenCV,
    moviepy, yt_dlp, the OpenAI client) by the fields of an environment
    record [Env].

    The filesystem map holds every file and directory under one name.
    The names the code forms itself (its constants, the temporary
    directories, and what it joins to them from a listing or a generated
    file name) are taken to be these names, a directory's entries being
    named by the directory, a separator and the entry; the path of a
    video handed in by the caller, which may spell the same file in many
    ways, is brought to that name by [locate] of [Env] where the code
    opens it. *)

From Stdlib Require Import ZArith QArith Qround Qpower SpecFloat Ascii String DecimalString List Bool Lia.
From stdpp Require Import base tactics option list gmap strings fin_maps sorting.

Local Open Scope Z_scope.

(** ** Text helpers

    A Python [str] is a sequence of Unicode characters.  It is held here
    as the [string] of its UTF-8 bytes: the methods that look at single
    characters ([re], [str.strip], slicing) go through the decoder of
    module [Unicode]; the helpers of this module work on the bytes. *)

Module Text.

Definition is_upper (c : ascii) : bool :=
  let n := N_of_ascii c in ((65 <=? n) && (n <=? 90))%N.

Definition is_lower (c : ascii) : bool :=
  let n := N_of_ascii c in ((97 <=? n) && (n <=? 122))%N.

Definition is_digit (c : ascii) : bool :=
  let n := N_of_ascii c in ((48 <=? n) && (n <=? 57))%N.

Definition is_alpha (c : ascii) : bool := is_upper c || is_lower c.

(** Changing the case of one of the letters [A-Z], [a-z]; every other
    byte, and so every character outside ASCII, is left as it is. *)
Definition lower_char (c : ascii) : ascii :=
  if is_upper c then ascii_of_N (N_of_ascii c + 32) else c.

Definition upper_char (c : ascii) : ascii :=
  if is_lower c then ascii_of_N (N_of_ascii c - 32) else c.

(** The ASCII letters, the digits and the underscore: the characters a
    pattern for a whole word is made of. *)
Definition is_word (c : ascii) : bool :=
  is_alpha c || is_digit c || Ascii.eqb c "_"%char.

Definition chars (s : string) : list ascii := list_ascii_of_string s.
Definition of_chars (l : list ascii) : string := string_of_list_ascii l.

(** The text with its ASCII letters in lower (upper) case.  The code calls
    [.lower()] only before tests against the ASCII literals ["youtube.com"],
    ["youtu.be"], [".jpg"], [".jpeg"] and [".png"], and no character outside
    ASCII lower-cases to one of their letters. *)
Definition lower (s : string) : string := of_chars (map lower_char (chars s)).
Definition upper (s : string) : string := of_chars (map upper_char (chars s)).

Fixpoint take_while (f : ascii -> bool) (l : list ascii) : list ascii :=
  match l with
  | [] => []
  | c :: l' => if f c then c :: take_while f l' else []
  end.

Fixpoint drop_while (f : ascii -> bool) (l : list ascii) : list ascii :=
  match l with
  | [] => []
  | c :: l' => if f c then drop_while f l' else l
  end.

(** [l] starts with [p]. *)
Fixpoint starts_with (p l : list ascii) : bool :=
  match p, l with
  | [], _ => true
  | _ :: _, [] => false
  | a :: p', b :: l' => Ascii.eqb a b && starts_with p' l'
  end.

(** [needle in hay] on character lists. *)
Fixpoint contains_chars (needle hay : list ascii) : bool :=
  starts_with needle hay ||
  match hay with
  | [] => false
  | _ :: hay' => contains_chars needle hay'
  end.

(** Python's [needle in hay] for strings. *)
Definition contains (needle hay : string) : bool :=
  contains_chars (chars needle) (chars hay).

(** [s.endswith(suffix)]. *)
Definition ends_with (suffix s : string) : bool :=
  starts_with (rev (chars suffix)) (rev (chars s)).

(** [sep.join(parts)]. *)
Definition join (sep : string) (parts : list string) : string :=
  String.concat sep parts.

End Text.

(** ** Characters: UTF-8 and the Unicode tables of CPython 3.11 *)

Module Unicode.

Local Open Scope N_scope.

Definition byte (c : ascii) : N := N_of_ascii c.

Definition is_ascii (c : ascii) : bool := byte c <? 128.

(** A continuation byte [10xxxxxx] and the six bits it carries. *)
Definition is_cont (c : ascii) : bool := (128 <=? byte c) && (byte c <? 192).
Definition low6 (c : ascii) : N := byte c - 128.

(** How many bytes the character that starts with [c] has; [0] when no
    character starts with [c]. *)
Definition expected (c : ascii) : nat :=
  let n := byte c in
  if n <? 128 then 1%nat
  else if (194 <=? n) && (n <? 224) then 2%nat
  else if (224 <=? n) && (n <? 240) then 3%nat
  else if (240 <=? n) && (n <? 245) then 4%nat
  else 0%nat.

(** One character of a text is given as its code point and the bytes that
    encode it.  A byte that is part of no character stands for itself,
    outside the range of the characters any table below knows (as with
    Python's [surrogateescape]). *)
Definition stray (c : ascii) : N * list ascii := (56320 + byte c, [c]).

(** The code point of a complete sequence [lead, c1, ..., ck]. *)
Definition value (bytes : list ascii) : N :=
  match bytes with
  | [] => 0
  | lead :: conts =>
      let bits := match length conts with
                  | 1%nat => byte lead - 192
                  | 2%nat => byte lead - 224
                  | _ => byte lead - 240
                  end in
      fold_left (fun acc c => acc * 64 + low6 c) conts bits
  end.

(** Shortest encoding only, no surrogate, nothing above U+10FFFF. *)
Definition valid (len : nat) (cp : N) : bool :=
  match len with
  | 2%nat => 128 <=? cp
  | 3%nat => (2048 <=? cp) && negb ((55296 <=? cp) && (cp <=? 57343))
  | _ => (65536 <=? cp) && (cp <=? 1114111)
  end.

Definition finish (bytes : list ascii) : list (N * list ascii) :=
  let cp := value bytes in
  if valid (length bytes) cp then [(cp, bytes)] else map stray bytes.

(** A byte that is not read as a continuation. *)
Definition start (c : ascii) : list (N * list ascii) * list ascii :=
  if is_ascii c then ([(byte c, [c])], [])
  else if (2 <=? expected c)%nat then ([], [c])
  else ([stray c], []).

(** Reading one byte: [pending] holds the bytes of the character being
    read.  The result is the characters completed by this byte and the
    bytes still pending. *)
Definition feed (pending : list ascii) (c : ascii) : list (N * list ascii) * list ascii :=
  match pending with
  | [] => start c
  | lead :: _ =>
      if is_cont c then
        let bytes := pending ++ [c] in
        if (length bytes =? expected lead)%nat then (finish bytes, [])
        else ([], bytes)
      else
        let '(out, pending') := start c in (map stray pending ++ out, pending')
  end.

Fixpoint units_from (pending l : list ascii) : list (N * list ascii) :=
  match l with
  | [] => map stray pending
  | c :: l' =>
      let '(out, pending') := feed pending c in out ++ units_from pending' l'
  end.

(** The characters of a text given by its bytes. *)
Definition units (l : list ascii) : list (N * list ascii) := units_from [] l.

Definition code_points (s : string) : list N := map fst (units (Text.chars s)).

(** [len(s)] and [s[:n]]. *)
Definition length (s : string) : nat := List.length (units (Text.chars s)).

Definition prefix (n : nat) (s : string) : string :=
  Text.of_chars (concat (map snd (take n (units (Text.chars s))))).

(** The UTF-8 encoding of a code point. *)
Definition encode (cp : N) : list ascii :=
  let b := ascii_of_N in
  if cp <? 128 then [b cp]
  else if cp <? 2048 then [b (192 + cp / 64); b (128 + cp mod 64)]
  else if cp <? 65536 then
    [b (224 + cp / 4096); b (128 + (cp / 64) mod 64); b (128 + cp mod 64)]
  else
    [b (240 + cp / 262144); b (128 + (cp / 4096) mod 64);
     b (128 + (cp / 64) mod 64); b (128 + cp mod 64)].

(** The code points on which [str.isalnum()] holds, as inclusive ranges
    (Unicode 14.0, the character database of CPython 3.11). *)
Definition alnum_ranges : list (N * N) := [
  (48, 57); (65, 90); (97, 122); (170, 170); (178, 179); (181, 181);
  (185, 186); (188, 190); (192, 214); (216, 246); (248, 705); (710, 721);
  (736, 740); (748, 748); (750, 750); (880, 884); (886, 887); (890, 893);
  (895, 895); (902, 902); (904, 906); (908, 908); (910, 929); (931, 1013);
  (1015, 1153); (1162, 1327); (1329, 1366); (1369, 1369); (1376, 1416);
  (1488, 1514); (1519, 1522); (1568, 1610); (1632, 1641); (1646, 1647);
  (1649, 1747); (1749, 1749); (1765, 1766); (1774, 1788); (1791, 1791);
  (1808, 1808); (1810, 1839); (1869, 1957); (1969, 1969); (1984, 2026);
  (2036, 2037); (2042, 2042); (2048, 2069); (2074, 2074); (2084, 2084);
  (2088, 2088); (2112, 2136); (2144, 2154); (2160, 2183); (2185, 2190);
  (2208, 2249); (2308, 2361); (2365, 2365); (2384, 2384); (2392, 2401);
  (2406, 2415); (2417, 2432); (2437, 2444); (2447, 2448); (2451, 2472);
  (2474, 2480); (2482, 2482); (2486, 2489); (2493, 2493); (2510, 2510);
  (2524, 2525); (2527, 2529); (2534, 2545); (2548, 2553); (2556, 2556);
  (2565, 2570); (2575, 2576); (2579, 2600); (2602, 2608); (2610, 2611);
  (2613, 2614); (2616, 2617); (2649, 2652); (2654, 2654); (2662, 2671);
  (2674, 2676); (2693, 2701); (2703, 2705); (2707, 2728); (2730, 2736);
  (2738, 2739); (2741, 2745); (2749, 2749); (2768, 2768); (2784, 2785);
  (2790, 2799); (2809, 2809); (2821, 2828); (2831, 2832); (2835, 2856);
  (2858, 2864); (2866, 2867); (2869, 2873); (2877, 2877); (2908, 2909);
  (2911, 2913); (2918, 2927); (2929, 2935); (2947, 2947); (2949, 2954);
  (2958, 2960); (2962, 2965); (2969, 2970); (2972, 2972); (2974, 2975);
  (2979, 2980); (2984, 2986); (2990, 3001); (3024, 3024); (3046, 3058);
  (3077, 3084); (3086, 3088); (3090, 3112); (3114, 3129); (3133, 3133);
  (3160, 3162); (3165, 3165); (3168, 3169); (3174, 3183); (3192, 3198);
  (3200, 3200); (3205, 3212); (3214, 3216); (3218, 3240); (3242, 3251);
  (3253, 3257); (3261, 3261); (3293, 3294); (3296, 3297); (3302, 3311);
  (3313, 3314); (3332, 3340); (3342, 3344); (3346, 3386); (3389, 3389);
  (3406, 3406); (3412, 3414); (3416, 3425); (3430, 3448); (3450, 3455);
  (3461, 3478); (3482, 3505); (3507, 3515); (3517, 3517); (3520, 3526);
  (3558, 3567); (3585, 3632); (3634, 3635); (3648, 3654); (3664, 3673);
  (3713, 3714); (3716, 3716); (3718, 3722); (3724, 3747); (3749, 3749);
  (3751, 3760); (3762, 3763); (3773, 3773); (3776, 3780); (3782, 3782);
  (3792, 3801); (3804, 3807); (3840, 3840); (3872, 3891); (3904, 3911);
  (3913, 3948); (3976, 3980); (4096, 4138); (4159, 4169); (4176, 4181);
  (4186, 4189); (4193, 4193); (4197, 4198); (4206, 4208); (4213, 4225);
  (4238, 4238); (4240, 4249); (4256, 4293); (4295, 4295); (4301, 4301);
  (4304, 4346); (4348, 4680); (4682, 4685); (4688, 4694); (4696, 4696);
  (4698, 4701); (4704, 4744); (4746, 4749); (4752, 4784); (4786, 4789);
  (4792, 4798); (4800, 4800); (4802, 4805); (4808, 4822); (4824, 4880);
  (4882, 4885); (4888, 4954); (4969, 4988); (4992, 5007); (5024, 5109);
  (5112, 5117); (5121, 5740); (5743, 5759); (5761, 5786); (5792, 5866);
  (5870, 5880); (5888, 5905); (5919, 5937); (5952, 5969); (5984, 5996);
  (5998, 6000); (6016, 6067); (6103, 6103); (6108, 6108); (6112, 6121);
  (6128, 6137); (6160, 6169); (6176, 6264); (6272, 6276); (6279, 6312);
  (6314, 6314); (6320, 6389); (6400, 6430); (6470, 6509); (6512, 6516);
  (6528, 6571); (6576, 6601); (6608, 6618); (6656, 6678); (6688, 6740);
  (6784, 6793); (6800, 6809); (6823, 6823); (6917, 6963); (6981, 6988);
  (6992, 7001); (7043, 7072); (7086, 7141); (7168, 7203); (7232, 7241);
  (7245, 7293); (7296, 7304); (7312, 7354); (7357, 7359); (7401, 7404);
  (7406, 7411); (7413, 7414); (7418, 7418); (7424, 7615); (7680, 7957);
  (7960, 7965); (7968, 8005); (8008, 8013); (8016, 8023); (8025, 8025);
  (8027, 8027); (8029, 8029); (8031, 8061); (8064, 8116); (8118, 8124);
  (8126, 8126); (8130, 8132); (8134, 8140); (8144, 8147); (8150, 8155);
  (8160, 8172); (8178, 8180); (8182, 8188); (8304, 8305); (8308, 8313);
  (8319, 8329); (8336, 8348); (8450, 8450); (8455, 8455); (8458, 8467);
  (8469, 8469); (8473, 8477); (8484, 8484); (8486, 8486); (8488, 8488);
  (8490, 8493); (8495, 8505); (8508, 8511); (8517, 8521); (8526, 8526);
  (8528, 8585); (9312, 9371); (9450, 9471); (10102, 10131); (11264, 11492);
  (11499, 11502); (11506, 11507); (11517, 11517); (11520, 11557);
  (11559, 11559); (11565, 11565); (11568, 11623); (11631, 11631);
  (11648, 11670); (11680, 11686); (11688, 11694); (11696, 11702);
  (11704, 11710); (11712, 11718); (11720, 11726); (11728, 11734);
  (11736, 11742); (11823, 11823); (12293, 12295); (12321, 12329);
  (12337, 12341); (12344, 12348); (12353, 12438); (12445, 12447);
  (12449, 12538); (12540, 12543); (12549, 12591); (12593, 12686);
  (12690, 12693); (12704, 12735); (12784, 12799); (12832, 12841);
  (12872, 12879); (12881, 12895); (12928, 12937); (12977, 12991);
  (13312, 19903); (19968, 42124); (42192, 42237); (42240, 42508);
  (42512, 42539); (42560, 42606); (42623, 42653); (42656, 42735);
  (42775, 42783); (42786, 42888); (42891, 42954); (42960, 42961);
  (42963, 42963); (42965, 42969); (42994, 43009); (43011, 43013);
  (43015, 43018); (43020, 43042); (43056, 43061); (43072, 43123);
  (43138, 43187); (43216, 43225); (43250, 43255); (43259, 43259);
  (43261, 43262); (43264, 43301); (43312, 43334); (43360, 43388);
  (43396, 43442); (43471, 43481); (43488, 43492); (43494, 43518);
  (43520, 43560); (43584, 43586); (43588, 43595); (43600, 43609);
  (43616, 43638); (43642, 43642); (43646, 43695); (43697, 43697);
  (43701, 43702); (43705, 43709); (43712, 43712); (43714, 43714);
  (43739, 43741); (43744, 43754); (43762, 43764); (43777, 43782);
  (43785, 43790); (43793, 43798); (43808, 43814); (43816, 43822);
  (43824, 43866); (43868, 43881); (43888, 44002); (44016, 44025);
  (44032, 55203); (55216, 55238); (55243, 55291); (63744, 64109);
  (64112, 64217); (64256, 64262); (64275, 64279); (64285, 64285);
  (64287, 64296); (64298, 64310); (64312, 64316); (64318, 64318);
  (64320, 64321); (64323, 64324); (64326, 64433); (64467, 64829);
  (64848, 64911); (64914, 64967); (65008, 65019); (65136, 65140);
  (65142, 65276); (65296, 65305); (65313, 65338); (65345, 65370);
  (65382, 65470); (65474, 65479); (65482, 65487); (65490, 65495);
  (65498, 65500); (65536, 65547); (65549, 65574); (65576, 65594);
  (65596, 65597); (65599, 65613); (65616, 65629); (65664, 65786);
  (65799, 65843); (65856, 65912); (65930, 65931); (66176, 66204);
  (66208, 66256); (66273, 66299); (66304, 66339); (66349, 66378);
  (66384, 66421); (66432, 66461); (66464, 66499); (66504, 66511);
  (66513, 66517); (66560, 66717); (66720, 66729); (66736, 66771);
  (66776, 66811); (66816, 66855); (66864, 66915); (66928, 66938);
  (66940, 66954); (66956, 66962); (66964, 66965); (66967, 66977);
  (66979, 66993); (66995, 67001); (67003, 67004); (67072, 67382);
  (67392, 67413); (67424, 67431); (67456, 67461); (67463, 67504);
  (67506, 67514); (67584, 67589); (67592, 67592); (67594, 67637);
  (67639, 67640); (67644, 67644); (67647, 67669); (67672, 67702);
  (67705, 67742); (67751, 67759); (67808, 67826); (67828, 67829);
  (67835, 67867); (67872, 67897); (67968, 68023); (68028, 68047);
  (68050, 68096); (68112, 68115); (68117, 68119); (68121, 68149);
  (68160, 68168); (68192, 68222); (68224, 68255); (68288, 68295);
  (68297, 68324); (68331, 68335); (68352, 68405); (68416, 68437);
  (68440, 68466); (68472, 68497); (68521, 68527); (68608, 68680);
  (68736, 68786); (68800, 68850); (68858, 68899); (68912, 68921);
  (69216, 69246); (69248, 69289); (69296, 69297); (69376, 69415);
  (69424, 69445); (69457, 69460); (69488, 69505); (69552, 69579);
  (69600, 69622); (69635, 69687); (69714, 69743); (69745, 69746);
  (69749, 69749); (69763, 69807); (69840, 69864); (69872, 69881);
  (69891, 69926); (69942, 69951); (69956, 69956); (69959, 69959);
  (69968, 70002); (70006, 70006); (70019, 70066); (70081, 70084);
  (70096, 70106); (70108, 70108); (70113, 70132); (70144, 70161);
  (70163, 70187); (70272, 70278); (70280, 70280); (70282, 70285);
  (70287, 70301); (70303, 70312); (70320, 70366); (70384, 70393);
  (70405, 70412); (70415, 70416); (70419, 70440); (70442, 70448);
  (70450, 70451); (70453, 70457); (70461, 70461); (70480, 70480);
  (70493, 70497); (70656, 70708); (70727, 70730); (70736, 70745);
  (70751, 70753); (70784, 70831); (70852, 70853); (70855, 70855);
  (70864, 70873); (71040, 71086); (71128, 71131); (71168, 71215);
  (71236, 71236); (71248, 71257); (71296, 71338); (71352, 71352);
  (71360, 71369); (71424, 71450); (71472, 71483); (71488, 71494);
  (71680, 71723); (71840, 71922); (71935, 71942); (71945, 71945);
  (71948, 71955); (71957, 71958); (71960, 71983); (71999, 71999);
  (72001, 72001); (72016, 72025); (72096, 72103); (72106, 72144);
  (72161, 72161); (72163, 72163); (72192, 72192); (72203, 72242);
  (72250, 72250); (72272, 72272); (72284, 72329); (72349, 72349);
  (72368, 72440); (72704, 72712); (72714, 72750); (72768, 72768);
  (72784, 72812); (72818, 72847); (72960, 72966); (72968, 72969);
  (72971, 73008); (73030, 73030); (73040, 73049); (73056, 73061);
  (73063, 73064); (73066, 73097); (73112, 73112); (73120, 73129);
  (73440, 73458); (73648, 73648); (73664, 73684); (73728, 74649);
  (74752, 74862); (74880, 75075); (77712, 77808); (77824, 78894);
  (82944, 83526); (92160, 92728); (92736, 92766); (92768, 92777);
  (92784, 92862); (92864, 92873); (92880, 92909); (92928, 92975);
  (92992, 92995); (93008, 93017); (93019, 93025); (93027, 93047);
  (93053, 93071); (93760, 93846); (93952, 94026); (94032, 94032);
  (94099, 94111); (94176, 94177); (94179, 94179); (94208, 100343);
  (100352, 101589); (101632, 101640); (110576, 110579); (110581, 110587);
  (110589, 110590); (110592, 110882); (110928, 110930); (110948, 110951);
  (110960, 111355); (113664, 113770); (113776, 113788); (113792, 113800);
  (113808, 113817); (119520, 119539); (119648, 119672); (119808, 119892);
  (119894, 119964); (119966, 119967); (119970, 119970); (119973, 119974);
  (119977, 119980); (119982, 119993); (119995, 119995); (119997, 120003);
  (120005, 120069); (120071, 120074); (120077, 120084); (120086, 120092);
  (120094, 120121); (120123, 120126); (120128, 120132); (120134, 120134);
  (120138, 120144); (120146, 120485); (120488, 120512); (120514, 120538);
  (120540, 120570); (120572, 120596); (120598, 120628); (120630, 120654);
  (120656, 120686); (120688, 120712); (120714, 120744); (120746, 120770);
  (120772, 120779); (120782, 120831); (122624, 122654); (123136, 123180);
  (123191, 123197); (123200, 123209); (123214, 123214); (123536, 123565);
  (123584, 123627); (123632, 123641); (124896, 124902); (124904, 124907);
  (124909, 124910); (124912, 124926); (124928, 125124); (125127, 125135);
  (125184, 125251); (125259, 125259); (125264, 125273); (126065, 126123);
  (126125, 126127); (126129, 126132); (126209, 126253); (126255, 126269);
  (126464, 126467); (126469, 126495); (126497, 126498); (126500, 126500);
  (126503, 126503); (126505, 126514); (126516, 126519); (126521, 126521);
  (126523, 126523); (126530, 126530); (126535, 126535); (126537, 126537);
  (126539, 126539); (126541, 126543); (126545, 126546); (126548, 126548);
  (126551, 126551); (126553, 126553); (126555, 126555); (126557, 126557);
  (126559, 126559); (126561, 126562); (126564, 126564); (126567, 126570);
  (126572, 126578); (126580, 126583); (126585, 126588); (126590, 126590);
  (126592, 126601); (126603, 126619); (126625, 126627); (126629, 126633);
  (126635, 126651); (127232, 127244); (130032, 130041); (131072, 173791);
  (173824, 177976); (177984, 178205); (178208, 183969); (183984, 191456);
  (194560, 195101); (196608, 201546)
].

Definition in_ranges (ranges : list (N * N)) (cp : N) : bool :=
  existsb (fun r => (fst r <=? cp) && (cp <=? snd r)) ranges.

Definition is_alnum (cp : N) : bool := in_ranges alnum_ranges cp.

(** The class [\w] of a [str] pattern: alphanumeric or underscore. *)
Definition is_word (cp : N) : bool := is_alnum cp || (cp =? 95).

(** The code points on which [str.isspace()] holds: what [str.strip()]
    removes. *)
Definition whitespace : list N :=
  [9; 10; 11; 12; 13; 28; 29; 30; 31; 32; 133; 160; 5760;
   8192; 8193; 8194; 8195; 8196; 8197; 8198; 8199; 8200; 8201; 8202;
   8232; 8233; 8239; 8287; 12288].

(** Under [re.IGNORECASE] a letter of a [str] pattern also matches the
    characters [sre] lower-cases to it or lists as its case equivalents:
    dotted capital I and dotless i for [i], the Kelvin sign for [k], the
    long s for [s]. *)
Definition case_equivalents (lower : N) : list N :=
  if lower =? 105 then [304; 305]
  else if lower =? 107 then [8490]
  else if lower =? 115 then [383]
  else [].

End Unicode.

(** ** Regular expressions of the shape the code uses: literals and [\b]

    The pattern is a [str], so matching is by character with the Unicode
    classes; the literals of the patterns the code builds are ASCII. *)

Module Re.

Inductive item : Type :=
| Boundary            (* \b *)
| Lit (c : ascii).    (* a literal ASCII character *)

Definition word_opt (c : option N) : bool :=
  match c with
  | Some x => Unicode.is_word x
  | None => false
  end.

(** [\b] matches between [prev] and [next] when exactly one of them is a
    word character (the ends of the text count as non-word). *)
Definition at_boundary (prev next : option N) : bool :=
  xorb (word_opt prev) (word_opt next).

(** The characters the literal [c] matches under [re.IGNORECASE]. *)
Definition lit_class (c : ascii) : list N :=
  if Text.is_alpha c then
    let lower := Unicode.byte (Text.lower_char c) in
    [lower - 32; lower]%N ++ Unicode.case_equivalents lower
  else [Unicode.byte c].

(** One literal against one character, under [re.IGNORECASE] or not. *)
Definition lit_eq (ignorecase : bool) (c : ascii) (x : N) : bool :=
  if ignorecase
  then existsb (N.eqb x) (lit_class c)
  else N.eqb x (Unicode.byte c).

(** Does [pat] match starting here?  [prev] is the character before the
    current position, [rest] the text from the current position on. *)
Fixpoint match_here (ignorecase : bool) (pat : list item)
         (prev : option N) (rest : list N) : bool :=
  match pat with
  | [] => true
  | Boundary :: pat' =>
      at_boundary prev (head rest) && match_here ignorecase pat' prev rest
  | Lit c :: pat' =>
      match rest with
      | [] => false
      | x :: rest' =>
          lit_eq ignorecase c x && match_here ignorecase pat' (Some x) rest'
      end
  end.

(** [re.search]: try every start position, left to right. *)
Fixpoint search_from (ignorecase : bool) (pat : list item)
         (prev : option N) (text : list N) : bool :=
  match_here ignorecase pat prev text ||
  match text with
  | [] => false
  | x :: text' => search_from ignorecase pat (Some x) text'
  end.

Definition search (ignorecase : bool) (pat : list item) (text : string) : bool :=
  search_from ignorecase pat None (Unicode.code_points text).

(** The pattern [rf"\b{cue}\b"] for a cue made of letters. *)
Definition whole_word (cue : string) : list item :=
  Boundary :: map Lit (Text.chars cue) ++ [Boundary].

End Re.

(** ** [str.strip()] *)

(** The encodings of the whitespace characters, and the same read from the
    end of a text.  No UTF-8 encoding starts or ends another one, so a text
    starts (ends) with one of these exactly when its first (last) character
    is whitespace. *)
Definition whitespace_encodings : list (list ascii) :=
  map Unicode.encode Unicode.whitespace.

(** Dropping leading members of [pats] while there is one; a text of
    [fuel] bytes holds at most [fuel] of them. *)
Fixpoint drop_leading (pats : list (list ascii)) (fuel : nat) (l : list ascii)
  : list ascii :=
  match fuel with
  | O => l
  | S fuel' =>
      match List.find (fun p => Text.starts_with p l) pats with
      | Some p => drop_leading pats fuel' (drop (length p) l)
      | None => l
      end
  end.

(** [s.lstrip()] and [s.rstrip()] on the bytes of a text. *)
Definition lstrip_chars (l : list ascii) : list ascii :=
  drop_leading whitespace_encodings (length l) l.

Definition rstrip_chars (l : list ascii) : list ascii :=
  rev (drop_leading (map (@rev ascii) whitespace_encodings) (length l) (rev l)).

(** [s.strip()]. *)
Definition strip_chars (l : list ascii) : list ascii :=
  rstrip_chars (lstrip_chars l).

Definition strip (s : string) : string := Text.of_chars (strip_chars (Text.chars s)).

(** ** Constants of the module *)

Definition FRAME_FOLDER : string := "../data/crying_baby/frames".
Definition INPUT_VIDEO_PATH : string := "../data/crying_baby/yongzi.mp4".
Definition OUTPUT_AUDIO_PATH : string := "../data/crying_baby/video_audio.wav".
Definition BABY_CRY_CUES : list string := ["NEH"; "OWH"; "HEH"; "EAIR"; "EH"].
Definition TRANSCRIPTION_PROMPT : string :=
  "This audio features a baby. When you hear Dunstan baby language sounds like " +:+
  "NEH, OWH, HEH, EAIR, or EH, transcribe them verbatim in uppercase (e.g., NEH).".

Definition PROMPT_VISION : string :=
  "You are an expert in infant development and behavioral analysis with extensive experience in pediatric care.

TASK: Analyze this sequence of video frames showing an infant and the transcript of baby cues if any, using the behavioral cue framework below.

BEHAVIORAL CUE REFERENCE:
**Hunger Signs:**
- Early: lip smacking, rooting/seeking, mouth opening wide
- Mid: stretching, hand sucking, soft grunts/sighs
- Late: crying

**Tiredness Signs:**
- Early: blank stare, lost interest in toys/people, glazed/unfocused eyes
- Mid: fussy, jerky movements, yawning, eye rubbing, finger sucking, frowning
- Late: crying

**Boredom Signs:**
- Early: turning head away, squirming, grunting
- Mid: back arching, increased movement, batting at toys, pushing things away
- Late: crying

**Pain/Discomfort Signs:**
- Knees pulled to belly, back arching/rigid body, feed refusal, unusual sleep patterns, distressed expression

**Transcript of baby cues (if any):**
- NEH (hunger), OWH (sleepy), HEH (discomfort), EAIR (lower gas), EH (burp)

ANALYSIS STRUCTURE:
1. **Behavioral Stage Identification**: Match observed behaviors to the cue categories above. Note progression if multiple stages visible.

2. **Primary Assessment**: Based on cue patterns, identify the most likely feeling (hunger/tired/bored/discomfort/pain/lower gas/burp).

3. **Caregiver Response** (2 specific actions):
   - Target interventions to the identified stage (early interventions prevent escalation)
   - Avoid creating sleep/feeding associations that become dependencies

CONSTRAINTS:
- 150 words maximum
- Supportive, informative tone
- Reference specific observed cues from frames
- Note: Frames are chronological from earliest to latest".

Definition MAX_FRAMES : nat := 12.

(** ** [detect_baby_sounds] *)

(** The loop [for cue in BABY_CRY_CUES: if re.search(...): found.append(cue)]. *)
Fixpoint detect_loop (cues : list string) (transcript : string)
         (found : list string) : list string :=
  match cues with
  | [] => found
  | cue :: rest =>
      detect_loop rest transcript
        (if Re.search true (Re.whole_word cue) transcript
         then found ++ [cue] else found)
  end.

Definition detect_baby_sounds (transcript : string) : list string :=
  detect_loop BABY_CRY_CUES transcript [].


(** ** Paths ([os.path], POSIX flavour) *)

Module Path.

Definition slash : ascii := "/"%char.
Definition dot : ascii := "."%char.

(** [os.path.join(a, b)]. *)
Definition join (a b : string) : string :=
  if Text.starts_with [slash] (Text.chars b) then b
  else if String.eqb a "" || Text.ends_with "/" a then a +:+ b
  else a +:+ "/" +:+ b.

(** The characters after the last ["/"]: [cur] is the component read so
    far since the last separator. *)
Fixpoint basename_go (cur l : list ascii) : list ascii :=
  match l with
  | [] => rev cur
  | c :: l' => if Ascii.eqb c slash then basename_go [] l' else basename_go (c :: cur) l'
  end.

(** [os.path.basename(p)]. *)
Definition basename (p : string) : string :=
  Text.of_chars (basename_go [] (Text.chars p)).

(** [s.rstrip("/")]. *)
Definition rstrip_slash (s : string) : string :=
  Text.of_chars (rev (Text.drop_while (fun c => Ascii.eqb c slash) (rev (Text.chars s)))).

(** Index of the last ["."] of [l], if any. *)
Fixpoint last_dot (l : list ascii) : option nat :=
  match l with
  | [] => None
  | c :: l' =>
      match last_dot l' with
      | Some i => Some (S i)
      | None => if Ascii.eqb c dot then Some O else None
      end
  end.

(** [os.path.splitext] on a path with no directory part: leading dots do
    not start an extension. *)
Definition splitext_base (base : list ascii) : list ascii * list ascii :=
  let dots := Text.take_while (fun c => Ascii.eqb c dot) base in
  let rest := Text.drop_while (fun c => Ascii.eqb c dot) base in
  match last_dot rest with
  | Some i => (dots ++ take i rest, drop i rest)
  | None => (base, [])
  end.

(** [os.path.splitext(p)]: the extension is looked for in the last
    component only. *)
Definition splitext (p : string) : string * string :=
  let l := Text.chars p in
  let base := basename_go [] l in
  let dir := take (length l - length base) l in
  let '(root, ext) := splitext_base base in
  (Text.of_chars (dir ++ root), Text.of_chars ext).

(** [p] is [root] itself or lies below it. *)
Definition in_tree (root p : string) : bool :=
  String.eqb p root || Text.starts_with (Text.chars root ++ [slash]) (Text.chars p).

(** The directories above [p], outermost first: the prefixes of [p] that
    end before a separator, ["a"; "a/b"] for ["a/b/c"].  [seen] holds the
    characters read so far, last first. *)
Fixpoint parents_go (seen l : list ascii) : list string :=
  match l with
  | [] => []
  | c :: l' =>
      (if Ascii.eqb c slash
          && match seen with
             | [] => false
             | last :: _ => negb (Ascii.eqb last slash)
             end
          && existsb (fun x => negb (Ascii.eqb x slash)) l'
       then [Text.of_chars (rev seen)] else [])
      ++ parents_go (c :: seen) l'
  end.

Definition parents (p : string) : list string := parents_go [] (Text.chars p).

(** The components of a path, read off the characters after [cur]. *)
Fixpoint components_go (cur l : list ascii) : list (list ascii) :=
  match l with
  | [] => [rev cur]
  | c :: l' =>
      if Ascii.eqb c slash then rev cur :: components_go [] l'
      else components_go (c :: cur) l'
  end.

(** The loop of [os.path.normpath] over the components: empty ones and
    ["."] are dropped, [".."] takes back the component before it, unless
    there is none to take back. *)
Fixpoint normalize (absolute : bool) (done comps : list (list ascii))
  : list (list ascii) :=
  match comps with
  | [] => rev done
  | comp :: comps' =>
      if match comp with [] => true | _ => false end
         || String.eqb (Text.of_chars comp) "."
      then normalize absolute done comps'
      else if String.eqb (Text.of_chars comp) ".." then
        match done with
        | [] => normalize absolute (if absolute then [] else [comp]) comps'
        | last :: done' =>
            if String.eqb (Text.of_chars last) ".."
            then normalize absolute (comp :: done) comps'
            else normalize absolute done' comps'
        end
      else normalize absolute (comp :: done) comps'
  end.

(** [os.path.normpath(p)]. *)
Definition normpath (p : string) : string :=
  let l := Text.chars p in
  let slashes :=
    if Text.starts_with [slash; slash] l && negb (Text.starts_with [slash; slash; slash] l)
    then [slash; slash]
    else if Text.starts_with [slash] l then [slash] else [] in
  let absolute := match slashes with [] => false | _ => true end in
  let comps := normalize absolute [] (components_go [] l) in
  let joined := Text.of_chars (slashes ++ Text.chars (String.concat "/" (map Text.of_chars comps))) in
  if String.eqb joined "" then "." else joined.

(** The name of [p] inside directory [dir], when [p] is a direct entry of
    [dir]. *)
Definition child_name (dir p : string) : option string :=
  let d := Text.chars dir ++ [slash] in
  let l := Text.chars p in
  if Text.starts_with d l then
    let name := drop (length d) l in
    match name with
    | [] => None
    | _ => if existsb (fun c => Ascii.eqb c slash) name then None
           else Some (Text.of_chars name)
    end
  else None.

End Path.

(** ** Exceptions *)

Inductive exn_class : Type :=
| ValueError
| RuntimeError
| OSError          (* with its subclasses FileNotFoundError, FileExistsError, ... *)
| AttributeError
| IndexError
| OverflowError
| OtherError.      (* errors of the external services and decoders *)

Record exn : Type := Exn { exn_cls : exn_class; exn_msg : string }.

Definition is_class (c : exn_class) (e : exn) : bool :=
  match c, exn_cls e with
  | ValueError, ValueError | RuntimeError, RuntimeError | OSError, OSError
  | AttributeError, AttributeError | IndexError, IndexError
  | OverflowError, OverflowError | OtherError, OtherError => true
  | _, _ => false
  end.

(** [except Exception] catches every class above. *)
Definition any_exception (e : exn) : bool := true.

Inductive Res (A : Type) : Type :=
| Ok (a : A)
| Raise (e : exn).
Arguments Ok {A} a.
Arguments Raise {A} e.

(** ** The world: filesystem, standard output, and calls to the outside *)

Inductive node : Type :=
| Dir
| File (data : string).

(** What [urlparse] returns, as far as the code reads it. *)
Record Url : Type := { scheme : string; netloc : string; url_path : string }.

(** An opened [cv2.VideoCapture]. *)
Record CvVideo : Type := {
  cv_fps : Q;                 (* CAP_PROP_FPS; 0 when the container has none *)
  cv_frames : list string;    (* the encoded image of each native frame *)
  cv_seek : Q -> nat          (* frame position after set(CAP_PROP_POS_MSEC, ms) *)
}.

(** An opened [VideoFileClip]: its audio track rendered as WAV, if any. *)
Record Clip : Type := { clip_audio : option string }.

(** One block of a multimodal request. *)
Inductive Part : Type :=
| TextPart (kind text : string)
| ImagePart (kind url : string).

(** A response of the Responses API, as far as the code inspects it. *)
Inductive Entry : Type :=
| DictEntry (fields : list (string * string))   (* a dict: [.get] works *)
| ObjEntry.                                     (* an object without [.get] *)

Record Block : Type := {
  block_type : option string;
  block_content : option (list Entry)            (* [None]: no such attribute *)
}.

Record Response : Type := {
  output_text : option string;                   (* [None]: no such attribute *)
  output : option (list Block);
  resp_repr : string
}.

Inductive event : Type :=
| EvMkdtemp (path : string)                       (* tempfile.mkdtemp created [path] *)
| EvTranscribe (model : string) (answer : option string)
                                                  (* a call to the transcription service *)
| EvResponses (content : list Part)               (* client.responses.create *)
| EvChat (content : list Part).                   (* client.chat.completions.create *)

Record World : Type := {
  fs : gmap string node;
  out : list string;      (* lines printed, oldest first *)
  events : list event     (* outside calls, oldest first *)
}.

Definition set_fs (f : gmap string node -> gmap string node) (w : World) : World :=
  {| fs := f (fs w); out := out w; events := events w |}.

Definition add_out (line : string) (w : World) : World :=
  {| fs := fs w; out := out w ++ [line]; events := events w |}.

Definition add_event (e : event) (w : World) : World :=
  {| fs := fs w; out := out w; events := events w ++ [e] |}.

(** ** The environment: libraries, operating system and services *)

Record Env : Type := {
  (* the name under which the filesystem map holds the file a path given
     by the caller denotes: the operating system's resolution of the path
     (working directory, ["."] and [".."], links), as os.path.realpath
     reports it, in the spelling of the names the code forms itself *)
  locate : string -> string;
  (* urllib.parse.urlparse; [None] is ValueError *)
  urlparse : string -> option Url;
  (* mimetypes.guess_extension *)
  guess_extension : string -> option string;
  (* whether [from yt_dlp import YoutubeDL] succeeded *)
  yt_dlp_available : bool;
  (* the directory name tempfile.mkdtemp picks for a prefix *)
  mkdtemp_name : string -> gmap string node -> string;
  (* yt_dlp: the files it leaves in the output directory, by extension,
     and the extension of the file it reports, or its error *)
  ytdl : string -> option string -> option (string * option string) ->
         list (string * string) * (exn + string);
  (* urlopen and the copy of the body: a connection error, or the
     Content-Type header, the bytes received and a possible error midway *)
  http_get : string -> exn + (option string * string * option exn);
  (* deletion of this path fails with an OSError *)
  rm_fails : string -> bool;
  (* creation of this directory fails with an OSError *)
  mkdir_fails : string -> bool;
  (* cv2.VideoCapture on these bytes; [None]: isOpened() is False *)
  cv_decode : string -> option CvVideo;
  (* VideoFileClip on these bytes *)
  clip_decode : string -> exn + Clip;
  (* write_audiofile: the bytes left on disk, if any, and a possible error *)
  audio_write : string -> option string * option exn;
  (* the transcription service: model, audio bytes, prompt *)
  asr : string -> string -> string -> exn + string;
  (* whether the client has a [responses] attribute *)
  has_responses : bool;
  responses_create : list Part -> exn + Response;
  (* chat completions: the content of the first choice *)
  chat_create : list Part -> exn + string;
  (* base64.b64encode(...).decode("ascii") *)
  b64encode : string -> string
}.

(** ** The state-and-exception monad the code runs in *)

Definition M (A : Type) : Type := World -> Res A * World.

Definition ret {A} (a : A) : M A := fun w => (Ok a, w).

Definition bind {A B} (m : M A) (k : A -> M B) : M B :=
  fun w => match m w with
           | (Ok a, w') => k a w'
           | (Raise e, w') => (Raise e, w')
           end.

Definition throw {A} (e : exn) : M A := fun w => (Raise e, w).

(** [try: body  except C as e: handler e]. *)
Definition try_except {A} (body : M A) (catches : exn -> bool)
           (handler : exn -> M A) : M A :=
  fun w => match body w with
           | (Ok a, w') => (Ok a, w')
           | (Raise e, w') => if catches e then handler e w' else (Raise e, w')
           end.

(** [try: body  finally: fin]: [fin] always runs; an error of [fin]
    replaces the outcome of [body]. *)
Definition try_finally {A} (body : M A) (fin : M unit) : M A :=
  fun w => match body w with
           | (r, w') =>
               match fin w' with
               | (Ok _, w'') => (r, w'')
               | (Raise e, w'') => (Raise e, w'')
               end
           end.

Definition get_world : M World := fun w => (Ok w, w).
Definition modify (f : World -> World) : M unit := fun w => (Ok tt, f w).
Definition print (line : string) : M unit := modify (add_out line).
Definition emit (e : event) : M unit := modify (add_event e).

(** A result of the environment, lifted. *)
Definition lift_sum {A} (r : exn + A) : M A :=
  match r with
  | inl e => throw e
  | inr a => ret a
  end.

Notation "x <- m ;; k" := (bind m (fun x => k))
  (at level 100, m at next level, right associativity).
Notation "m ;;; k" := (bind m (fun _ => k))
  (at level 100, right associativity).

(** [for x in l: body x]. *)
Fixpoint for_each {A} (l : list A) (body : A -> M unit) : M unit :=
  match l with
  | [] => ret tt
  | x :: l' => body x ;;; for_each l' body
  end.

(** ** Filesystem queries and the [os] / [shutil] calls the code makes *)

Definition isdir (m : gmap string node) (p : string) : bool :=
  match m !! p with Some Dir => true | _ => false end.

Definition isfile (m : gmap string node) (p : string) : bool :=
  match m !! p with Some (File _) => true | _ => false end.

Definition exists_path (m : gmap string node) (p : string) : bool :=
  match m !! p with Some _ => true | None => false end.

(** The names [os.listdir(dir)] returns, in the map's order. *)
Definition children (dir : string) (m : gmap string node) : list string :=
  omap (fun kv : string * node => Path.child_name dir kv.1) (map_to_list m).

(** The map without [root] and everything below it. *)
Definition remove_tree (root : string) (m : gmap string node) : gmap string node :=
  filter (fun kv : string * node => Path.in_tree root kv.1 = false) m.

Section Pipeline.

Variable env : Env.

(** [os.unlink(p)] / [os.remove(p)]. *)
Definition os_remove (p : string) : M unit :=
  fun w =>
    if rm_fails env p then (Raise (Exn OSError ("cannot remove " +:+ p)), w)
    else match fs w !! p with
         | Some (File _) => (Ok tt, set_fs (delete p) w)
         | Some Dir => (Raise (Exn OSError ("is a directory: " +:+ p)), w)
         | None => (Raise (Exn OSError ("no such file: " +:+ p)), w)
         end.

(** [shutil.rmtree(p, ignore_errors=...)]: all of the tree or none. *)
Definition shutil_rmtree (p : string) (ignore_errors : bool) : M unit :=
  fun w =>
    if rm_fails env p || negb (isdir (fs w) p)
    then if ignore_errors then (Ok tt, w)
         else (Raise (Exn OSError ("cannot remove tree " +:+ p)), w)
    else (Ok tt, set_fs (remove_tree p) w).

(** One level of [os.makedirs(..., exist_ok=True)]: a directory that is
    there is left alone, a missing one is created, a file in its place is
    an error. *)
Definition make_directory (p : string) : M unit :=
  fun w =>
    match fs w !! p with
    | Some Dir => (Ok tt, w)
    | Some (File _) => (Raise (Exn OSError ("file exists: " +:+ p)), w)
    | None =>
        if mkdir_fails env p then (Raise (Exn OSError ("cannot create " +:+ p)), w)
        else (Ok tt, set_fs (insert p Dir) w)
    end.

(** [os.makedirs(p, exist_ok=True)]: the missing directories above [p]
    are created on the way, outermost first, and stay when a later level
    fails. *)
Definition os_makedirs (p : string) : M unit :=
  for_each (Path.parents p ++ [p]) make_directory.

(** [os.listdir(p)]. *)
Definition os_listdir (p : string) : M (list string) :=
  fun w =>
    if isdir (fs w) p then (Ok (children p (fs w)), w)
    else (Raise (Exn OSError ("not a directory: " +:+ p)), w).

(** [tempfile.mkdtemp(prefix=...)]. *)
Definition mkdtemp (prefix : string) : M string :=
  fun w =>
    let name := mkdtemp_name env prefix (fs w) in
    (Ok name, add_event (EvMkdtemp name) (set_fs (insert name Dir) w)).

(** Writing a whole file: [open(p, "wb")] and the copy into it; a
    directory cannot be opened for writing. *)
Definition write_file (p data : string) : M unit :=
  fun w =>
    match fs w !! p with
    | Some Dir => (Raise (Exn OSError ("is a directory: " +:+ p)), w)
    | _ => (Ok tt, set_fs (insert p (File data)) w)
    end.

(** *** Utilities *)

Definition ensure_clean_dir (path : string) : M unit :=
  os_makedirs path ;;;
  names <- os_listdir path ;;
  for_each names (fun fn =>
    let fp := Path.join path fn in
    try_except
      (w <- get_world ;;
       if isfile (fs w) fp then os_remove fp
       else if isdir (fs w) fp then shutil_rmtree fp false
       else ret tt)
      any_exception
      (fun e => print ("Failed to delete " +:+ fp +:+ ". Reason: " +:+ exn_msg e))).

Definition is_url (source : string) : bool :=
  match urlparse env source with
  | None => false                                  (* except ValueError *)
  | Some parsed =>
      String.eqb (scheme parsed) "http" || String.eqb (scheme parsed) "https"
  end.

Definition is_youtube_url (source : string) : Res bool :=
  match urlparse env source with
  | None => Raise (Exn ValueError "invalid URL")
  | Some parsed =>
      let host := Text.lower (netloc parsed) in
      Ok (Text.contains "youtube.com" host || Text.contains "youtu.be" host)
  end.

(** [content_type.split(";")[0].strip()]. *)
Definition mime_of (content_type : string) : string :=
  let before := Text.take_while (fun c => negb (Ascii.eqb c ";"%char))
                                (Text.chars content_type) in
  Text.of_chars (strip_chars before).

(** [x or default] on strings. *)
Definition str_or (x default : string) : string :=
  if String.eqb x "" then default else x.

Definition _infer_filename_from_url (url : string) (content_type : option string)
  : Res string :=
  match urlparse env url with
  | None => Raise (Exn ValueError "invalid URL")
  | Some parsed =>
      let basename :=
        str_or (Path.basename (Path.rstrip_slash (url_path parsed))) "remote_video" in
      let '(name, ext) := Path.splitext basename in
      let ext :=
        if String.eqb ext "" then
          let guessed :=
            match content_type with
            | Some ct => if String.eqb ct "" then None
                         else guess_extension env (mime_of ct)
            | None => None
            end in
          match guessed with
          | Some g => str_or g ".mp4"
          | None => ".mp4"
          end
        else ext in
      Ok (str_or name "remote_video" +:+ ext)
  end.

Definition lift_res {A} (r : Res A) : M A := fun w => (r, w).

Definition download_youtube_video (url : string) (cookie_file : option string)
           (cookies_from_browser : option (string * option string))
  : M (string * string) :=
  if negb (yt_dlp_available env) then
    throw (Exn RuntimeError
      "Downloading YouTube URLs requires the yt_dlp package. Install it via `pip install yt_dlp`.")
  else
    temp_dir <- mkdtemp "babyagent_youtube_" ;;
    local_path <-
      try_except
        (let '(files, result) := ytdl env url cookie_file cookies_from_browser in
         for_each files (fun f =>
           write_file (Path.join temp_dir ("youtube." +:+ f.1)) f.2) ;;;
         ext <- lift_sum result ;;
         let local_path := Path.join temp_dir ("youtube." +:+ ext) in
         let merged_path := (Path.splitext local_path).1 +:+ ".mp4" in
         w <- get_world ;;
         ret (if isfile (fs w) merged_path then merged_path else local_path))
        any_exception
        (fun e => shutil_rmtree temp_dir true ;;; throw e) ;;
    ret (local_path, temp_dir).

Definition download_generic_video (url : string) : M (string * string) :=
  temp_dir <- mkdtemp "babyagent_remote_" ;;
  local_path <-
    try_except
      (response <- lift_sum (http_get env url) ;;
       let '(content_type, body, broken) := response in
       filename <- lift_res (_infer_filename_from_url url content_type) ;;
       let local_path := Path.join temp_dir filename in
       write_file local_path body ;;;
       match broken with
       | Some e => throw e
       | None => ret local_path
       end)
      any_exception
      (fun e => shutil_rmtree temp_dir true ;;; throw e) ;;
  ret (local_path, temp_dir).

Definition prepare_video_input (video_source : string) (cookie_file : option string)
           (cookies_from_browser : option (string * option string))
  : M (string * option string) :=
  if negb (is_url video_source) then ret (video_source, None)
  else
    yt <- lift_res (is_youtube_url video_source) ;;
    if yt then
      print ("Downloading YouTube video from " +:+ video_source +:+ "…") ;;;
      r <- download_youtube_video video_source cookie_file cookies_from_browser ;;
      ret (r.1, Some r.2)
    else
      print ("Downloading remote video from " +:+ video_source +:+ "…") ;;;
      r <- download_generic_video video_source ;;
      ret (r.1, Some r.2).

(** The body of the loop of [cleanup_paths]. *)
Definition cleanup_path (path : option string) : M unit :=
  match path with
  | None => ret tt
  | Some p =>
      if String.eqb p "" then ret tt
      else
        w <- get_world ;;
        if isdir (fs w) p then shutil_rmtree p true
        else if exists_path (fs w) p then
          try_except (os_remove p) (is_class OSError)
            (fun exc => print ("Failed to remove " +:+ p +:+ ": " +:+ exn_msg exc))
        else ret tt
  end.

Definition cleanup_paths (paths : list (option string)) : M unit :=
  for_each paths cleanup_path.

End Pipeline.

(** ** Numbers

    The sampler is modelled on rationals: its arithmetic is that of the
    code wherever the float operations are exact, as they are at the rates
    and windows used below.  How the stride itself is computed on floats,
    rounding included, is [frame_skip] at the end of this section. *)

(** [int(x)] on a float: truncation toward zero. *)
Definition Qtrunc (q : Q) : Z := Z.quot (Qnum q) (Zpos (Qden q)).

(** [round(x)]'s mathematical reading, rounding to the nearest integer
    (halves up). *)
Definition Qround_nearest (q : Q) : Z := Qfloor (q + (1 # 2)).

Definition Qlt_bool (a b : Q) : bool := negb (Qle_bool b a).

(** [f"{n:07d}"]: sign, then zeros up to a total width of seven. *)
Definition pad_zeros (width : nat) (digits : string) : string :=
  Text.of_chars (repeat "0"%char (width - String.length digits)) +:+ digits.

Definition format_07d (n : Z) : string :=
  let digits := DecimalString.NilZero.string_of_uint (N.to_uint (Z.to_N (Z.abs n))) in
  if n <? 0 then "-" +:+ pad_zeros 6 digits else pad_zeros 7 digits.

(** [cap.get(cv2.CAP_PROP_FPS) or 30.0]. *)
Definition fps_or_default (raw : Q) : Q := if Qeq_bool raw 0 then 30 else raw.

(** [frame_skip = max(1, int(fps * interval_sec))] when the product of the
    two floats is exact. *)
Definition frame_skip_of (fps interval_sec : Q) : Z :=
  Z.max 1 (Qtrunc (fps * interval_sec)).

(** Python's [float]: IEEE 754 binary64, every operation rounded to the
    nearest representable value, ties to even. *)
Module Float.

Definition prec : Z := 53.
Definition emax : Z := 1024.

Definition of_Z (n : Z) : spec_float := binary_normalize prec emax n 0 false.

Definition mul (x y : spec_float) : spec_float := SFmul prec emax x y.
Definition div (x y : spec_float) : spec_float := SFdiv prec emax x y.

(** The float a decimal literal such as [0.3] denotes: the one nearest
    to the fraction. *)
Definition lit (num : Z) (den : positive) : spec_float :=
  div (of_Z num) (of_Z (Zpos den)).

(** The number a finite float stands for. *)
Definition value (x : spec_float) : option Q :=
  match x with
  | S754_zero _ => Some 0%Q
  | S754_finite s m e =>
      Some ((if s then -1 else 1) * inject_Z (Zpos m) * Qpower 2 e)%Q
  | S754_infinity _ | S754_nan => None
  end.

(** Truth value of a float: only the zeros are false. *)
Definition truthy (x : spec_float) : bool :=
  match x with
  | S754_zero _ => false
  | _ => true
  end.

(** [int(x)]: truncation toward zero; not-a-number and the infinities
    raise. *)
Definition to_int (x : spec_float) : Res Z :=
  match x with
  | S754_nan => Raise (Exn ValueError "cannot convert float NaN to integer")
  | S754_infinity _ =>
      Raise (Exn OverflowError "cannot convert float infinity to integer")
  | S754_zero _ => Ok 0
  | S754_finite s m e =>
      Ok (Qtrunc ((if s then -1 else 1) * inject_Z (Zpos m) * Qpower 2 e)%Q)
  end.

End Float.

(** Lines 246-247 on floats:
    [fps = cap.get(cv2.CAP_PROP_FPS) or 30.0] and
    [frame_skip = max(1, int(fps * interval_sec))]. *)
Definition frame_skip (cap_fps interval_sec : spec_float) : Res Z :=
  let fps := if Float.truthy cap_fps then cap_fps else Float.of_Z 30 in
  match Float.to_int (Float.mul fps interval_sec) with
  | Ok n => Ok (Z.max 1 n)
  | Raise e => Raise e
  end.

(** [safe_start = max(0.0, float(start_sec or 0.0))]. *)
Definition safe_start_of (start_sec : Q) : Q :=
  if Qlt_bool 0 start_sec then start_sec else 0.

(** The window check of [extract_frames]: [Some e] stays only when
    [e > safe_start]; the flag says whether the warning is printed. *)
Definition normalize_end (safe_start : Q) (end_sec : option Q) : option Q * bool :=
  match end_sec with
  | Some safe_end =>
      if Qle_bool safe_end safe_start then (None, true) else (Some safe_end, false)
  | None => (None, false)
  end.

Definition frame_path (current_frame : Z) : string :=
  Path.join FRAME_FOLDER ("frame_" +:+ format_07d current_frame +:+ ".jpg").

(** [cv2.imwrite(p, frame)]: the image lands in [p] unless [p] is a
    directory; the call reports failure by its result, which the code
    does not read. *)
Definition cv2_imwrite (p image : string) : M bool :=
  fun w =>
    if isdir (fs w) p then (Ok false, w)
    else (Ok true, set_fs (insert p (File image)) w).

(** Insertion sort of names, the order of [sorted] on strings. *)
Fixpoint insert_sorted (x : string) (l : list string) : list string :=
  match l with
  | [] => [x]
  | y :: l' => if String.leb x y then x :: l else y :: insert_sorted x l'
  end.

Definition sorted (l : list string) : list string := foldr insert_sorted [] l.

Section Stages.

Variable env : Env.

(** *** Frame sampler *)

(** The [while True] loop of [extract_frames]; [remaining] are the frames
    the capture can still read, so the loop ends with the video. *)
Fixpoint sample_loop (fps : Q) (frame_skip : Z) (safe_end : option Q)
         (start_frame_idx : Z) (remaining : list string) (frame_idx : Z)
  : M unit :=
  let current_frame := start_frame_idx + frame_idx in
  let current_time :=
    if Qeq_bool fps 0 then 0%Q else (inject_Z current_frame / fps)%Q in
  if match safe_end with
     | Some e => Qle_bool e current_time
     | None => false
     end
  then ret tt
  else
    match remaining with
    | [] => ret tt                                   (* ok is False *)
    | frame :: rest =>
        (if frame_idx mod frame_skip =? 0 then
           let out_path := frame_path current_frame in
           cv2_imwrite out_path frame ;;;
           print ("Saved " +:+ out_path)
         else ret tt) ;;;
        sample_loop fps frame_skip safe_end start_frame_idx rest (frame_idx + 1)
    end.

(** [cv2.VideoCapture(video_path)], [None] when [isOpened()] is false. *)
Definition open_capture (video_path : string) : M (option CvVideo) :=
  fun w =>
    match fs w !! locate env video_path with
    | Some (File data) => (Ok (cv_decode env data), w)
    | _ => (Ok None, w)
    end.

(** [cap.release()] and [cv2.destroyAllWindows()], which end the function
    once a video was opened, are taken to return without touching the
    filesystem. *)
Definition extract_frames (video_path : string) (interval_sec start_sec : Q)
           (end_sec : option Q) : M unit :=
  ensure_clean_dir env FRAME_FOLDER ;;;
  let safe_start := safe_start_of start_sec in
  let '(safe_end, warn) := normalize_end safe_start end_sec in
  (if warn then
     print "End timestamp must be greater than start; processing full video instead."
   else ret tt) ;;;
  cap <- open_capture video_path ;;
  match cap with
  | None => print "Error opening video file"
  | Some cap =>
      let fps := fps_or_default (cv_fps cap) in
      let frame_skip := frame_skip_of fps interval_sec in
      let pos :=
        if Qeq_bool safe_start 0 then O
        else cv_seek cap (safe_start * 1000)%Q in
      let pos_frames := Z.of_nat pos in
      let start_frame_idx :=
        if 0 <? pos_frames then pos_frames else Qtrunc (safe_start * fps) in
      sample_loop fps frame_skip safe_end start_frame_idx
                  (drop pos (cv_frames cap)) 0
  end.

(** *** Transcript extractor *)

(** [open(path, "rb")] and reading the whole file. *)
Definition read_file (path : string) : M string :=
  fun w =>
    match fs w !! path with
    | Some (File data) => (Ok data, w)
    | _ => (Raise (Exn OSError ("cannot open " +:+ path)), w)
    end.

Definition convert_to_base64 (image_path : string) : M string :=
  data <- read_file image_path ;;
  ret (b64encode env data).

(** [client.audio.transcriptions.create(model=..., file=..., prompt=...)]
    followed by [resp.text]. *)
Definition transcriptions_create (model audio : string) : M string :=
  fun w =>
    match asr env model audio TRANSCRIPTION_PROMPT with
    | inl e => (Raise e, add_event (EvTranscribe model None) w)
    | inr text => (Ok text, add_event (EvTranscribe model (Some text)) w)
    end.

Definition transcribe_audio (audio_path : string) : M string :=
  try_except
    (af <- read_file audio_path ;;
     transcriptions_create "gpt-4o-transcribe" af)
    any_exception
    (fun e =>
       print ("gpt-4o-transcribe failed (" +:+ exn_msg e +:+
              "); falling back to whisper-1…") ;;;
       af <- read_file audio_path ;;
       transcriptions_create "whisper-1" af).

(** [VideoFileClip(video_path)]. *)
Definition open_clip (video_path : string) : M Clip :=
  fun w =>
    match fs w !! locate env video_path with
    | Some (File data) =>
        match clip_decode env data with
        | inl e => (Raise e, w)
        | inr clip => (Ok clip, w)
        end
    | _ => (Raise (Exn OSError ("cannot open " +:+ video_path)), w)
    end.

(** [clip.audio.write_audiofile(audio_path, logger=None)]. *)
Definition write_audiofile (audio_path wav : string) : M unit :=
  fun w =>
    match fs w !! audio_path with
    | Some Dir => (Raise (Exn OSError ("is a directory: " +:+ audio_path)), w)
    | _ =>
        let '(written, err) := audio_write env wav in
        let w' := match written with
                  | Some data => set_fs (insert audio_path (File data)) w
                  | None => w
                  end in
        match err with
        | Some e => (Raise e, w')
        | None => (Ok tt, w')
        end
    end.

Definition NO_AUDIO : string := "There is no audio for this video.".

Definition extract_audio_and_transcribe (video_path : string)
  : M (string * list string) :=
  let audio_path := OUTPUT_AUDIO_PATH in
  clip <- open_clip video_path ;;
  match clip_audio clip with
  | None =>
      let transcript := NO_AUDIO in
      print transcript ;;;
      ret (transcript, [])
  | Some wav =>
      write_audiofile audio_path wav ;;;
      transcript <- transcribe_audio audio_path ;;
      let baby_cues := detect_baby_sounds transcript in
      let cues_for_log :=
        match baby_cues with
        | [] => "none"
        | _ => Text.join ", " baby_cues
        end in
      print ("Transcript: " +:+ Unicode.prefix 160 transcript +:+
             (if (160 <? Unicode.length transcript)%nat then "…" else "")) ;;;
      print ("Detected baby cues: " +:+ cues_for_log) ;;;
      try_except (os_remove env audio_path) (is_class OSError) (fun _ => ret tt) ;;;
      ret (transcript, baby_cues)
  end.

End Stages.

(** ** The analysis request *)

Definition cues_text_of (baby_cues : list string) : string :=
  match baby_cues with
  | [] => "No specific Dunstan baby cry cues detected in audio."
  | _ => "Baby cry cues detected in audio: " +:+ Text.join ", " baby_cues
  end.

(** The payload for the Responses API. *)
Definition responses_content (prompt_text transcript : string)
           (base64frames baby_cues : list string) : list Part :=
  let frames := take MAX_FRAMES base64frames in
  [ TextPart "input_text" prompt_text;
    TextPart "input_text" ("Video audio transcript (may be noisy/partial): " +:+ transcript);
    TextPart "input_text" (cues_text_of baby_cues) ]
  ++ map (fun b64 => ImagePart "input_image" ("data:image/jpeg;base64," +:+ b64)) frames.

(** The content of the single user message for Chat Completions. *)
Definition chat_content (prompt_text transcript : string)
           (base64frames baby_cues : list string) : list Part :=
  let frames := take MAX_FRAMES base64frames in
  [ TextPart "text" prompt_text;
    TextPart "text" ("Video audio transcript (may be noisy/partial): " +:+ transcript);
    TextPart "text" (cues_text_of baby_cues) ]
  ++ map (fun b64 => ImagePart "image_url" ("data:image/jpeg;base64," +:+ b64)) frames.

(** [d.get(key)] on a dict with string values. *)
Fixpoint dict_get (fields : list (string * string)) (key : string) : option string :=
  match fields with
  | [] => None
  | (k, v) :: rest => if String.eqb k key then Some v else dict_get rest key
  end.

Definition attribute_error (what : string) : exn :=
  Exn AttributeError ("no attribute " +:+ what).

(** [for c in block.content: if c.get("type") == "output_text": ...]:
    the text to print, if an entry carries one. *)
Fixpoint scan_entries (content : list Entry) : Res (option string) :=
  match content with
  | [] => Ok None
  | ObjEntry :: _ => Raise (attribute_error "get")
  | DictEntry fields :: rest =>
      match dict_get fields "type" with
      | Some "output_text" => Ok (Some (default "" (dict_get fields "text")))
      | _ => scan_entries rest
      end
  end.

(** [for block in getattr(resp, "output", []) or []: ...]. *)
Fixpoint scan_blocks (blocks : list Block) : Res (option string) :=
  match blocks with
  | [] => Ok None
  | block :: rest =>
      match block_type block with
      | Some "message" =>
          match block_content block with
          | None => Raise (attribute_error "content")
          | Some content =>
              match scan_entries content with
              | Ok None => scan_blocks rest
              | found => found
              end
          end
      | _ => scan_blocks rest
      end
  end.

(** The names the gather loop of [video_GPT] keeps. *)
Definition is_image_name (filename : string) : bool :=
  let l := Text.lower filename in
  Text.ends_with ".jpg" l || Text.ends_with ".jpeg" l || Text.ends_with ".png" l.

Section Orchestrator.

Variable env : Env.

Definition analyze_frames_with_responses (prompt_text transcript : string)
           (base64frames baby_cues : list string) : M unit :=
  let responses := responses_content prompt_text transcript base64frames baby_cues in
  let chat := chat_content prompt_text transcript base64frames baby_cues in
  finished <-
    try_except
      ((if has_responses env then ret tt
        else throw (attribute_error "responses")) ;;;
       emit (EvResponses responses) ;;;
       resp <- lift_sum (responses_create env responses) ;;
       match output_text resp with
       | Some (String c t) => print (String c t) ;;; ret true
       | _ =>
           found <- lift_res (scan_blocks (default [] (output resp))) ;;
           match found with
           | Some text => print text ;;; ret true
           | None => print (resp_repr resp) ;;; ret true
           end
       end)
      (is_class AttributeError)
      (fun _ => ret false) ;;
  if finished then ret tt
  else
    emit (EvChat chat) ;;;
    text <- lift_sum (chat_create env chat) ;;
    print text.

(** The gather loop of [video_GPT] over the sorted names: every image
    file of the frame folder, base64-encoded. *)
Fixpoint gather_loop (names : list string) : M (list string) :=
  match names with
  | [] => ret []
  | filename :: rest =>
      let fp := Path.join FRAME_FOLDER filename in
      w <- get_world ;;
      if isfile (fs w) fp && is_image_name filename then
        b <- convert_to_base64 env fp ;;
        bs <- gather_loop rest ;;
        ret (b :: bs)
      else gather_loop rest
  end.

Definition gather_frames : M (list string) :=
  names <- os_listdir FRAME_FOLDER ;;
  gather_loop (sorted names).

Definition video_GPT (video_path : string) (start_sec : Q) (end_sec : option Q)
           (cookie_file : option string)
           (cookies_from_browser : option (string * option string)) : M unit :=
  acquired <- prepare_video_input env video_path cookie_file cookies_from_browser ;;
  let local_video_path := acquired.1 in
  let temp_dir := acquired.2 in
  let cleanup_targets := [temp_dir] in
  try_finally
    (extract_frames env local_video_path (1 # 2) start_sec end_sec ;;;
     tc <- extract_audio_and_transcribe env local_video_path ;;
     let transcript := tc.1 in
     let baby_cues := tc.2 in
     base64frames <- gather_frames ;;
     analyze_frames_with_responses PROMPT_VISION transcript base64frames baby_cues)
    (cleanup_paths env (cleanup_targets ++ [Some FRAME_FOLDER])).

End Orchestrator.

(** ** A concrete environment, for running the model on examples *)

Module Concrete.

(** CPython's [urllib.parse.urlsplit] as far as scheme, netloc and path go:
    leading control characters and blanks are dropped, tab and newline
    characters are removed, a scheme is the text before the first colon when
    it starts with a letter and holds only scheme characters, and the
    netloc is what follows ["//"] up to the next ["/"], ["?"] or ["#"].
    Unbalanced brackets in the netloc raise ValueError. *)

Definition is_c0_or_space (c : ascii) : bool := (N_of_ascii c <=? 32)%N.

Definition is_unsafe (c : ascii) : bool :=
  Ascii.eqb c "009"%char || Ascii.eqb c "010"%char || Ascii.eqb c "013"%char.

Definition is_scheme_char (c : ascii) : bool :=
  Text.is_alpha c || Text.is_digit c ||
  Ascii.eqb c "+"%char || Ascii.eqb c "-"%char || Ascii.eqb c "."%char.

Definition is_one_of (set : string) (c : ascii) : bool :=
  existsb (Ascii.eqb c) (Text.chars set).

Definition split_scheme (l : list ascii) : list ascii * list ascii :=
  let head := Text.take_while (fun c => negb (Ascii.eqb c ":"%char)) l in
  match head with
  | c :: _ =>
      if (length head <? length l)%nat && Text.is_alpha c && forallb is_scheme_char head
      then (map Text.lower_char head, drop (S (length head)) l)
      else ([], l)
  | [] => ([], l)
  end.

Definition split_netloc (l : list ascii) : list ascii * list ascii :=
  if Text.starts_with (Text.chars "//") l then
    let r := drop 2 l in
    let n := Text.take_while (fun c => negb (is_one_of "/?#" c)) r in
    (n, drop (length n) r)
  else ([], l).

(** [_splitparams]: the path without the parameters of its last segment. *)
Definition strip_params (path : list ascii) : list ascii :=
  let base := Path.basename_go [] path in
  let dir := take (length path - length base) path in
  dir ++ Text.take_while (fun c => negb (Ascii.eqb c ";"%char)) base.

Definition py_urlparse (url : string) : option Url :=
  let l := Text.drop_while is_c0_or_space (Text.chars url) in
  let l := List.filter (fun c => negb (is_unsafe c)) l in
  let '(sch, rest) := split_scheme l in
  let '(loc, rest) := split_netloc rest in
  let opened := existsb (Ascii.eqb "["%char) loc in
  let closed := existsb (Ascii.eqb "]"%char) loc in
  if xorb opened closed then None
  else
    let path := Text.take_while (fun c => negb (is_one_of "?#" c)) rest in
    Some {| scheme := Text.of_chars sch;
            netloc := Text.of_chars loc;
            url_path := Text.of_chars (strip_params path) |}.

(** The knobs of a run: where, if anywhere, the outside world fails. *)
Record Scenario : Type := {
  download_ok : bool;
  decode_ok : bool;          (* OpenCV and moviepy can open the video *)
  audio_present : bool;
  primary_ok : bool;         (* gpt-4o-transcribe answers *)
  fallback_ok : bool;        (* whisper-1 answers *)
  inference_ok : bool;
  deletions_ok : bool
}.

Definition all_fine : Scenario :=
  {| download_ok := true; decode_ok := true; audio_present := true;
     primary_ok := true; fallback_ok := true; inference_ok := true;
     deletions_ok := true |}.

(** A synthetic video: [n] frames at [fps] frames per second; frame [i]
    is the image ["img<i>"], and a seek lands on frame [floor(ms*fps/1000)]. *)
Definition synthetic_video (fps : Q) (n : nat) : CvVideo :=
  {| cv_fps := fps;
     cv_frames := map (fun i => "img" +:+ format_07d (Z.of_nat i)) (seq 0 n);
     cv_seek := fun ms => Z.to_nat (Qfloor (ms * fps / 1000)) |}.

Definition service_error (what : string) : exn := Exn OtherError what.

Definition scenario_env (sc : Scenario) : Env :=
  {| locate := Path.normpath;
     urlparse := py_urlparse;
     guess_extension := fun mime =>
       if String.eqb mime "video/webm" then Some ".webm" else None;
     yt_dlp_available := true;
     mkdtemp_name := fun prefix _ => "/tmp/" +:+ prefix +:+ "a1b2c3";
     ytdl := fun _ _ _ =>
       if download_ok sc then ([("mp4", "VIDEO")], inr "mp4")
       else ([("mp4.part", "VID")], inl (service_error "download failed"));
     http_get := fun _ =>
       if download_ok sc then inr (Some "video/mp4", "VIDEO", None)
       else inr (Some "video/mp4", "VID", Some (service_error "connection reset"));
     rm_fails := fun _ => negb (deletions_ok sc);
     mkdir_fails := fun _ => false;
     cv_decode := fun data =>
       if decode_ok sc && String.eqb data "VIDEO"
       then Some (synthetic_video 30 300) else None;
     clip_decode := fun data =>
       if decode_ok sc && String.eqb data "VIDEO"
       then inr {| clip_audio := if audio_present sc then Some "WAV" else None |}
       else inl (service_error "moviepy cannot read the file");
     audio_write := fun wav => (Some wav, None);
     asr := fun model _ _ =>
       if String.eqb model "gpt-4o-transcribe" then
         if primary_ok sc then inr "neh neh HEH"
         else inl (service_error "primary model unavailable")
       else
         if fallback_ok sc then inr "the baby says eh"
         else inl (service_error "fallback model unavailable");
     has_responses := true;
     responses_create := fun _ =>
       if inference_ok sc
       then inr {| output_text := Some "The baby looks hungry.";
                   output := None; resp_repr := "Response()" |}
       else inl (service_error "inference failed");
     chat_create := fun _ =>
       if inference_ok sc then inr "The baby looks hungry."
       else inl (service_error "inference failed");
     b64encode := fun data => "b64:" +:+ data |}.

Definition empty_world : World := {| fs := ∅; out := []; events := [] |}.

(** A world holding one local video file. *)
Definition world_with_video (path : string) : World :=
  {| fs := {[ path := File "VIDEO" ]}; out := []; events := [] |}.

(** Both transcription models are down. *)
Definition transcription_down : Scenario :=
  {| download_ok := true; decode_ok := true; audio_present := true;
     primary_ok := false; fallback_ok := false; inference_ok := true;
     deletions_ok := true |}.

(** The download breaks midway. *)
Definition download_down : Scenario :=
  {| download_ok := false; decode_ok := true; audio_present := true;
     primary_ok := true; fallback_ok := true; inference_ok := true;
     deletions_ok := true |}.

(** The primary transcription model is down and inference fails. *)
Definition inference_down : Scenario :=
  {| download_ok := true; decode_ok := true; audio_present := true;
     primary_ok := false; fallback_ok := true; inference_ok := false;
     deletions_ok := true |}.

(** A world in which an earlier run left the frame folder behind. *)
Definition world_with_stale_frames : World :=
  {| fs := {[ FRAME_FOLDER := Dir ]}; out := []; events := [] |}.

(** A world whose only video sits inside the frame folder. *)
Definition video_in_frames : string := "../data/crying_baby/frames/clip.mp4".

Definition world_video_in_frames : World :=
  {| fs := <[ video_in_frames := File "VIDEO" ]> {[ FRAME_FOLDER := Dir ]};
     out := []; events := [] |}.

(** Another spelling of the same file. *)
Definition video_in_frames_respelled : string :=
  "../data/crying_baby/./frames/clip.mp4".

End Concrete.

(** ** Notions used to state the properties *)

(** The kind of source [prepare_video_input] takes a string for, read off
    its branches. *)
Inductive VideoSource : Type :=
| Local (path : string)
| RemoteFile (url : string)
| PlatformHosted (url : string).

Definition classify (env : Env) (source : string) : VideoSource :=
  if negb (is_url env source) then Local source
  else match is_youtube_url env source with
       | Ok true => PlatformHosted source
       | _ => RemoteFile source
       end.

(** The string parses with an [http] or [https] scheme. *)
Definition has_http_scheme (env : Env) (source : string) : Prop :=
  exists parsed, urlparse env source = Some parsed /\
                 (scheme parsed = "http" \/ scheme parsed = "https").

(** The host of the parsed string matches a platform pattern. *)
Definition platform_host (env : Env) (source : string) : Prop :=
  exists parsed, urlparse env source = Some parsed /\
    (Text.contains "youtube.com" (Text.lower (netloc parsed)) = true \/
     Text.contains "youtu.be" (Text.lower (netloc parsed)) = true).

(** The events a computation added to the world. *)
Definition new_events (w w' : World) : list event :=
  drop (length (events w)) (events w').

(** The inline images of a request, in order. *)
Definition images_of (content : list Part) : list string :=
  omap (fun p => match p with
                 | ImagePart _ url => Some url
                 | TextPart _ _ => None
                 end) content.

Definition data_url (b64 : string) : string := "data:image/jpeg;base64," +:+ b64.

(** The images of an inference request; [None] for other events. *)
Definition request_images (ev : event) : option (list string) :=
  match ev with
  | EvResponses content | EvChat content => Some (images_of content)
  | _ => None
  end.

(** Is the event a call to the transcription service? *)
Definition is_transcription_call (ev : event) : bool :=
  match ev with
  | EvTranscribe _ _ => true
  | _ => false
  end.

(** The character before the position reached after reading [m]. *)
Definition prev_after (prev : option N) (m : list N) : option N :=
  match last m with
  | Some x => Some x
  | None => prev
  end.

(** The characters [m] are the letters [cs], up to case. *)
Definition same_fold (m : list N) (cs : list ascii) : Prop :=
  Forall2 (fun x c => Re.lit_eq true c x = true) m cs.

(** A cue the pattern [\bcue\b] is meant for: non-empty, word characters only. *)
Definition word_cue (cs : list ascii) : Prop :=
  cs <> [] /\ forallb Text.is_word cs = true.

(** The text, a sequence of characters, holds [cs], up to case, as a whole
    word: not glued to a word character on either side. *)
Definition occurs_as_word (cs : list ascii) (text : list N) : Prop :=
  exists pre m post,
    text = pre ++ m ++ post /\ same_fold m cs /\
    Re.word_opt (last pre) = false /\ Re.word_opt (head post) = false.

(** The test of the detection loop for one cue. *)
Definition cue_found (transcript cue : string) : bool :=
  Re.search true (Re.whole_word cue) transcript.

(** What becomes of a character when [f] is applied to the bytes of the
    text: an ASCII character is its byte, any other is left alone by an
    [f] that only touches ASCII bytes. *)
Definition recase (f : ascii -> ascii) (cp : N) : N :=
  if (cp <? 128)%N then Unicode.byte (f (ascii_of_N cp)) else cp.

(** The frames the sampling loop persists, as (native index, image) pairs
    in the order written: the loop of [sample_loop] without its effects. *)
Fixpoint schedule {A : Type} (fps : Q) (frame_skip : Z) (safe_end : option Q)
         (start_frame_idx : Z) (remaining : list A) (frame_idx : Z) : list (Z * A) :=
  let current_frame := start_frame_idx + frame_idx in
  let current_time :=
    if Qeq_bool fps 0 then 0%Q else (inject_Z current_frame / fps)%Q in
  if match safe_end with
     | Some e => Qle_bool e current_time
     | None => false
     end
  then []
  else
    match remaining with
    | [] => []
    | frame :: rest =>
        (if frame_idx mod frame_skip =? 0 then [(current_frame, frame)] else [])
        ++ schedule fps frame_skip safe_end start_frame_idx rest (frame_idx + 1)
    end.

(** Writing one sampled frame and logging it, as [cv2.imwrite] and
    [print] do. *)
Definition persist_frame (w : World) (sample : Z * string) : World :=
  add_out ("Saved " +:+ frame_path sample.1)
          (if isdir (fs w) (frame_path sample.1) then w
           else set_fs (insert (frame_path sample.1) (File sample.2)) w).

Definition persist_frames (samples : list (Z * string)) (w : World) : World :=
  foldl persist_frame w samples.

Definition WINDOW_WARNING : string :=
  "End timestamp must be greater than start; processing full video instead.".

(** What a computation may do to the world: the paths whose entry it may
    change, the paths it may create an entry at, the outside calls it may
    make. *)
Record Footprint : Type := {
  may_change : string -> Prop;
  may_create : string -> Prop;
  may_emit : event -> Prop
}.

(** [w'] differs from [w] within the footprint: an entry that is there
    is changed or removed only where the footprint allows changes, and an
    entry appears only where it allows creation. *)
Definition within (fp : Footprint) (w w' : World) : Prop :=
  (forall p, ~ may_change fp p -> fs w !! p <> None -> fs w' !! p = fs w !! p) /\
  (forall p, ~ may_create fp p -> fs w !! p = None -> fs w' !! p = None) /\
  (exists new, events w' = events w ++ new /\ Forall (may_emit fp) new).

(** A computation that keeps to the footprint, whatever its outcome. *)
Definition stays {A : Type} (fp : Footprint) (m : M A) : Prop :=
  forall w, within fp w (m w).2.

Definition is_mkdtemp (ev : event) : Prop :=
  match ev with
  | EvMkdtemp _ => True
  | _ => False
  end.

Definition is_request (ev : event) : Prop :=
  match ev with
  | EvResponses _ | EvChat _ => True
  | _ => False
  end.

(** A footprint that does not depend on the path. *)
Definition uniform (change create : Prop) (emit : event -> Prop) : Footprint :=
  {| may_change := fun _ => change; may_create := fun _ => create; may_emit := emit |}.

(** Every deletion the run attempts succeeds. *)
Definition deletions_succeed (env : Env) : Prop :=
  forall p, rm_fails env p = false.

(** The body of the [try] block of [video_GPT]. *)
Definition pipeline_body (env : Env) (local_video_path : string) (start_sec : Q)
           (end_sec : option Q) : M unit :=
  extract_frames env local_video_path (1 # 2) start_sec end_sec ;;;
  tc <- extract_audio_and_transcribe env local_video_path ;;
  base64frames <- gather_frames env ;;
  analyze_frames_with_responses env PROMPT_VISION tc.1 base64frames tc.2.

(** The paths a run on a local video may touch: the frame folder with
    what is below it, and the scratch audio file; the directories above
    the frame folder may be created. *)
Definition scratch_footprint : Footprint :=
  {| may_change := fun q => Path.in_tree FRAME_FOLDER q = true \/ q = OUTPUT_AUDIO_PATH;
     may_create := fun q => Path.in_tree FRAME_FOLDER q = true \/ q = OUTPUT_AUDIO_PATH
                            \/ In q (Path.parents FRAME_FOLDER);
     may_emit := fun _ => True |}.


(** ** Command-line helpers *)

(** [s.split(":", 1)]: the text before the first colon and, when there is
    a colon, the text after it. *)
Fixpoint split_colon_once (l : list ascii) : list ascii * option (list ascii) :=
  match l with
  | [] => ([], None)
  | c :: l' =>
      if Ascii.eqb c ":"%char then ([], Some l')
      else let '(before, after) := split_colon_once l' in (c :: before, after)
  end.

Definition _normalize_browser_cookie_arg (raw : option string)
  : Res (option (string * option string)) :=
  match raw with
  | None => Ok None
  | Some raw =>
      if String.eqb raw "" then Ok None
      else
        let '(part0, part1) := split_colon_once (Text.chars raw) in
        let browser := Text.of_chars (strip_chars part0) in
        if String.eqb browser "" then
          Raise (Exn ValueError
            "--cookies-from-browser requires a browser name, e.g. chrome or firefox")
        else
          let profile :=
            match part1 with
            | Some rest =>
                let p := Text.of_chars (strip_chars rest) in
                if String.eqb p "" then None else Some p
            | None => None
            end in
          Ok (Some (browser, profile))
  end.

(** What [strip] leaves: no whitespace at either end. *)
Definition trimmed (l : list ascii) : Prop :=
  lstrip_chars l = l /\ rstrip_chars l = l.

(** A text made of whitespace characters only. *)
Definition blank (l : list ascii) : Prop :=
  exists cps, Forall (fun cp => In cp Unicode.whitespace) cps /\
              l = concat (map Unicode.encode cps).

(** A string [strip] leaves as it is. *)
Definition stripped (s : string) : Prop := strip s = s.

(** The argument the normaliser reads a browser and a profile back from. *)
Definition cookie_arg (browser : string) (profile : option string) : string :=
  match profile with
  | Some p => browser +:+ ":" +:+ p
  | None => browser
  end.

(** ** Notions for the directory utilities *)

(** The body of the loop of [ensure_clean_dir]. *)
Definition clean_entry (env : Env) (path fn : string) : M unit :=
  let fp := Path.join path fn in
  try_except
    (w <- get_world ;;
     if isfile (fs w) fp then os_remove env fp
     else if isdir (fs w) fp then shutil_rmtree env fp false
     else ret tt)
    any_exception
    (fun e => print ("Failed to delete " +:+ fp +:+ ". Reason: " +:+ exn_msg e)).

(** A directory path as the code writes them: non-empty, no trailing
    separator. *)
Definition plain_dir (path : string) : Prop :=
  path <> "" /\ Text.ends_with "/" path = false.

(** The filesystem after a successful deletion of [p], file or tree. *)
Definition without (p : string) (m : gmap string node) : gmap string node :=
  match m !! p with
  | Some Dir => remove_tree p m
  | Some (File _) => delete p m
  | None => m
  end.

(** ** Notions for the gather loop *)

(** The bytes of the file at [p]. *)
Definition file_data (m : gmap string node) (p : string) : string :=
  match m !! p with
  | Some (File data) => data
  | _ => ""
  end.

(** The test of the gather loop of [video_GPT] on one name. *)
Definition gathers (m : gmap string node) (filename : string) : bool :=
  isfile m (Path.join FRAME_FOLDER filename) && is_image_name filename.

(** The order of [sorted] on names. *)
Definition name_le (a b : string) : Prop := String.leb a b = true.

(** ** Notions for the analysis request *)

(** The attempt through the Responses API ends in an [AttributeError]:
    raised by the call itself, or while reading [block.content] of a
    reply that carries no [output_text]. *)
Definition responses_attribute_error (env : Env) (content : list Part) : Prop :=
  (exists e, responses_create env content = inl e /\ is_class AttributeError e = true) \/
  (exists resp e,
     responses_create env content = inr resp /\
     (output_text resp = None \/ output_text resp = Some "") /\
     scan_blocks (default [] (output resp)) = Raise e).

(** ** Notions for the frame sampler *)

(** [cv2.VideoCapture] cannot open the video: there is no file under
    that path, or OpenCV cannot decode it. *)
Definition unopenable (env : Env) (w : World) (video_path : string) : Prop :=
  match fs w !! locate env video_path with
  | Some (File data) => cv_decode env data = None
  | _ => True
  end.

(** The frame's timestamp lies before the end of the window, if any. *)
Definition before_end (fps : Q) (safe_end : option Q) (current_frame : Z) : Prop :=
  forall e, safe_end = Some e -> (inject_Z current_frame / fps < e)%Q.

(** Samples in strictly ascending order of their native index. *)
Definition ascending {A : Type} (samples : list (Z * A)) : Prop :=
  StronglySorted (fun a b : Z * A => a.1 < b.1) samples.

(** ** The web front end ([BabyAgent/app.py]) *)

Module App.

(** An uploaded file of the request: [FileStorage.filename] and the bytes
    [FileStorage.save] writes. *)
Record Upload : Type := { upload_filename : string; upload_data : string }.

Inductive Method : Type :=
| GET
| POST.

(** The request as far as [index] reads it: the method, the form field
    [video_url] and the file field [video_file]. *)
Record Request : Type := {
  method : Method;
  form_video_url : option string;
  files_video_file : option Upload
}.

(** The two values the page template is rendered from. *)
Record Page : Type := { page_error : option string; page_analysis : option string }.

(** The libraries [index] uses besides those of the pipeline. *)
Record AppEnv : Type := {
  (* pathlib: Path(name).suffix *)
  path_suffix : string -> string;
  (* the name tempfile.NamedTemporaryFile picks for a suffix *)
  temp_file_name : string -> gmap string node -> string;
  (* the error of tempfile.NamedTemporaryFile when it cannot create a file *)
  temp_file_error : string -> option exn;
  (* FileStorage.save, when the copy fails: the bytes that reached the
     file, and the error *)
  save_error : Upload -> option (string * exn)
}.

Definition newline : string := String (ascii_of_nat 10) EmptyString.

(** What a [StringIO] holds after these lines were printed into it. *)
Definition printed (lines : list string) : string :=
  String.concat "" (map (fun line => line +:+ newline) lines).

Section Front.

Variable env : Env.
Variable app : AppEnv.

(** [with redirect_stdout(buffer): video_GPT(video_path=video_source)]:
    the lines go to the buffer and not to the process's output; an error
    of [video_GPT] leaves the [with] block and the function. *)
Definition run_analysis (video_source : string) : M string :=
  fun w =>
    let inner := {| fs := fs w; out := []; events := events w |} in
    let '(r, w') := video_GPT env video_source 0 None None None inner in
    let outer := {| fs := fs w'; out := out w; events := events w' |} in
    match r with
    | Ok _ => (Ok (printed (out w')), outer)
    | Raise e => (Raise e, outer)
    end.

(** [Path(uploaded_file.filename).suffix or ".mp4"]. *)
Definition upload_suffix (upload : Upload) : string :=
  str_or (path_suffix app (upload_filename upload)) ".mp4".

(** The first statements of the [try] block for an upload:
    [NamedTemporaryFile(delete=False, suffix=suffix)], which creates the
    file, and [uploaded_file.save(tmp.name)] into it.  The result is the
    value [temp_path] gets, which it gets only when both went through; a
    copy that fails leaves the file with what was written. *)
Definition save_upload (upload : Upload) : M string :=
  fun w =>
    match temp_file_error app (upload_suffix upload) with
    | Some e => (Raise e, w)
    | None =>
        let name := temp_file_name app (upload_suffix upload) (fs w) in
        match save_error app upload with
        | Some (partial, e) => (Raise e, set_fs (insert name (File partial)) w)
        | None => (Ok name, set_fs (insert name (File (upload_data upload))) w)
        end
    end.

(** What the [except Exception] clause of [index] makes of an error. *)
Definition failure_page (exc : exn) : Page :=
  {| page_error := Some ("Analysis failed: " +:+ exn_msg exc); page_analysis := None |}.

(** The [try] block of [index] from the call of [run_analysis] on, with
    its [except Exception] clause. *)
Definition analyse (source : string) : M Page :=
  try_except
    (analysis_output <- run_analysis source ;;
     ret {| page_error := None; page_analysis := Some analysis_output |})
    any_exception
    (fun exc => ret (failure_page exc)).

(** The [finally] clause of [index]. *)
Definition remove_upload (temp_path : option string) : M unit :=
  match temp_path with
  | None => ret tt
  | Some p =>
      if String.eqb p "" then ret tt
      else
        w <- get_world ;;
        if exists_path (fs w) p then os_remove env p else ret tt
  end.

(** [uploaded_file and uploaded_file.filename]. *)
Definition given_file (request : Request) : option Upload :=
  match files_video_file request with
  | Some upload => if String.eqb (upload_filename upload) "" then None else Some upload
  | None => None
  end.

(** [(request.form.get("video_url") or "").strip()]. *)
Definition given_url (request : Request) : string :=
  strip (default "" (form_video_url request)).

Definition index (request : Request) : M Page :=
  match method request with
  | GET => ret {| page_error := None; page_analysis := None |}
  | POST =>
      let video_url := given_url request in
      match String.eqb video_url "", given_file request with
      | true, None =>
          ret {| page_error := Some "Please upload a video or provide a URL.";
                 page_analysis := None |}
      | false, Some _ =>
          ret {| page_error := Some "Provide either a video file or a URL, not both.";
                 page_analysis := None |}
      | true, Some upload =>
          fun w =>
            match save_upload upload w with
            | (Ok temp_path, w1) =>
                try_finally (analyse temp_path) (remove_upload (Some temp_path)) w1
            | (Raise exc, w1) =>
                (* the error is caught with [temp_path] still [None] *)
                try_finally (ret (failure_page exc)) (remove_upload None) w1
            end
      | false, None =>
          try_finally (analyse video_url) (remove_upload None)
      end
  end.

End Front.

End App.

(** The request names exactly one source: a URL or a file. *)
Definition one_source (request : App.Request) : bool :=
  xorb (negb (String.eqb (App.given_url request) ""))
       (match App.given_file request with Some _ => true | None => false end).

(** The name the upload of a request is saved under. *)
Definition upload_path (app : App.AppEnv) (upload : App.Upload) (w : World) : string :=
  App.temp_file_name app (App.upload_suffix app upload) (fs w).

(** Exactly one of the two fields of the page is set. *)
Definition one_field (page : App.Page) : Prop :=
  (App.page_error page = None /\ App.page_analysis page <> None) \/
  (App.page_error page <> None /\ App.page_analysis page = None).

(** ** Further concrete worlds, for running the model on examples *)

Module Examples.

Import Concrete.

(** Nothing can be deleted. *)
Definition deletions_down : Scenario :=
  {| download_ok := true; decode_ok := true; audio_present := true;
     primary_ok := true; fallback_ok := true; inference_ok := true;
     deletions_ok := false |}.

(** A frame of an earlier run sits in the frame folder next to the video. *)
Definition stale_frame : string := "../data/crying_baby/frames/frame_0000001.jpg".

Definition world_with_stale_frame : World :=
  {| fs := <[ stale_frame := File "OLD" ]>
             (<[ FRAME_FOLDER := Dir ]> {[ "baby.mp4" := File "VIDEO" ]});
     out := []; events := [] |}.

(** A frame folder holding two images, a text file and a directory whose
    name looks like an image. *)
Definition world_with_mixed_folder : World :=
  {| fs := <[ "../data/crying_baby/frames/b.jpg" := File "B" ]>
             (<[ "../data/crying_baby/frames/a.PNG" := File "A" ]>
                (<[ "../data/crying_baby/frames/notes.txt" := File "N" ]>
                   (<[ "../data/crying_baby/frames/sub.jpg" := Dir ]>
                      {[ FRAME_FOLDER := Dir ]})));
     out := []; events := [] |}.

(** A stand-in for pathlib and tempfile, enough for the examples. *)
Definition example_app : App.AppEnv :=
  {| App.path_suffix := fun name => (Path.splitext name).2;
     App.temp_file_name := fun suffix _ => "/tmp/tmpupload" +:+ suffix;
     App.temp_file_error := fun _ => None;
     App.save_error := fun _ => None |}.

(** The disk fills up while the upload is copied. *)
Definition disk_full_app : App.AppEnv :=
  {| App.path_suffix := fun name => (Path.splitext name).2;
     App.temp_file_name := fun suffix _ => "/tmp/tmpupload" +:+ suffix;
     App.temp_file_error := fun _ => None;
     App.save_error := fun _ => Some ("VID", Exn OSError "No space left on device") |}.

Definition upload_request : App.Request :=
  {| App.method := App.POST;
     App.form_video_url := Some "  ";
     App.files_video_file :=
       Some {| App.upload_filename := "baby.mp4"; App.upload_data := "VIDEO" |} |}.

Definition url_request : App.Request :=
  {| App.method := App.POST;
     App.form_video_url := Some " https://example.com/baby.mp4 ";
     App.files_video_file := None |}.

End Examples.

(** * Properties *)

(** ** Frame stride *)

Lemma Qtrunc_nonneg (q : Q) : (0 <= q)%Q -> Qtrunc q = Qfloor q.
Proof.
  destruct q as [n d]. unfold Qle, Qtrunc, Qfloor. simpl. intros H.
  apply Z.quot_div_nonneg; lia.
Qed.

Lemma Qtrunc_neg (q : Q) : (q < 0)%Q -> Qtrunc q <= 0.
Proof.
  destruct q as [n d]. unfold Qlt, Qtrunc. simpl. intros H.
  replace n with (- (- n)) by lia. rewrite Z.quot_opp_l by lia.
  assert (0 <= (- n) ÷ Z.pos d) by (apply Z.quot_pos; lia). lia.
Qed.

Lemma Qround_nearest_bounds (q : Q) :
  Qfloor q <= Qround_nearest q <= Qfloor q + 1.
Proof.
  unfold Qround_nearest. split.
  - apply Qfloor_resp_le. rewrite <- (Qplus_0_r q) at 1.
    apply Qplus_le_r. discriminate.
  - assert (H : (q + (1 # 2) < inject_Z (Qfloor q + 1 + 1))%Q).
    { rewrite inject_Z_plus. apply Qplus_lt_le_compat.
      - apply Qlt_floor.
      - discriminate. }
    assert (H2 : Qfloor (q + (1 # 2)) < Qfloor q + 1 + 1).
    { rewrite Zlt_Qlt. eapply Qle_lt_trans; [apply Qfloor_le | exact H]. }
    lia.
Qed.

Lemma Qtrunc_comp (p q : Q) : (p == q)%Q -> Qtrunc p = Qtrunc q.
Proof.
  intros E. destruct (Qlt_le_dec p 0) as [Hneg | Hpos].
  - assert (Hq : (q < 0)%Q) by (by rewrite <- E).
    assert (Hopp : forall r : Q, (r < 0)%Q -> Qtrunc r = - Qfloor (- r)).
    { intros [n d]. unfold Qlt, Qtrunc, Qfloor. simpl. intros H.
      replace n with (- (- n)) at 1 by lia. rewrite Z.quot_opp_l by lia.
      rewrite Z.quot_div_nonneg by lia. reflexivity. }
    rewrite (Hopp p Hneg), (Hopp q Hq). f_equal. apply Qfloor_comp. by rewrite E.
  - assert (Hq : (0 <= q)%Q) by (by rewrite <- E).
    rewrite (Qtrunc_nonneg p Hpos), (Qtrunc_nonneg q Hq). by apply Qfloor_comp.
Qed.

(** Truncation against rounding to the nearest integer. *)
Lemma Qtrunc_round (p : Q) :
  ((0 <= p)%Q -> Qtrunc p = Qfloor p) /\
  ((p < 0)%Q -> Qtrunc p <= 0) /\
  Z.max 1 (Qtrunc p) <= Z.max 1 (Qround_nearest p) <= Z.max 1 (Qtrunc p) + 1.
Proof.
  pose proof (Qround_nearest_bounds p) as Hr.
  destruct (Qlt_le_dec p 0) as [Hneg | Hpos].
  - pose proof (Qtrunc_neg p Hneg) as Ht.
    assert (Qfloor p <= -1).
    { assert (Qfloor p < 0); [|lia].
      rewrite Zlt_Qlt. eapply Qle_lt_trans; [apply Qfloor_le | exact Hneg]. }
    split; [|split].
    + intros H0. exfalso. apply (Qlt_not_le _ _ Hneg H0).
    + intros _. lia.
    + lia.
  - rewrite (Qtrunc_nonneg p Hpos). split; [|split].
    + intros _. reflexivity.
    + intros H0. exfalso. apply (Qlt_not_le _ _ H0 Hpos).
    + lia.
Qed.

Lemma to_int_value (x : spec_float) (p : Q) :
  Float.value x = Some p -> Float.to_int x = Ok (Qtrunc p).
Proof.
  destruct x as [s | s | | s m e]; simpl; intros H; try discriminate;
    by injection H as <-.
Qed.

Lemma to_int_raises (x : spec_float) :
  Float.value x = None ->
  exists e, Float.to_int x = Raise e /\
            (is_class ValueError e || is_class OverflowError e) = true.
Proof.
  destruct x as [s | s | | s m e]; simpl; intros H; try discriminate;
    eexists; (split; [reflexivity|]); reflexivity.
Qed.

(** On rates and intervals whose float product is exact the stride is
    the one the sampler is modelled with. *)
Lemma frame_skip_exact (cap_fps interval_sec : spec_float) (f i p : Q) :
  Float.truthy cap_fps = true ->
  Float.value cap_fps = Some f -> Float.value interval_sec = Some i ->
  Float.value (Float.mul cap_fps interval_sec) = Some p -> (p == f * i)%Q ->
  frame_skip cap_fps interval_sec = Ok (frame_skip_of (fps_or_default f) i).
Proof.
  intros Ht Hf Hi Hp E. unfold frame_skip, frame_skip_of. rewrite Ht.
  rewrite (to_int_value _ p Hp). do 2 f_equal. apply Qtrunc_comp. rewrite E.
  unfold fps_or_default. destruct (Qeq_bool f 0) eqn:E0; [|reflexivity].
  exfalso. apply Qeq_bool_iff in E0.
  destruct cap_fps as [s | s | | s m e]; simpl in *; try discriminate.
  injection Hf as <-. revert E0. clear.
  assert (H2 : (0 < Qpower 2 e)%Q) by (apply Qpower_0_lt; reflexivity).
  intros E0. apply Qmult_integral in E0 as [E0 | E0].
  - apply Qmult_integral in E0 as [E0 | E0].
    + destruct s; discriminate E0.
    + discriminate E0.
  - apply Qlt_not_eq in H2. apply H2. by symmetry.
Qed.

(** C2 (as amended): the stride is [max(1, int(fps * interval_sec))] with
    [fps * interval_sec] the float product, rounded to binary64, and [int]
    truncating it toward zero: for a non-negative product the stride is
    the larger of 1 and its floor, for a negative one it is 1; it never
    exceeds the product rounded to the nearest integer and falls short of
    it by at most one.  When the product is not a number or infinite,
    [int] raises and no stride is computed. *)
Theorem frame_skip_truncates (cap_fps interval_sec : spec_float) :
  let fps := if Float.truthy cap_fps then cap_fps else Float.of_Z 30 in
  match Float.value (Float.mul fps interval_sec) with
  | Some p =>
      frame_skip cap_fps interval_sec = Ok (Z.max 1 (Qtrunc p)) /\
      ((0 <= p)%Q -> frame_skip cap_fps interval_sec = Ok (Z.max 1 (Qfloor p))) /\
      ((p < 0)%Q -> frame_skip cap_fps interval_sec = Ok 1) /\
      Z.max 1 (Qtrunc p) <= Z.max 1 (Qround_nearest p) <= Z.max 1 (Qtrunc p) + 1
  | None =>
      exists e, frame_skip cap_fps interval_sec = Raise e /\
                (is_class ValueError e || is_class OverflowError e) = true
  end.
Proof.
  intros fps. unfold frame_skip. fold fps.
  destruct (Float.value (Float.mul fps interval_sec)) as [p|] eqn:Ev.
  - rewrite (to_int_value _ p Ev).
    destruct (Qtrunc_round p) as (Hpos & Hneg & Hround).
    split; [reflexivity|]. split; [|split].
    + intros H. by rewrite (Hpos H).
    + intros H. specialize (Hneg H). f_equal. lia.
    + exact Hround.
  - destruct (to_int_raises _ Ev) as (e & -> & He). by exists e.
Qed.

(** C2, as stated, fails: at 7.5 frames per second (and at NTSC's 29.97)
    with the half-second interval the code's stride is the truncated value,
    one less than the product rounded to the nearest integer. *)
Lemma frame_skip_not_rounded :
  frame_skip (Float.lit 15 2) (Float.lit 1 2) = Ok 3 /\
  option_map (fun p => Z.max 1 (Qround_nearest p))
    (Float.value (Float.mul (Float.lit 15 2) (Float.lit 1 2))) = Some 4 /\
  frame_skip (Float.lit 2997 100) (Float.lit 1 2) = Ok 14 /\
  option_map (fun p => Z.max 1 (Qround_nearest p))
    (Float.value (Float.mul (Float.lit 2997 100) (Float.lit 1 2))) = Some 15.
Proof. repeat split; vm_compute; reflexivity. Qed.

(** The product is rounded before it is truncated: [10.0 * 0.3] is the
    float 3.0 although the float [0.3] lies below three tenths, and
    [100.0 * 0.29] is below 29; a capture that reports no rate counts as
    30 frames per second. *)
Lemma frame_skip_examples :
  frame_skip (Float.lit 10 1) (Float.lit 3 10) = Ok 3 /\
  option_map (fun i => Qtrunc (10 * i)) (Float.value (Float.lit 3 10)) = Some 2 /\
  frame_skip (Float.lit 100 1) (Float.lit 29 100) = Ok 28 /\
  frame_skip (Float.of_Z 0) (Float.lit 1 2) = Ok 15 /\
  frame_skip (Float.lit 30 1) (Float.lit 1 2) = Ok (frame_skip_of 30 (1 # 2)).
Proof. repeat split; vm_compute; reflexivity. Qed.
(** ** Cue detection *)

Section CueDetection.

Implicit Types (c : ascii) (x : N) (cs : list ascii) (m pre post rest : list N)
  (prev : option N).

Lemma is_word_lower c : Text.is_word (Text.lower_char c) = Text.is_word c.
Proof. destruct c as [[] [] [] [] [] [] [] []]; reflexivity. Qed.

Lemma is_word_upper c : Text.is_word (Text.upper_char c) = Text.is_word c.
Proof. destruct c as [[] [] [] [] [] [] [] []]; reflexivity. Qed.

Lemma lower_upper c : Text.lower_char (Text.upper_char c) = Text.lower_char c.
Proof. destruct c as [[] [] [] [] [] [] [] []]; reflexivity. Qed.

Lemma lower_lower c : Text.lower_char (Text.lower_char c) = Text.lower_char c.
Proof. destruct c as [[] [] [] [] [] [] [] []]; reflexivity. Qed.

Lemma chars_of_chars (l : list ascii) : Text.chars (Text.of_chars l) = l.
Proof. apply list_ascii_of_string_of_list_ascii. Qed.

Lemma of_chars_chars (s : string) : Text.of_chars (Text.chars s) = s.
Proof. apply string_of_list_ascii_of_string. Qed.

Lemma chars_append (s1 s2 : string) :
  Text.chars (s1 +:+ s2) = Text.chars s1 ++ Text.chars s2.
Proof. induction s1 as [|a s1 IH]; simpl; [reflexivity | by rewrite <- IH]. Qed.

(** A property of bytes checked on all 256 of them. *)
Lemma all_bytes (P : ascii -> bool) :
  forallb P (map ascii_of_nat (seq 0 256)) = true -> forall c, P c = true.
Proof.
  intros H c. rewrite forallb_forall in H. apply H.
  rewrite <- (ascii_nat_embedding c). apply in_map, in_seq.
  pose proof (nat_ascii_bounded c). lia.
Qed.

(** A property of code points checked on the 128 of ASCII. *)
Lemma all_ascii (P : N -> bool) :
  forallb P (map N.of_nat (seq 0 128)) = true ->
  forall x, (x < 128)%N -> P x = true.
Proof.
  intros H x Hx. rewrite forallb_forall in H. apply H.
  rewrite <- (N2Nat.id x). apply in_map, in_seq. lia.
Qed.

Lemma prev_after_cons prev x m : prev_after prev (x :: m) = prev_after (Some x) m.
Proof.
  unfold prev_after. destruct m as [|y m]; [reflexivity|].
  change (last (x :: y :: m)) with (last (y :: m)).
  destruct (last (y :: m)) eqn:E; [reflexivity|].
  apply last_None in E. discriminate.
Qed.

(** Reading the literals [cs]: the text starts with a case-variant of [cs]
    and the rest of the pattern matches after it. *)
Lemma match_here_lits cs (pat : list Re.item) prev rest :
  Re.match_here true (map Re.Lit cs ++ pat) prev rest = true <->
  exists m rest', rest = m ++ rest' /\ same_fold m cs /\
                  Re.match_here true pat (prev_after prev m) rest' = true.
Proof.
  revert prev rest. induction cs as [|c cs IH]; intros prev rest; simpl.
  - split.
    + intros H. exists [], rest. repeat split; [constructor | assumption].
    + intros (m & rest' & -> & Hm & H). inversion Hm; subst. exact H.
  - destruct rest as [|x rest].
    + split; [discriminate|].
      intros (m & rest' & E & Hm & _). inversion Hm; subst; discriminate.
    + rewrite andb_true_iff, IH. split.
      * intros [Hc (m & rest' & -> & Hm & H)].
        exists (x :: m), rest'. rewrite prev_after_cons.
        repeat split; [|exact H]. by constructor.
      * intros (m & rest' & E & Hm & H). inversion Hm as [|y c' m' cs' Hc Hm']; subst.
        injection E as -> ->. rewrite prev_after_cons in H. split; [exact Hc|].
        exists m', rest'. repeat split; assumption.
Qed.

(** [search_from] finds a match iff some split of the text has one. *)
Lemma search_from_spec (pat : list Re.item) prev (text : list N) :
  Re.search_from true pat prev text = true <->
  exists pre post, text = pre ++ post /\
                   Re.match_here true pat (prev_after prev pre) post = true.
Proof.
  revert prev. induction text as [|x text IH]; intros prev; simpl.
  - rewrite orb_false_r. split.
    + intros H. exists [], []. split; [reflexivity | exact H].
    + intros (pre & post & E & H). symmetry in E. apply app_eq_nil in E as [-> ->].
      exact H.
  - rewrite orb_true_iff, IH. split.
    + intros [H | (pre & post & -> & H)].
      * exists [], (x :: text). split; [reflexivity | exact H].
      * exists (x :: pre), post. rewrite prev_after_cons. split; [reflexivity | exact H].
    + intros (pre & post & E & H). destruct pre as [|y pre].
      * left. simpl in E. subst post. exact H.
      * right. injection E as -> ->. exists pre, post.
        rewrite prev_after_cons in H. split; [reflexivity | exact H].
Qed.

(** Whatever a letter, a digit or the underscore matches is a word
    character. *)
Lemma lit_class_word c :
  Text.is_word c = true -> forallb Unicode.is_word (Re.lit_class c) = true.
Proof.
  intros Hc.
  pose proof (all_bytes (fun c => implb (Text.is_word c)
                (forallb Unicode.is_word (Re.lit_class c)))) as H.
  specialize (H ltac:(vm_compute; reflexivity) c). simpl in H.
  by rewrite Hc in H.
Qed.

Lemma same_fold_word m cs :
  same_fold m cs -> forallb Text.is_word cs = true ->
  forallb Unicode.is_word m = true.
Proof.
  induction 1 as [|x c m cs Hx Hm IH]; [reflexivity|]. simpl.
  intros Hw. apply andb_true_iff in Hw as [Hc Hw].
  rewrite (IH Hw), andb_true_r.
  pose proof (lit_class_word c Hc) as Hcl. rewrite forallb_forall in Hcl.
  apply Hcl. unfold Re.lit_eq in Hx. apply existsb_exists in Hx as (y & Hy & E).
  apply N.eqb_eq in E. by subst y.
Qed.

Lemma same_fold_length m cs : same_fold m cs -> length m = length cs.
Proof. apply Forall2_length. Qed.

Lemma forallb_word_head m rest :
  m <> [] -> forallb Unicode.is_word m = true ->
  Re.word_opt (head (m ++ rest)) = true.
Proof. destruct m as [|x m]; [done|]. simpl. intros _ H. by apply andb_true_iff in H as [? _]. Qed.

Lemma forallb_word_last prev m :
  m <> [] -> forallb Unicode.is_word m = true ->
  Re.word_opt (prev_after prev m) = true.
Proof.
  intros Hne Hw. unfold prev_after. destruct (last m) as [x|] eqn:E.
  - apply last_Some in E as [m' ->]. rewrite forallb_app in Hw.
    apply andb_true_iff in Hw as [_ Hw]. simpl in Hw. by rewrite andb_true_r in Hw.
  - apply last_None in E. contradiction.
Qed.

(** What [re.search(rf"\b{cue}\b", text, re.IGNORECASE)] decides. *)
Lemma search_whole_word (cue text : string) :
  word_cue (Text.chars cue) ->
  Re.search true (Re.whole_word cue) text = true <->
  occurs_as_word (Text.chars cue) (Unicode.code_points text).
Proof.
  intros [Hne Hw]. unfold Re.search, Re.whole_word, occurs_as_word.
  rewrite search_from_spec. simpl prev_after. split.
  - intros (pre & post0 & E & H). simpl in H.
    apply andb_true_iff in H as [Hb H].
    apply match_here_lits in H as (m & post & -> & Hm & H).
    simpl in H. rewrite andb_true_r in H.
    assert (Hmw := same_fold_word _ _ Hm Hw).
    assert (Hmne : m <> []).
    { intros ->. apply same_fold_length in Hm. destruct (Text.chars cue); done. }
    exists pre, m, post. repeat split; [exact E | exact Hm | |].
    + unfold Re.at_boundary in Hb. rewrite (forallb_word_head m post Hmne Hmw) in Hb.
      unfold prev_after in Hb. destruct (last pre); simpl in *;
        [destruct (Unicode.is_word n); done | done].
    + unfold Re.at_boundary in H. rewrite (forallb_word_last _ m Hmne Hmw) in H.
      destruct (Re.word_opt (head post)); done.
  - intros (pre & m & post & E & Hm & Hpre & Hpost).
    assert (Hmw := same_fold_word _ _ Hm Hw).
    assert (Hmne : m <> []).
    { intros ->. apply same_fold_length in Hm. destruct (Text.chars cue); done. }
    exists pre, (m ++ post). split; [exact E|]. simpl.
    apply andb_true_iff. split.
    + unfold Re.at_boundary. rewrite (forallb_word_head m post Hmne Hmw).
      unfold prev_after. destruct (last pre); simpl in *; [by rewrite Hpre | done].
    + apply match_here_lits. exists m, post. repeat split; [exact Hm|].
      simpl. rewrite andb_true_r. unfold Re.at_boundary.
      rewrite (forallb_word_last _ m Hmne Hmw), Hpost. reflexivity.
Qed.

End CueDetection.

(** ** Reading characters off the bytes of a text *)

Section Decoding.

Implicit Types (a b c : ascii) (l pending : list ascii).

Lemma ascii_not_cont a : Unicode.is_ascii a = true -> Unicode.is_cont a = false.
Proof.
  unfold Unicode.is_ascii, Unicode.is_cont. intros H. apply N.ltb_lt in H.
  apply andb_false_iff. left. apply N.leb_gt. exact H.
Qed.

Lemma cont_not_ascii a : Unicode.is_cont a = true -> Unicode.is_ascii a = false.
Proof.
  intros H. destruct (Unicode.is_ascii a) eqn:E; [|reflexivity].
  apply ascii_not_cont in E. congruence.
Qed.

Lemma feed_ascii pending a :
  Unicode.is_ascii a = true ->
  Unicode.feed pending a = (map Unicode.stray pending ++ [(Unicode.byte a, [a])], []).
Proof.
  intros Ha. unfold Unicode.feed, Unicode.start.
  rewrite (ascii_not_cont a Ha), Ha. by destruct pending.
Qed.

(** An ASCII character ends whatever was being read before it. *)
Lemma units_from_sep pending l1 a l2 :
  Unicode.is_ascii a = true ->
  Unicode.units_from pending (l1 ++ a :: l2)
  = Unicode.units_from pending l1 ++ Unicode.units (a :: l2).
Proof.
  intros Ha. revert pending. induction l1 as [|b l1 IH]; intros pending; simpl.
  - unfold Unicode.units. cbn [Unicode.units_from].
    rewrite !(feed_ascii _ a Ha). simpl. by rewrite <- app_assoc.
  - destruct (Unicode.feed pending b) as [out pending']. by rewrite IH, app_assoc.
Qed.

Lemma code_points_sep (s1 s2 : string) :
  Unicode.code_points (s1 +:+ " " +:+ s2)
  = Unicode.code_points s1 ++ 32%N :: Unicode.code_points s2.
Proof.
  unfold Unicode.code_points, Unicode.units. rewrite !chars_append.
  change (Text.chars " ") with [" "%char]. simpl app.
  rewrite (units_from_sep [] _ " "%char _ eq_refl), List.map_app. f_equal.
Qed.

(** The characters of an ASCII text are its bytes. *)
Lemma units_ascii l :
  forallb Unicode.is_ascii l = true ->
  Unicode.units l = map (fun a => (Unicode.byte a, [a])) l.
Proof.
  unfold Unicode.units. induction l as [|a l IH]; [reflexivity|].
  cbn [Unicode.units_from forallb map].
  intros H. apply andb_true_iff in H as [Ha Hl].
  rewrite (feed_ascii [] a Ha). simpl. by rewrite IH.
Qed.

Lemma stray_high b : (128 <= fst (Unicode.stray b))%N.
Proof. unfold Unicode.stray. simpl. lia. Qed.

Lemma strays_high l : Forall (fun u => (128 <= fst u)%N) (map Unicode.stray l).
Proof. induction l; simpl; constructor; [apply stray_high | assumption]. Qed.

Lemma finish_high l : Forall (fun u => (128 <= fst u)%N) (Unicode.finish l).
Proof.
  unfold Unicode.finish. destruct (Unicode.valid _ _) eqn:E.
  - constructor; [|constructor]. simpl. unfold Unicode.valid in E.
    destruct (length l) as [|[|[|[|n]]]];
      repeat match type of E with
             | (_ && _) = true => apply andb_true_iff in E as [E ?]
             end; apply N.leb_le in E; lia.
  - apply strays_high.
Qed.

(** Outside ASCII a byte completes or continues a character outside
    ASCII, or is a stray byte. *)
Lemma feed_high pending c :
  Unicode.is_ascii c = false ->
  Forall (fun b => Unicode.is_ascii b = false) pending ->
  Forall (fun u => (128 <= fst u)%N) (Unicode.feed pending c).1 /\
  Forall (fun b => Unicode.is_ascii b = false) (Unicode.feed pending c).2.
Proof.
  intros Hc Hp.
  assert (Hstart : Forall (fun u => (128 <= fst u)%N) (Unicode.start c).1 /\
                   Forall (fun b => Unicode.is_ascii b = false) (Unicode.start c).2).
  { unfold Unicode.start. rewrite Hc. destruct (_ <=? _)%nat; simpl; split;
      repeat constructor; try exact Hc. apply stray_high. }
  pose proof (strays_high pending) as Hstray.
  unfold Unicode.feed. destruct pending as [|lead pending']; [exact Hstart|].
  destruct (Unicode.is_cont c).
  - destruct (_ =? _)%nat; simpl; split; try constructor.
    + apply finish_high.
    + by inversion Hp.
    + apply Forall_app. split; [by inversion Hp | by repeat constructor].
  - destruct (Unicode.start c) as [out p'] eqn:E. split; [|apply Hstart].
    apply (proj2 (Forall_app _ _ _)). split; [exact Hstray | apply Hstart].
Qed.

Lemma recase_high f (out : list (N * list ascii)) :
  Forall (fun u => (128 <= fst u)%N) out ->
  map (recase f) (map fst out) = map fst out.
Proof.
  induction 1 as [|u out Hu _ IH]; simpl; [reflexivity|]. rewrite IH. f_equal.
  unfold recase. apply N.ltb_ge in Hu. by rewrite Hu.
Qed.

Lemma recase_byte f a : Unicode.is_ascii a = true ->
  recase f (Unicode.byte a) = Unicode.byte (f a).
Proof.
  unfold recase, Unicode.is_ascii. intros ->. unfold Unicode.byte.
  by rewrite ascii_N_embedding.
Qed.

(** Changing ASCII bytes into ASCII bytes changes those characters only. *)
Lemma units_from_map f pending l :
  (forall b, Unicode.is_ascii b = false -> f b = b) ->
  (forall b, Unicode.is_ascii b = true -> Unicode.is_ascii (f b) = true) ->
  Forall (fun b => Unicode.is_ascii b = false) pending ->
  map fst (Unicode.units_from pending (map f l))
  = map (recase f) (map fst (Unicode.units_from pending l)).
Proof.
  intros Hhigh Hlow. revert pending.
  induction l as [|c l IH]; intros pending Hp; cbn [Unicode.units_from map].
  - symmetry. apply recase_high, strays_high.
  - destruct (Unicode.is_ascii c) eqn:Hc.
    + rewrite (feed_ascii _ c Hc), (feed_ascii _ (f c) (Hlow c Hc)).
      cbv beta iota zeta. rewrite !List.map_app, (IH [] (List.Forall_nil _)). f_equal. simpl.
      rewrite (recase_byte f c Hc). f_equal.
      symmetry. apply recase_high, strays_high.
    + rewrite (Hhigh c Hc). destruct (feed_high pending c Hc Hp) as [Hout Hpend].
      destruct (Unicode.feed pending c) as [out pending']. simpl in *.
      by rewrite !List.map_app, (IH pending' Hpend), (recase_high f out Hout).
Qed.

Lemma code_points_map f (s : string) :
  (forall b, Unicode.is_ascii b = false -> f b = b) ->
  (forall b, Unicode.is_ascii b = true -> Unicode.is_ascii (f b) = true) ->
  Unicode.code_points (Text.of_chars (map f (Text.chars s)))
  = map (recase f) (Unicode.code_points s).
Proof.
  intros Hhigh Hlow. unfold Unicode.code_points, Unicode.units.
  rewrite chars_of_chars. by apply units_from_map.
Qed.

End Decoding.

Section CueDetectionResults.

Implicit Types (c : ascii) (x : N) (cs : list ascii) (l m pre post : list N)
  (prev : option N).

Lemma detect_loop_filter cues transcript found :
  detect_loop cues transcript found = found ++ List.filter (cue_found transcript) cues.
Proof.
  revert found. induction cues as [|cue cues IH]; intros found; simpl.
  - by rewrite app_nil_r.
  - rewrite IH. unfold cue_found at 2. destruct (Re.search _ _ _); [|reflexivity].
    by rewrite <- app_assoc.
Qed.

Lemma detect_filter transcript :
  detect_baby_sounds transcript = List.filter (cue_found transcript) BABY_CRY_CUES.
Proof. unfold detect_baby_sounds. by rewrite detect_loop_filter. Qed.

Lemma vocabulary_word_cues cue : In cue BABY_CRY_CUES -> word_cue (Text.chars cue).
Proof.
  simpl. intros [<- | [<- | [<- | [<- | [<- | []]]]]]; split; try discriminate; reflexivity.
Qed.

(** A change of the characters that no literal and no word boundary can
    tell changes no match. *)
Lemma match_here_case (g : N -> N) (pat : list Re.item) prev rest :
  (forall c x, Re.lit_eq true c (g x) = Re.lit_eq true c x) ->
  (forall x, Unicode.is_word (g x) = Unicode.is_word x) ->
  Re.match_here true pat (g <$> prev) (map g rest) = Re.match_here true pat prev rest.
Proof.
  intros Hl Hw. revert prev rest.
  induction pat as [|[|c] pat IH]; intros prev rest; cbn [Re.match_here].
  - reflexivity.
  - rewrite IH. f_equal. unfold Re.at_boundary. f_equal.
    + destruct prev; simpl; [apply Hw | reflexivity].
    + destruct rest; simpl; [reflexivity | apply Hw].
  - destruct rest as [|x rest]; [reflexivity|].
    cbn [map Re.match_here]. rewrite Hl. f_equal. apply (IH (Some x)).
Qed.

Lemma search_from_case (g : N -> N) (pat : list Re.item) prev (text : list N) :
  (forall c x, Re.lit_eq true c (g x) = Re.lit_eq true c x) ->
  (forall x, Unicode.is_word (g x) = Unicode.is_word x) ->
  Re.search_from true pat (g <$> prev) (map g text) = Re.search_from true pat prev text.
Proof.
  intros Hl Hw. revert prev. induction text as [|x text IH]; intros prev; simpl.
  - pose proof (match_here_case g pat prev [] Hl Hw) as E. simpl in E. by rewrite E.
  - rewrite <- (IH (Some x)). simpl.
    pose proof (match_here_case g pat prev (x :: text) Hl Hw) as E. simpl in E.
    by rewrite E.
Qed.

(** The case of an ASCII letter is seen by no literal under
    [re.IGNORECASE] and by no word boundary. *)
Lemma recase_lit (f : ascii -> ascii) c x :
  (forall b, Text.lower_char (f b) = Text.lower_char b) ->
  Re.lit_eq true c (recase f x) = Re.lit_eq true c x.
Proof.
  intros Hf. unfold recase. destruct (x <? 128)%N eqn:Hx; [|reflexivity].
  apply N.ltb_lt in Hx.
  assert (Hlow : forall b,
    Re.lit_eq true c (Unicode.byte (Text.lower_char b)) = Re.lit_eq true c (Unicode.byte b)).
  { intros b.
    pose proof (all_bytes (fun b => forallb (fun c =>
      Bool.eqb (Re.lit_eq true c (Unicode.byte (Text.lower_char b)))
               (Re.lit_eq true c (Unicode.byte b)))
      (map ascii_of_nat (seq 0 256))) ltac:(vm_compute; reflexivity) b) as H.
    cbv beta in H. apply Bool.eqb_prop. exact (all_bytes _ H c). }
  rewrite <- Hlow, Hf, Hlow. unfold Unicode.byte. by rewrite N_ascii_embedding by lia.
Qed.

Lemma recase_word (f : ascii -> ascii) x :
  (forall b, Text.lower_char (f b) = Text.lower_char b) ->
  Unicode.is_word (recase f x) = Unicode.is_word x.
Proof.
  intros Hf. unfold recase. destruct (x <? 128)%N eqn:Hx; [|reflexivity].
  apply N.ltb_lt in Hx.
  assert (Hlow : forall b,
    Unicode.is_word (Unicode.byte (Text.lower_char b)) = Unicode.is_word (Unicode.byte b)).
  { intros b. apply Bool.eqb_prop.
    apply (all_bytes (fun b => Bool.eqb
      (Unicode.is_word (Unicode.byte (Text.lower_char b)))
      (Unicode.is_word (Unicode.byte b)))). vm_compute. reflexivity. }
  rewrite <- Hlow, Hf, Hlow. unfold Unicode.byte. by rewrite N_ascii_embedding by lia.
Qed.

Lemma case_keeps_high (f : ascii -> ascii) :
  f = Text.upper_char \/ f = Text.lower_char ->
  (forall b, Unicode.is_ascii b = false -> f b = b) /\
  (forall b, Unicode.is_ascii b = true -> Unicode.is_ascii (f b) = true).
Proof.
  intros [-> | ->]; split; intros b Hb.
  - pose proof (all_bytes (fun b => Unicode.is_ascii b || Ascii.eqb (Text.upper_char b) b)
                  ltac:(vm_compute; reflexivity) b) as H.
    simpl in H. rewrite Hb in H. by apply Ascii.eqb_eq.
  - pose proof (all_bytes (fun b => implb (Unicode.is_ascii b)
                                          (Unicode.is_ascii (Text.upper_char b)))
                  ltac:(vm_compute; reflexivity) b) as H.
    simpl in H. by rewrite Hb in H.
  - pose proof (all_bytes (fun b => Unicode.is_ascii b || Ascii.eqb (Text.lower_char b) b)
                  ltac:(vm_compute; reflexivity) b) as H.
    simpl in H. rewrite Hb in H. by apply Ascii.eqb_eq.
  - pose proof (all_bytes (fun b => implb (Unicode.is_ascii b)
                                          (Unicode.is_ascii (Text.lower_char b)))
                  ltac:(vm_compute; reflexivity) b) as H.
    simpl in H. by rewrite Hb in H.
Qed.

Lemma cue_found_case (f : ascii -> ascii) transcript cue :
  f = Text.upper_char \/ f = Text.lower_char ->
  cue_found (Text.of_chars (map f (Text.chars transcript))) cue
  = cue_found transcript cue.
Proof.
  intros Hf. destruct (case_keeps_high f Hf) as [Hhigh Hlow].
  assert (Hfold : forall b, Text.lower_char (f b) = Text.lower_char b).
  { intros b. destruct Hf as [-> | ->]; [apply lower_upper | apply lower_lower]. }
  unfold cue_found, Re.search. rewrite (code_points_map f _ Hhigh Hlow).
  apply (search_from_case (recase f) _ None).
  - intros c x. by apply recase_lit.
  - intros x. by apply recase_word.
Qed.

Lemma cue_found_upper transcript cue :
  cue_found (Text.upper transcript) cue = cue_found transcript cue.
Proof. apply cue_found_case. by left. Qed.

Lemma cue_found_lower transcript cue :
  cue_found (Text.lower transcript) cue = cue_found transcript cue.
Proof. apply cue_found_case. by right. Qed.

(** Where a word can sit in two texts joined by a non-word character. *)
Lemma split_at_separator_prefix l1 l2 x m post :
  l1 ++ x :: l2 = m ++ post -> ~ In x m ->
  exists post1, l1 = m ++ post1 /\ post = post1 ++ x :: l2.
Proof.
  revert l1. induction m as [|y m IH]; intros l1 E Hx.
  - exists l1. split; [reflexivity | by rewrite E].
  - destruct l1 as [|a l1]; simpl in E; injection E as -> E.
    + exfalso. apply Hx. by left.
    + destruct (IH l1 E) as (post1 & -> & ->).
      * intros H. apply Hx. by right.
      * by exists post1.
Qed.

Lemma split_at_separator l1 l2 x pre m post :
  l1 ++ x :: l2 = pre ++ m ++ post -> ~ In x m ->
  (exists post1, l1 = pre ++ m ++ post1 /\ post = post1 ++ x :: l2) \/
  (exists pre2, pre = l1 ++ x :: pre2 /\ l2 = pre2 ++ m ++ post).
Proof.
  revert l1. induction pre as [|p pre IH]; intros l1 E Hx.
  - left. simpl in *. by apply split_at_separator_prefix.
  - destruct l1 as [|a l1]; simpl in E; injection E as -> E.
    + right. by exists pre.
    + destruct (IH l1 E Hx) as [(post1 & -> & ->) | (pre2 & -> & ->)].
      * left. by exists post1.
      * right. by exists pre2.
Qed.

Lemma word_opt_head_app post rest x :
  Re.word_opt (head post) = false -> Unicode.is_word x = false ->
  Re.word_opt (head (post ++ x :: rest)) = false.
Proof. destruct post; simpl; auto. Qed.

Lemma last_app_cons_sep l x pre2 :
  last (l ++ x :: pre2) = match last pre2 with Some y => Some y | None => Some x end.
Proof.
  rewrite last_app. 
  destruct pre2 as [|y pre2]; [reflexivity|].
  change (last (x :: y :: pre2)) with (last (y :: pre2)).
  destruct (last (y :: pre2)) eqn:E; [reflexivity|]. apply last_None in E. discriminate.
Qed.

Lemma occurs_twice cs l x :
  forallb Text.is_word cs = true -> Unicode.is_word x = false ->
  occurs_as_word cs (l ++ x :: l) <-> occurs_as_word cs l.
Proof.
  intros Hw Hx. split.
  - intros (pre & m & post & E & Hm & Hpre & Hpost).
    assert (Hmw := same_fold_word _ _ Hm Hw).
    assert (Hnot : ~ In x m).
    { intros Hin. rewrite forallb_forall in Hmw. specialize (Hmw x Hin). congruence. }
    destruct (split_at_separator _ _ _ _ _ _ E Hnot)
      as [(post1 & -> & ->) | (pre2 & -> & E2)].
    + exists pre, m, post1. repeat split; try assumption.
      destruct post1; [reflexivity | exact Hpost].
    + exists pre2, m, post. repeat split; try assumption.
      rewrite last_app_cons_sep in Hpre. destruct (last pre2); [exact Hpre | reflexivity].
  - intros (pre & m & post & -> & Hm & Hpre & Hpost).
    exists pre, m, (post ++ x :: pre ++ m ++ post). repeat split; try assumption.
    + by rewrite <- !app_assoc.
    + by apply word_opt_head_app.
Qed.

Lemma cue_found_twice transcript cue :
  In cue BABY_CRY_CUES ->
  cue_found (transcript +:+ " " +:+ transcript) cue = cue_found transcript cue.
Proof.
  intros Hin. pose proof (vocabulary_word_cues cue Hin) as Hc.
  apply eq_true_iff_eq. unfold cue_found.
  rewrite !(search_whole_word _ _ Hc), code_points_sep.
  apply (occurs_twice _ _ 32%N); [apply Hc | reflexivity].
Qed.

(** Scanning the cues found finds the same cues again. *)
Lemma detect_of_selection (b1 b2 b3 b4 b5 : bool) :
  let pick := fun (b : bool) (cue : string) => if b then [cue] else [] in
  let sel := pick b1 "NEH" ++ pick b2 "OWH" ++ pick b3 "HEH" ++
             pick b4 "EAIR" ++ pick b5 "EH" in
  detect_baby_sounds (Text.join ", " sel) = sel.
Proof. destruct b1, b2, b3, b4, b5; vm_compute; reflexivity. Qed.

Lemma detect_idempotent transcript :
  detect_baby_sounds (Text.join ", " (detect_baby_sounds transcript))
  = detect_baby_sounds transcript.
Proof.
  rewrite (detect_filter transcript). unfold BABY_CRY_CUES. simpl List.filter.
  pose proof (detect_of_selection (cue_found transcript "NEH")
    (cue_found transcript "OWH") (cue_found transcript "HEH")
    (cue_found transcript "EAIR") (cue_found transcript "EH")) as H.
  cbv zeta in H.
  destruct (cue_found transcript "NEH"), (cue_found transcript "OWH"),
    (cue_found transcript "HEH"), (cue_found transcript "EAIR"),
    (cue_found transcript "EH"); exact H.
Qed.

(** C6: for every transcript, read as Unicode text the way [re] reads a
    [str], cue detection reports each vocabulary token at most once and
    reports a token exactly when it occurs somewhere in the transcript as
    a case-insensitive whole word: a run of characters that the letters
    of the token match under [re.IGNORECASE], with no word character of
    [\w] next to it on either side.  The result is unchanged by putting
    the ASCII letters of the transcript in upper or in lower case and by
    repeating the transcript; detection finds the same cues when run on
    its own output; and "neh neh HEH" yields NEH and HEH, once each. *)
Theorem detect_baby_sounds_spec (transcript : string) :
  List.NoDup (detect_baby_sounds transcript) /\
  (forall cue, In cue (detect_baby_sounds transcript) <->
     In cue BABY_CRY_CUES /\
     occurs_as_word (Text.chars cue) (Unicode.code_points transcript)) /\
  detect_baby_sounds (Text.upper transcript) = detect_baby_sounds transcript /\
  detect_baby_sounds (Text.lower transcript) = detect_baby_sounds transcript /\
  detect_baby_sounds (transcript +:+ " " +:+ transcript)
    = detect_baby_sounds transcript /\
  detect_baby_sounds (Text.join ", " (detect_baby_sounds transcript))
    = detect_baby_sounds transcript /\
  detect_baby_sounds "neh neh HEH" = ["NEH"; "HEH"].
Proof.
  repeat match goal with |- _ /\ _ => split end.
  - rewrite detect_filter. apply List.NoDup_filter.
    repeat constructor; simpl; intuition discriminate.
  - intros cue. rewrite detect_filter, filter_In. split.
    + intros [Hin Hf]. split; [exact Hin|].
      by apply (search_whole_word cue transcript (vocabulary_word_cues cue Hin)).
    + intros [Hin Ho]. split; [exact Hin|].
      by apply (search_whole_word cue transcript (vocabulary_word_cues cue Hin)).
  - rewrite !detect_filter. apply filter_ext. intros cue. apply cue_found_upper.
  - rewrite !detect_filter. apply filter_ext. intros cue. apply cue_found_lower.
  - rewrite !detect_filter. apply filter_ext_in. intros cue. apply cue_found_twice.
  - apply detect_idempotent.
  - vm_compute. reflexivity.
Qed.

End CueDetectionResults.

(** ** Classification of the source *)

Section Classification.

Variable env : Env.

Lemma is_url_true source :
  is_url env source = true <-> has_http_scheme env source.
Proof.
  unfold is_url, has_http_scheme. destruct (urlparse env source) as [parsed|].
  - rewrite orb_true_iff, !String.eqb_eq. split.
    + intros H. by exists parsed.
    + intros (p & [= <-] & H). exact H.
  - split; [discriminate | intros (p & [=] & _)].
Qed.

Lemma is_youtube_url_true source :
  is_youtube_url env source = Ok true <-> platform_host env source.
Proof.
  unfold is_youtube_url, platform_host. destruct (urlparse env source) as [parsed|].
  - split.
    + intros [= H]. apply orb_true_iff in H. by exists parsed.
    + intros (p & [= <-] & H). f_equal. by apply orb_true_iff.
  - split; [discriminate | intros (p & [=] & _)].
Qed.

(** A string that parses as a URL never makes the host test raise. *)
Lemma is_youtube_url_total source :
  is_url env source = true -> exists b, is_youtube_url env source = Ok b.
Proof.
  unfold is_url, is_youtube_url. destruct (urlparse env source); [eauto | discriminate].
Qed.

(** C5: a string with no http/https scheme is classified Local; one with
    such a scheme and a host matching a platform pattern PlatformHosted;
    every other string with such a scheme RemoteFile; and acquisition acts
    on the class: a local path is returned as it is, with no temporary
    directory and no effect, a platform URL goes to the YouTube downloader,
    any other URL to the generic one. *)
Theorem classify_spec (source : string) :
  (classify env source = Local source <-> ~ has_http_scheme env source) /\
  (classify env source = PlatformHosted source <->
     has_http_scheme env source /\ platform_host env source) /\
  (classify env source = RemoteFile source <->
     has_http_scheme env source /\ ~ platform_host env source) /\
  (forall cookie_file cookies w,
     prepare_video_input env source cookie_file cookies w =
     match classify env source with
     | Local path => (Ok (path, None), w)
     | PlatformHosted url =>
         (print ("Downloading YouTube video from " +:+ url +:+ "…") ;;;
          r <- download_youtube_video env url cookie_file cookies ;;
          ret (r.1, Some r.2)) w
     | RemoteFile url =>
         (print ("Downloading remote video from " +:+ url +:+ "…") ;;;
          r <- download_generic_video env url ;;
          ret (r.1, Some r.2)) w
     end).
Proof.
  rewrite <- is_url_true, <- is_youtube_url_true.
  unfold classify, prepare_video_input.
  destruct (is_url env source) eqn:Hu; simpl.
  - destruct (is_youtube_url_total source Hu) as [b ->].
    destruct b; (split; [|split; [|split]]).
    + split; [discriminate | intros H; exfalso; by apply H].
    + split; [by intros _ | reflexivity].
    + split; [discriminate | intros [_ H]; exfalso; by apply H].
    + reflexivity.
    + split; [discriminate | intros H; exfalso; by apply H].
    + split; [discriminate | intros [_ H]; discriminate].
    + split; [intros _; split; [reflexivity | discriminate] | reflexivity].
    + reflexivity.
  - split; [|split; [|split]].
    + split; [intros _; discriminate | reflexivity].
    + split; [discriminate | intros [H _]; discriminate].
    + split; [discriminate | intros [H _]; discriminate].
    + reflexivity.
Qed.

End Classification.

Example classify_examples :
  let env := Concrete.scenario_env Concrete.all_fine in
  classify env "../data/crying_baby/yongzi.mp4" = Local "../data/crying_baby/yongzi.mp4" /\
  classify env "ftp://example.com/clip.mp4" = Local "ftp://example.com/clip.mp4" /\
  classify env "https://www.youtube.com/watch?v=abc"
    = PlatformHosted "https://www.youtube.com/watch?v=abc" /\
  classify env "HTTP://YouTu.Be/abc" = PlatformHosted "HTTP://YouTu.Be/abc" /\
  classify env "https://example.com/clips/baby.mp4"
    = RemoteFile "https://example.com/clips/baby.mp4" /\
  classify env "https://example.com/youtube.com/baby.mp4"
    = RemoteFile "https://example.com/youtube.com/baby.mp4".
Proof. repeat split; vm_compute; reflexivity. Qed.

(** ** Running the monad symbolically *)

Ltac unfold_m :=
  unfold bind, ret, throw, try_except, try_finally, print, emit, modify,
    lift_sum, lift_res, get_world in *.

(** ** The analysis request *)

Lemma new_events_app w w' evs :
  events w' = events w ++ evs -> new_events w w' = evs.
Proof. intros E. unfold new_events. rewrite E. by rewrite drop_app_length. Qed.

Lemma images_of_images (kind : string) (frames : list string) :
  images_of (map (fun b64 => ImagePart kind (data_url b64)) frames) = map data_url frames.
Proof.
  unfold images_of. induction frames as [|f frames IH]; [reflexivity|].
  simpl. f_equal. exact IH.
Qed.

Lemma images_of_content (kind : string) (texts : list Part) (frames : list string) :
  images_of texts = [] ->
  images_of (texts ++ map (fun b64 => ImagePart kind (data_url b64)) frames)
  = map data_url frames.
Proof.
  intros Ht. unfold images_of in *. rewrite omap_app, Ht. simpl.
  apply images_of_images.
Qed.

Lemma responses_images prompt transcript frames cues :
  images_of (responses_content prompt transcript frames cues)
  = map data_url (take MAX_FRAMES frames).
Proof. unfold responses_content. by apply (images_of_content "input_image"). Qed.

Lemma chat_images prompt transcript frames cues :
  images_of (chat_content prompt transcript frames cues)
  = map data_url (take MAX_FRAMES frames).
Proof. unfold chat_content. by apply (images_of_content "image_url"). Qed.

(** The requests [analyze_frames_with_responses] sends: at most one of each
    shape, built from the two payloads. *)
Lemma analyze_events env prompt transcript frames cues w :
  exists evs,
    events (analyze_frames_with_responses env prompt transcript frames cues w).2
      = events w ++ evs /\
    fs (analyze_frames_with_responses env prompt transcript frames cues w).2 = fs w /\
    Forall (fun ev => ev = EvResponses (responses_content prompt transcript frames cues)
                      \/ ev = EvChat (chat_content prompt transcript frames cues)) evs.
Proof.
  unfold analyze_frames_with_responses.
  repeat (unfold_m; simpl; try case_match; simplify_eq/=);
    rewrite <- ?app_assoc;
    first [ exists []; rewrite app_nil_r; split; [reflexivity|]; split; [reflexivity|];
            constructor
          | eexists; split; [reflexivity|]; split; [reflexivity|];
            repeat constructor; tauto ].
Qed.

(** C7: the request builder keeps exactly the first min(length, 12)
    frames, in the order given: a prefix of its input.  Both payloads, and
    every request the builder sends, carry exactly these frames; frames
    given in ascending index order stay in that order and all come before
    the ones left out; of 40 frames the first 12 are sent. *)
Theorem request_keeps_first_frames
        (prompt transcript : string) (frames cues : list string) :
  MAX_FRAMES = 12%nat /\
  images_of (responses_content prompt transcript frames cues)
    = map data_url (take MAX_FRAMES frames) /\
  images_of (chat_content prompt transcript frames cues)
    = map data_url (take MAX_FRAMES frames) /\
  length (take MAX_FRAMES frames) = Nat.min (length frames) 12 /\
  take MAX_FRAMES frames ++ drop MAX_FRAMES frames = frames /\
  (forall i : nat, (i < 12)%nat -> take MAX_FRAMES frames !! i = frames !! i) /\
  (length frames = 40%nat ->
   length (images_of (responses_content prompt transcript frames cues)) = 12%nat) /\
  (forall index : string -> Z,
     StronglySorted (fun a b => index a < index b) frames ->
     StronglySorted (fun a b => index a < index b) (take MAX_FRAMES frames) /\
     forall a b, a ∈ take MAX_FRAMES frames -> b ∈ drop MAX_FRAMES frames ->
                 index a < index b) /\
  (forall env w ev imgs,
     ev ∈ new_events w
            (analyze_frames_with_responses env prompt transcript frames cues w).2 ->
     request_images ev = Some imgs ->
     imgs = map data_url (take MAX_FRAMES frames)).
Proof.
  split; [reflexivity|].
  split; [apply responses_images|].
  split; [apply chat_images|].
  split; [rewrite length_take; unfold MAX_FRAMES; lia|].
  split; [apply take_drop|].
  split; [intros i Hi; apply lookup_take_lt; unfold MAX_FRAMES; lia|].
  split.
  { intros Hlen. rewrite responses_images, length_map, length_take.
    unfold MAX_FRAMES. lia. }
  split.
  { intros index Hs. rewrite <- (take_drop MAX_FRAMES frames) in Hs. split.
    - by apply StronglySorted_app_1_l in Hs.
    - intros a b Ha Hb. by apply (StronglySorted_app_1_elem_of _ _ _ a b Hs). }
  intros env w ev imgs Hev Himgs.
  destruct (analyze_events env prompt transcript frames cues w) as (evs & E & _ & Hall).
  rewrite (new_events_app _ _ _ E) in Hev.
  rewrite Forall_forall in Hall. destruct (Hall ev Hev) as [-> | ->];
    unfold request_images in Himgs; injection Himgs as <-.
  - exact (responses_images prompt transcript frames cues).
  - exact (chat_images prompt transcript frames cues).
Qed.

Example forty_frames_keep_twelve :
  let frames := map (fun i => format_07d (Z.of_nat i)) (seq 0 40) in
  images_of (responses_content "p" "t" frames [])
  = map (fun i => data_url (format_07d (Z.of_nat i))) (seq 0 12).
Proof. vm_compute. reflexivity. Qed.

(** ** Transcription *)

(** The three ways a transcription with a readable audio file can go. *)
Lemma transcribe_audio_cases (env : Env) (audio_path audio : string) (w : World) :
  fs w !! audio_path = Some (File audio) ->
  let r := (transcribe_audio env audio_path w).1 in
  let w' := (transcribe_audio env audio_path w).2 in
  fs w' = fs w /\
  match asr env "gpt-4o-transcribe" audio TRANSCRIPTION_PROMPT,
        asr env "whisper-1" audio TRANSCRIPTION_PROMPT with
  | inr text, _ =>
      r = Ok text /\
      new_events w w' = [EvTranscribe "gpt-4o-transcribe" (Some text)]
  | inl _, inr text =>
      r = Ok text /\
      new_events w w' = [EvTranscribe "gpt-4o-transcribe" None;
                         EvTranscribe "whisper-1" (Some text)]
  | inl _, inl e =>
      r = Raise e /\
      new_events w w' = [EvTranscribe "gpt-4o-transcribe" None;
                         EvTranscribe "whisper-1" None]
  end.
Proof.
  intros Hf. unfold transcribe_audio, read_file, transcriptions_create.
  unfold_m. simpl. rewrite Hf. simpl.
  destruct (asr env "gpt-4o-transcribe" audio TRANSCRIPTION_PROMPT) as [e1|t1]; simpl.
  - rewrite Hf. simpl.
    destruct (asr env "whisper-1" audio TRANSCRIPTION_PROMPT) as [e2|t2]; simpl;
      (split; [reflexivity|]); (split; [reflexivity|]);
      apply new_events_app; simpl; by rewrite <- app_assoc.
  - split; [reflexivity|]. split; [reflexivity|]. by apply new_events_app.
Qed.

(** Without a readable audio file no call is made at all. *)
Lemma transcribe_audio_unreadable (env : Env) (audio_path : string) (w : World) :
  isfile (fs w) audio_path = false ->
  new_events w (transcribe_audio env audio_path w).2 = [] /\
  fs (transcribe_audio env audio_path w).2 = fs w /\
  exists e, (transcribe_audio env audio_path w).1 = Raise e.
Proof.
  intros Hf. unfold transcribe_audio, read_file, isfile in *. unfold_m. simpl.
  destruct (fs w !! audio_path) as [[|d]|] eqn:E; try done; simpl; rewrite E; simpl;
    (split; [|split; [reflexivity | by eexists]]); apply new_events_app;
    by rewrite app_nil_r.
Qed.

(** C4: with the audio file readable, the primary model is called first;
    if it answers, its text is returned after that single call; if it
    fails, the fallback model is called once and its text is returned as it
    is; if the fallback fails too, its error is raised: never a third call.
    The filesystem is left alone. *)
Theorem transcribe_audio_fallback (env : Env) (audio_path audio : string) (w : World) :
  fs w !! audio_path = Some (File audio) ->
  let r := (transcribe_audio env audio_path w).1 in
  let w' := (transcribe_audio env audio_path w).2 in
  fs w' = fs w /\
  match asr env "gpt-4o-transcribe" audio TRANSCRIPTION_PROMPT,
        asr env "whisper-1" audio TRANSCRIPTION_PROMPT with
  | inr text, _ =>
      r = Ok text /\
      new_events w w' = [EvTranscribe "gpt-4o-transcribe" (Some text)]
  | inl _, inr text =>
      r = Ok text /\
      new_events w w' = [EvTranscribe "gpt-4o-transcribe" None;
                         EvTranscribe "whisper-1" (Some text)]
  | inl _, inl e =>
      r = Raise e /\
      new_events w w' = [EvTranscribe "gpt-4o-transcribe" None;
                         EvTranscribe "whisper-1" None]
  end.
Proof. exact (transcribe_audio_cases env audio_path audio w). Qed.

(** C4's theorem applies: the primary model fails, the fallback answers. *)
Lemma transcribe_audio_fallback_witness :
  let env := Concrete.scenario_env
    {| Concrete.download_ok := true; Concrete.decode_ok := true;
       Concrete.audio_present := true; Concrete.primary_ok := false;
       Concrete.fallback_ok := true; Concrete.inference_ok := true;
       Concrete.deletions_ok := true |} in
  let w := {| fs := {[ OUTPUT_AUDIO_PATH := File "WAV" ]}; out := []; events := [] |} in
  (transcribe_audio env OUTPUT_AUDIO_PATH w).1 = Ok "the baby says eh" /\
  new_events w (transcribe_audio env OUTPUT_AUDIO_PATH w).2
  = [EvTranscribe "gpt-4o-transcribe" None;
     EvTranscribe "whisper-1" (Some "the baby says eh")].
Proof.
  intros env w.
  exact (proj2 (transcribe_audio_fallback env OUTPUT_AUDIO_PATH "WAV" w eq_refl)).
Defined.

(** C9: for a video that carries no audio track the extractor returns the
    fixed sentinel text with no cues, raises nothing, calls the
    transcription service zero times and leaves the filesystem alone. *)
Theorem no_audio_no_transcription (env : Env) (video_path data : string)
        (clip : Clip) (w : World) :
  fs w !! locate env video_path = Some (File data) ->
  clip_decode env data = inr clip ->
  clip_audio clip = None ->
  let r := (extract_audio_and_transcribe env video_path w).1 in
  let w' := (extract_audio_and_transcribe env video_path w).2 in
  r = Ok ("There is no audio for this video.", []) /\
  new_events w w' = [] /\
  List.filter is_transcription_call (events w')
    = List.filter is_transcription_call (events w) /\
  fs w' = fs w.
Proof.
  intros Hf Hd Ha. unfold extract_audio_and_transcribe, open_clip.
  unfold_m. simpl. rewrite Hf, Hd. simpl. rewrite Ha. simpl.
  repeat split. apply new_events_app. by rewrite app_nil_r.
Qed.

(** C9's theorem applies: a readable video without an audio track. *)
Lemma no_audio_no_transcription_witness :
  let env := Concrete.scenario_env
    {| Concrete.download_ok := true; Concrete.decode_ok := true;
       Concrete.audio_present := false; Concrete.primary_ok := true;
       Concrete.fallback_ok := true; Concrete.inference_ok := true;
       Concrete.deletions_ok := true |} in
  let w := Concrete.world_with_video "silent.mp4" in
  (extract_audio_and_transcribe env "silent.mp4" w).1
    = Ok ("There is no audio for this video.", []) /\
  new_events w (extract_audio_and_transcribe env "silent.mp4" w).2 = [].
Proof.
  intros env w.
  pose proof (no_audio_no_transcription env "silent.mp4" "VIDEO"
                {| clip_audio := None |} w eq_refl eq_refl eq_refl) as H.
  exact (conj (proj1 H) (proj1 (proj2 H))).
Defined.

(** ** Frame sampling *)

Section Sampling.

Lemma persist_frames_app l1 l2 w :
  persist_frames (l1 ++ l2) w = persist_frames l2 (persist_frames l1 w).
Proof. unfold persist_frames. apply foldl_app. Qed.




(** The loop always ends normally, and its whole effect is to persist its
    schedule. *)
Lemma sample_loop_schedule fps frame_skip safe_end start remaining frame_idx w :
  sample_loop fps frame_skip safe_end start remaining frame_idx w
  = (Ok tt, persist_frames
              (schedule fps frame_skip safe_end start remaining frame_idx) w).
Proof.
  revert frame_idx w. induction remaining as [|frame rest IH]; intros frame_idx w.
  - simpl. by case_match.
  - simpl. case_match; [reflexivity|].
    unfold_m. unfold cv2_imwrite.
    destruct (frame_idx mod frame_skip =? 0); simpl; [|by rewrite IH].
    unfold persist_frames. simpl. unfold persist_frame at 2. simpl.
    destruct (isdir (fs w) (frame_path (start + frame_idx))); simpl; by rewrite IH.
Qed.

(** The schedule does not look at the frames. *)
Lemma schedule_map {A B : Type} (g : A -> B) fps frame_skip safe_end start
      (remaining : list A) frame_idx :
  schedule fps frame_skip safe_end start (map g remaining) frame_idx
  = map (fun s : Z * A => (s.1, g s.2))
        (schedule fps frame_skip safe_end start remaining frame_idx).
Proof.
  revert frame_idx. induction remaining as [|frame rest IH]; intros frame_idx; simpl.
  - by case_match.
  - case_match; [reflexivity|]. rewrite map_app, IH.
    by destruct (frame_idx mod frame_skip =? 0).
Qed.

Lemma list_as_lookups (l : list string) :
  l = map (fun k => nth k l "") (seq 0 (length l)).
Proof.
  induction l as [|a l IH]; [reflexivity|].
  simpl. f_equal. rewrite <- seq_shift, map_map. simpl. exact IH.
Qed.

End Sampling.

Section SamplingResults.

Variable env : Env.

Lemma nth_drop_string (n k : nat) (l : list string) :
  nth k (drop n l) "" = nth (n + k) l "".
Proof.
  revert l. induction n as [|n IH]; intros l; [by rewrite drop_0|].
  destruct l as [|a l]; simpl; [by destruct k | apply IH].
Qed.

(** C3: on a 10-second video at 30 frames per second (300 frames, a seek
    to 2000 ms landing on frame 60), sampling the window from 2 s to 5 s
    every half second persists exactly six frames: native frames 60, 75,
    90, 105, 120 and 135, one stride of 15 frames apart, at 2.0 s to 4.5 s;
    frame 150, at 5 s, is not persisted. *)
Theorem sample_window_six_frames (video_path data : string) (cap : CvVideo)
        (w w1 : World) :
  ensure_clean_dir env FRAME_FOLDER w = (Ok tt, w1) ->
  fs w1 !! locate env video_path = Some (File data) ->
  cv_decode env data = Some cap ->
  cv_fps cap = 30%Q ->
  length (cv_frames cap) = 300%nat ->
  cv_seek cap 2000%Q = 60%nat ->
  let persisted :=
    map (fun i : nat => (Z.of_nat i, nth i (cv_frames cap) ""))
        [60; 75; 90; 105; 120; 135]%nat in
  extract_frames env video_path (1 # 2) 2 (Some 5%Q) w
  = (Ok tt, persist_frames persisted w1) /\
  length persisted = 6%nat /\
  frame_skip_of 30 (1 # 2) = 15 /\
  Forall (fun s : Z * string => (2 <= inject_Z s.1 / 30)%Q /\ (inject_Z s.1 / 30 < 5)%Q)
         persisted /\
  (inject_Z 150 / 30 == 5)%Q.
Proof.
  intros Hclean Hfile Hdec Hfps Hlen Hseek persisted.
  split; [|split; [reflexivity|split; [reflexivity|split]]].
  - unfold extract_frames, open_capture. unfold_m. rewrite Hclean.
    change (normalize_end (safe_start_of 2) (Some 5%Q)) with (Some 5%Q, false).
    cbv iota beta. rewrite Hfile, Hdec. cbv iota beta. rewrite Hfps.
    change (fps_or_default 30) with 30%Q.
    change (Qeq_bool (safe_start_of 2) 0) with false. cbv iota.
    change (safe_start_of 2 * 1000)%Q with 2000%Q. rewrite Hseek.
    change (0 <? Z.of_nat 60) with true. cbv iota.
    rewrite sample_loop_schedule. f_equal. f_equal.
    rewrite (list_as_lookups (drop 60 (cv_frames cap))), schedule_map.
    rewrite length_drop, Hlen.
    change (frame_skip_of 30 (1 # 2)) with 15.
    match goal with
    | |- context [schedule ?a ?b ?c ?d (seq 0 ?n) 0] =>
        let v := eval vm_compute in (schedule a b c d (seq 0 n) 0) in
        change (schedule a b c d (seq 0 n) 0) with v
    end.
    unfold persisted. simpl map. by rewrite !nth_drop_string.
  - unfold persisted. simpl map.
    repeat constructor; simpl; unfold Qle, Qlt; simpl; lia.
  - reflexivity.
Qed.




End SamplingResults.

(** ** Footprints: what each stage may touch *)

Section Footprints.

Variable fp : Footprint.

Lemma within_refl w : within fp w w.
Proof.
  repeat split; try done. exists []. split; [by rewrite app_nil_r | constructor].
Qed.

Lemma within_trans w1 w2 w3 : within fp w1 w2 -> within fp w2 w3 -> within fp w1 w3.
Proof.
  intros (Hc1 & Hn1 & new1 & E1 & F1) (Hc2 & Hn2 & new2 & E2 & F2). repeat split.
  - intros p Hp Hex. rewrite <- (Hc1 p Hp Hex). apply (Hc2 p Hp).
    by rewrite (Hc1 p Hp Hex).
  - intros p Hp Hnone. apply (Hn2 p Hp). by apply Hn1.
  - exists (new1 ++ new2). split.
    + by rewrite E2, E1, <- app_assoc.
    + by apply Forall_app.
Qed.

(** A step that only prints. *)
Lemma within_add_out line w : within fp w (add_out line w).
Proof.
  repeat split; try done. exists []. split; [by rewrite app_nil_r | constructor].
Qed.

Lemma within_add_event ev w : may_emit fp ev -> within fp w (add_event ev w).
Proof.
  intros He. repeat split; try done. exists [ev]. split; [done | by repeat constructor].
Qed.

Lemma within_insert p n w :
  may_change fp p -> may_create fp p -> within fp w (set_fs (insert p n) w).
Proof.
  intros Hc Hn. repeat split; simpl.
  - intros q Hq _. apply lookup_insert_ne. by intros ->.
  - intros q Hq Hnone. rewrite lookup_insert_ne; [done | by intros ->].
  - exists []. split; [by rewrite app_nil_r | constructor].
Qed.

(** A new entry where there was none. *)
Lemma within_create p n w :
  fs w !! p = None -> may_create fp p -> within fp w (set_fs (insert p n) w).
Proof.
  intros Hp Hn. repeat split; simpl.
  - intros q _ Hq. apply lookup_insert_ne. intros ->. by rewrite Hp in Hq.
  - intros q Hq Hnone. rewrite lookup_insert_ne; [done | by intros ->].
  - exists []. split; [by rewrite app_nil_r | constructor].
Qed.

Lemma within_delete p w : may_change fp p -> within fp w (set_fs (delete p) w).
Proof.
  intros Hc. repeat split; simpl.
  - intros q Hq _. apply lookup_delete_ne. by intros ->.
  - intros q Hq Hnone. destruct (decide (p = q)) as [->|Hne].
    + apply lookup_delete_eq.
    + by rewrite lookup_delete_ne.
  - exists []. split; [by rewrite app_nil_r | constructor].
Qed.

Lemma remove_tree_outside root m q :
  Path.in_tree root q = false -> remove_tree root m !! q = m !! q.
Proof.
  intros Hq. unfold remove_tree. destruct (m !! q) as [n|] eqn:E.
  - by apply map_lookup_filter_Some.
  - apply map_lookup_filter_None. by left.
Qed.

Lemma remove_tree_inside root m q :
  Path.in_tree root q = true -> remove_tree root m !! q = None.
Proof.
  intros Hq. unfold remove_tree. apply map_lookup_filter_None. right.
  intros n _. simpl. by rewrite Hq.
Qed.

Lemma remove_tree_none root m q : m !! q = None -> remove_tree root m !! q = None.
Proof. intros E. unfold remove_tree. apply map_lookup_filter_None. by left. Qed.

Lemma within_remove_tree root w :
  (forall q, Path.in_tree root q = true -> may_change fp q) ->
  within fp w (set_fs (remove_tree root) w).
Proof.
  intros Hc. repeat split; simpl.
  - intros q Hq _. apply remove_tree_outside.
    destruct (Path.in_tree root q) eqn:E; [|done]. exfalso. by apply Hq, Hc.
  - intros q _ Hnone. by apply remove_tree_none.
  - exists []. split; [by rewrite app_nil_r | constructor].
Qed.

(** *** The monad's combinators *)

Lemma stays_ret {A} (a : A) : stays fp (ret a).
Proof. intros w. apply within_refl. Qed.

Lemma stays_throw {A} (e : exn) : stays fp (@throw A e).
Proof. intros w. apply within_refl. Qed.

Lemma stays_lift_res {A} (r : Res A) : stays fp (lift_res r).
Proof. intros w. apply within_refl. Qed.

Lemma stays_lift_sum {A} (r : exn + A) : stays fp (lift_sum r).
Proof. intros w. destruct r; apply within_refl. Qed.

Lemma stays_get_world : stays fp get_world.
Proof. intros w. apply within_refl. Qed.

Lemma stays_print line : stays fp (print line).
Proof. intros w. apply within_add_out. Qed.

Lemma stays_emit ev : may_emit fp ev -> stays fp (emit ev).
Proof. intros He w. by apply within_add_event. Qed.

(** Sequencing, when the continuation is known to stay in the footprint
    from the worlds the first part can end in. *)
Lemma stays_bind_run {A B} (m : M A) (k : A -> M B) :
  stays fp m ->
  (forall w a w1, m w = (Ok a, w1) -> within fp w1 (k a w1).2) ->
  stays fp (bind m k).
Proof.
  intros Hm Hk w. unfold bind. specialize (Hm w).
  destruct (m w) as [[a|e] w1] eqn:E; simpl in *; [|exact Hm].
  eapply within_trans; [exact Hm | by eapply Hk].
Qed.

Lemma stays_bind {A B} (m : M A) (k : A -> M B) :
  stays fp m -> (forall a, stays fp (k a)) -> stays fp (bind m k).
Proof. intros Hm Hk. apply stays_bind_run; [exact Hm | intros w a w1 _; apply Hk]. Qed.

Lemma stays_try_except {A} (body : M A) catches (handler : exn -> M A) :
  stays fp body -> (forall e, stays fp (handler e)) ->
  stays fp (try_except body catches handler).
Proof.
  intros Hb Hh w. unfold try_except. specialize (Hb w).
  destruct (body w) as [[a|e] w1]; simpl in *; [exact Hb|].
  destruct (catches e); [|exact Hb].
  eapply within_trans; [exact Hb | apply Hh].
Qed.

Lemma stays_try_finally {A} (body : M A) (fin : M unit) :
  stays fp body -> stays fp fin -> stays fp (try_finally body fin).
Proof.
  intros Hb Hf w. unfold try_finally. specialize (Hb w).
  destruct (body w) as [r w1]. specialize (Hf w1). simpl in *.
  destruct (fin w1) as [[[]|e] w2]; simpl in *; by eapply within_trans.
Qed.

Lemma stays_for_each {A} (l : list A) (body : A -> M unit) :
  Forall (fun x => stays fp (body x)) l -> stays fp (for_each l body).
Proof.
  induction 1 as [|x l Hx _ IH]; simpl; [apply stays_ret|].
  apply stays_bind; [exact Hx | intros _; exact IH].
Qed.

(** *** The calls to the operating system *)

Lemma stays_os_remove env p : may_change fp p -> stays fp (os_remove env p).
Proof.
  intros Hc w. unfold os_remove.
  destruct (rm_fails env p); [apply within_refl|].
  destruct (fs w !! p) as [[|data]|]; try apply within_refl. by apply within_delete.
Qed.

Lemma stays_rmtree env p ignore_errors :
  (forall q, Path.in_tree p q = true -> may_change fp q) ->
  stays fp (shutil_rmtree env p ignore_errors).
Proof.
  intros Hc w. unfold shutil_rmtree.
  destruct (rm_fails env p || negb (isdir (fs w) p)).
  - destruct ignore_errors; apply within_refl.
  - by apply within_remove_tree.
Qed.

Lemma stays_make_directory env p : may_create fp p -> stays fp (make_directory env p).
Proof.
  intros Hn w. unfold make_directory.
  destruct (fs w !! p) as [[|data]|] eqn:E; try apply within_refl.
  destruct (mkdir_fails env p); [apply within_refl | by apply within_create].
Qed.

(** [os.makedirs] changes nothing that is there; it creates what is
    missing of the path and of the directories above it. *)
Lemma stays_makedirs env p :
  may_create fp p -> (forall q, In q (Path.parents p) -> may_create fp q) ->
  stays fp (os_makedirs env p).
Proof.
  intros Hn Hp. unfold os_makedirs. apply stays_for_each, List.Forall_forall.
  intros q Hq. apply stays_make_directory.
  apply in_app_or in Hq as [Hq | [<- | []]]; [by apply Hp | exact Hn].
Qed.

Lemma stays_listdir p : stays fp (os_listdir p).
Proof. intros w. unfold os_listdir. destruct (isdir (fs w) p); apply within_refl. Qed.

Lemma stays_write_file p data :
  may_change fp p -> may_create fp p -> stays fp (write_file p data).
Proof.
  intros Hc Hn w. unfold write_file.
  destruct (fs w !! p) as [[|d]|]; try apply within_refl; by apply within_insert.
Qed.

Lemma stays_imwrite p image :
  may_change fp p -> may_create fp p -> stays fp (cv2_imwrite p image).
Proof.
  intros Hc Hn w. unfold cv2_imwrite.
  destruct (isdir (fs w) p); [apply within_refl | by apply within_insert].
Qed.

Lemma stays_mkdtemp env prefix :
  (forall t, may_change fp t) -> (forall t, may_create fp t) ->
  (forall t, may_emit fp (EvMkdtemp t)) ->
  stays fp (mkdtemp env prefix).
Proof.
  intros Hc Hn He w. unfold mkdtemp. simpl.
  eapply within_trans; [apply within_insert | apply within_add_event]; auto.
Qed.

Lemma stays_read_file p : stays fp (read_file p).
Proof. intros w. unfold read_file. destruct (fs w !! p) as [[|d]|]; apply within_refl. Qed.

Lemma stays_open_capture env p : stays fp (open_capture env p).
Proof.
  intros w. unfold open_capture.
  destruct (fs w !! locate env p) as [[|d]|]; apply within_refl.
Qed.

Lemma stays_open_clip env p : stays fp (open_clip env p).
Proof.
  intros w. unfold open_clip.
  destruct (fs w !! locate env p) as [[|d]|]; try apply within_refl.
  destruct (clip_decode env d); apply within_refl.
Qed.

Lemma stays_write_audiofile env p wav :
  may_change fp p -> may_create fp p -> stays fp (write_audiofile env p wav).
Proof.
  intros Hc Hn w. unfold write_audiofile.
  destruct (fs w !! p) as [[|d]|]; try apply within_refl;
    destruct (audio_write env wav) as [[data|] [e|]]; simpl;
    try apply within_refl; by apply within_insert.
Qed.

Lemma stays_transcriptions_create env model audio :
  (forall answer, may_emit fp (EvTranscribe model answer)) ->
  stays fp (transcriptions_create env model audio).
Proof.
  intros He w. unfold transcriptions_create.
  destruct (asr env model audio TRANSCRIPTION_PROMPT); simpl; by apply within_add_event.
Qed.

End Footprints.

(** ** Paths *)

Section PathFacts.

Implicit Types (p l r : list ascii).

Lemma starts_with_spec p l :
  Text.starts_with p l = true <-> exists r, l = p ++ r.
Proof.
  revert l. induction p as [|a p IH]; intros l; simpl.
  - split; [by exists l | done].
  - destruct l as [|b l].
    + split; [done | intros [r Hr]; discriminate].
    + rewrite andb_true_iff, Ascii.eqb_eq, IH. split.
      * intros [-> [r ->]]. by exists r.
      * intros [r [= -> ->]]. split; [done | by exists r].
Qed.

Lemma starts_with_app_l p1 p2 l :
  Text.starts_with (p1 ++ p2) l = true -> Text.starts_with p1 l = true.
Proof.
  rewrite !starts_with_spec. intros [r ->]. exists (p2 ++ r). by rewrite app_assoc.
Qed.

Lemma chars_inj (s1 s2 : string) : Text.chars s1 = Text.chars s2 -> s1 = s2.
Proof.
  intros E. rewrite <- (of_chars_chars s1), <- (of_chars_chars s2). by rewrite E.
Qed.

Lemma in_tree_refl root : Path.in_tree root root = true.
Proof. unfold Path.in_tree. by rewrite String.eqb_refl. Qed.

Lemma in_tree_spec root q :
  Path.in_tree root q = true <->
  q = root \/ exists r, Text.chars q = Text.chars root ++ Path.slash :: r.
Proof.
  unfold Path.in_tree. rewrite orb_true_iff, String.eqb_eq, starts_with_spec.
  split; (intros [H | [r H]]; [by left | right; exists r]).
  - by rewrite H, <- app_assoc.
  - by rewrite H, <- app_assoc.
Qed.

(** Below a path that is below [root] is below [root]. *)
Lemma in_tree_trans root a q :
  Path.in_tree root a = true -> Path.in_tree a q = true -> Path.in_tree root q = true.
Proof.
  rewrite !in_tree_spec. intros [-> | [r1 E1]] [-> | [r2 E2]].
  - by left.
  - right. by exists r2.
  - right. by exists r1.
  - right. exists (r1 ++ Path.slash :: r2). rewrite E2, E1. by rewrite <- app_assoc.
Qed.

(** An entry listed in a directory is the join of the directory and its
    name, and lies in the directory's tree. *)
Lemma child_name_join dir k name :
  Path.child_name dir k = Some name ->
  dir <> "" -> Text.ends_with "/" dir = false ->
  Path.join dir name = k /\ Path.in_tree dir k = true.
Proof.
  unfold Path.child_name. intros H Hne Hend.
  destruct (Text.starts_with _ _) eqn:Hs; [|done].
  pose proof Hs as Hs'. apply starts_with_spec in Hs' as [r Hr].
  rewrite Hr, drop_app_length in H.
  destruct r as [|c r]; [done|].
  destruct (existsb _ (c :: r)) eqn:Hex; [done|].
  assert (Hn : Text.chars name = c :: r).
  { injection H as <-. apply (chars_of_chars (c :: r)). }
  clear H. split.
  - unfold Path.join. rewrite Hn.
    change (existsb (fun c0 => Ascii.eqb c0 Path.slash) (c :: r))
      with (Ascii.eqb c Path.slash || existsb (fun c0 => Ascii.eqb c0 Path.slash) r) in Hex.
    apply orb_false_iff in Hex as [Hc _].
    change (Text.starts_with [Path.slash] (c :: r)) with (Ascii.eqb Path.slash c && true).
    rewrite Ascii.eqb_sym, Hc, Hend.
    destruct (String.eqb_spec dir ""); [done|]. cbv iota beta.
    change (false && true) with false. change (false || false) with false. cbv iota.
    apply chars_inj. rewrite !chars_append, Hn, Hr.
    by rewrite <- app_assoc.
  - unfold Path.in_tree. by rewrite Hs, orb_true_r.
Qed.

Lemma children_are_entries dir m name :
  In name (children dir m) -> exists k, Path.child_name dir k = Some name.
Proof.
  unfold children. intros H. apply list_elem_of_In in H.
  apply list_elem_of_omap in H as ([k n] & _ & H). by exists k.
Qed.

Lemma frame_folder_plain :
  FRAME_FOLDER <> "" /\ Text.ends_with "/" FRAME_FOLDER = false.
Proof. split; [discriminate | reflexivity]. Qed.

(** Every sampled frame is written inside the frame folder. *)
Lemma frame_path_in_folder i : Path.in_tree FRAME_FOLDER (frame_path i) = true.
Proof.
  apply in_tree_spec. right. exists (Text.chars ("frame_" +:+ format_07d i +:+ ".jpg")).
  unfold frame_path, Path.join.
  change (Text.starts_with [Path.slash] (Text.chars ("frame_" +:+ format_07d i +:+ ".jpg")))
    with false.
  change (String.eqb FRAME_FOLDER "" || Text.ends_with "/" FRAME_FOLDER) with false.
  cbv iota. by rewrite !chars_append.
Qed.

End PathFacts.

(** ** The footprint of each stage *)

Ltac stays_with tac :=
  repeat first
    [ progress tac
    | apply stays_ret | apply stays_throw | apply stays_print | apply stays_get_world
    | apply stays_lift_res | apply stays_lift_sum | apply stays_listdir
    | apply stays_read_file | apply stays_open_capture | apply stays_open_clip
    | apply stays_bind; [|intros ?]
    | apply stays_try_except; [|intros ?]
    | match goal with |- stays _ (match ?x with _ => _ end) => destruct x end ].

Ltac stays_auto := stays_with idtac.

Section StageFootprints.

Variable env : Env.
Variable fp : Footprint.

Lemma ensure_clean_dir_stays path :
  path <> "" -> Text.ends_with "/" path = false ->
  (forall q, Path.in_tree path q = true -> may_change fp q) ->
  may_create fp path -> (forall q, In q (Path.parents path) -> may_create fp q) ->
  stays fp (ensure_clean_dir env path).
Proof.
  intros Hne Hend Hc Hn Hp. unfold ensure_clean_dir.
  apply stays_bind; [by apply stays_makedirs|].
  intros _. apply stays_bind_run; [apply stays_listdir|].
  intros w names w1 Hl. unfold os_listdir in Hl.
  destruct (isdir (fs w) path); [|done]. injection Hl as <- <-.
  apply stays_for_each. apply Forall_forall. intros fn Hfn.
  apply list_elem_of_In, children_are_entries in Hfn as [k Hk].
  destruct (child_name_join _ _ _ Hk Hne Hend) as [-> Hin].
  stays_auto.
  - apply stays_os_remove. by apply Hc.
  - apply stays_rmtree. intros q Hq. apply Hc. by eapply in_tree_trans.
Qed.

Lemma persist_frames_within l w :
  (forall i, may_change fp (frame_path i)) -> (forall i, may_create fp (frame_path i)) ->
  within fp w (persist_frames l w).
Proof.
  intros Hc Hn. revert w. induction l as [|s l IH]; intros w; [apply within_refl|].
  simpl. eapply within_trans; [|apply IH]. unfold persist_frame.
  eapply within_trans; [|apply within_add_out].
  destruct (isdir (fs w) (frame_path s.1)); [apply within_refl | by apply within_insert].
Qed.

Lemma extract_frames_stays video_path interval_sec start_sec end_sec :
  (forall q, Path.in_tree FRAME_FOLDER q = true -> may_change fp q) ->
  (forall q, Path.in_tree FRAME_FOLDER q = true -> may_create fp q) ->
  (forall q, In q (Path.parents FRAME_FOLDER) -> may_create fp q) ->
  stays fp (extract_frames env video_path interval_sec start_sec end_sec).
Proof.
  intros Hc Hn Hp. unfold extract_frames.
  apply stays_bind.
  { apply ensure_clean_dir_stays; try apply frame_folder_plain; [exact Hc| |exact Hp].
    apply Hn, in_tree_refl. }
  intros _. stays_auto.
  intros w. rewrite sample_loop_schedule. simpl.
  apply persist_frames_within; intros i; [apply Hc | apply Hn]; apply frame_path_in_folder.
Qed.

Lemma transcribe_audio_stays audio_path :
  (forall model answer, may_emit fp (EvTranscribe model answer)) ->
  stays fp (transcribe_audio env audio_path).
Proof.
  intros He. unfold transcribe_audio. stays_auto;
    apply stays_transcriptions_create; intros; apply He.
Qed.

Lemma extract_audio_stays video_path :
  may_change fp OUTPUT_AUDIO_PATH -> may_create fp OUTPUT_AUDIO_PATH ->
  (forall model answer, may_emit fp (EvTranscribe model answer)) ->
  stays fp (extract_audio_and_transcribe env video_path).
Proof.
  intros Hc Hn He. unfold extract_audio_and_transcribe.
  stays_with ltac:(first [ by apply stays_write_audiofile
                         | by apply transcribe_audio_stays
                         | by apply stays_os_remove ]).
Qed.

Lemma gather_loop_stays names : stays fp (gather_loop env names).
Proof.
  induction names as [|filename rest IH]; simpl; [apply stays_ret|].
  stays_with ltac:(first [ exact IH | unfold convert_to_base64 ]).
Qed.

Lemma gather_frames_stays : stays fp (gather_frames env).
Proof. unfold gather_frames. stays_with ltac:(apply gather_loop_stays). Qed.

Lemma analyze_stays prompt transcript frames cues :
  (forall content, may_emit fp (EvResponses content)) ->
  (forall content, may_emit fp (EvChat content)) ->
  stays fp (analyze_frames_with_responses env prompt transcript frames cues).
Proof.
  intros Hr Hc. unfold analyze_frames_with_responses.
  stays_auto; by apply stays_emit.
Qed.

Lemma cleanup_path_stays path :
  (forall p q, path = Some p -> Path.in_tree p q = true -> may_change fp q) ->
  stays fp (cleanup_path env path).
Proof.
  intros Hc. destruct path as [p|]; [|apply stays_ret]. unfold cleanup_path.
  stays_auto.
  - apply stays_rmtree. intros q. by apply Hc.
  - apply stays_os_remove. apply (Hc p p eq_refl), in_tree_refl.
Qed.

Lemma cleanup_paths_stays paths :
  (forall p q, In (Some p) paths -> Path.in_tree p q = true -> may_change fp q) ->
  stays fp (cleanup_paths env paths).
Proof.
  intros Hc. unfold cleanup_paths. apply stays_for_each, Forall_forall.
  intros path Hp. apply list_elem_of_In in Hp. apply cleanup_path_stays.
  intros p q ->. by apply Hc.
Qed.

Lemma download_youtube_stays url cookie_file cookies :
  (forall t, may_change fp t) -> (forall t, may_create fp t) ->
  (forall t, may_emit fp (EvMkdtemp t)) ->
  stays fp (download_youtube_video env url cookie_file cookies).
Proof.
  intros Hc Hn He. unfold download_youtube_video. stays_auto.
  - by apply stays_mkdtemp.
  - apply stays_for_each, Forall_forall. intros f _. by apply stays_write_file.
  - apply stays_rmtree. intros; apply Hc.
Qed.

Lemma download_generic_stays url :
  (forall t, may_change fp t) -> (forall t, may_create fp t) ->
  (forall t, may_emit fp (EvMkdtemp t)) ->
  stays fp (download_generic_video env url).
Proof.
  intros Hc Hn He. unfold download_generic_video. stays_auto.
  - by apply stays_mkdtemp.
  - by apply stays_write_file.
  - apply stays_rmtree. intros; apply Hc.
Qed.

Lemma prepare_stays video_source cookie_file cookies :
  (forall t, may_change fp t) -> (forall t, may_create fp t) ->
  (forall t, may_emit fp (EvMkdtemp t)) ->
  stays fp (prepare_video_input env video_source cookie_file cookies).
Proof.
  intros Hc Hn He. unfold prepare_video_input.
  stays_with ltac:(first [ by apply download_youtube_stays
                         | by apply download_generic_stays ]).
Qed.

End StageFootprints.

(** ** Cleanup and acquisition *)

Section Cleanup.

Variable env : Env.
Hypothesis rm_ok : deletions_succeed env.

Lemma within_events fp w w' :
  within fp w w' ->
  exists new, events w' = events w ++ new /\ new_events w w' = new /\
              Forall (may_emit fp) new.
Proof.
  intros (_ & _ & new & E & F). exists new. split; [done|]. split; [|done].
  by apply new_events_app.
Qed.

(** Removing one target never raises... *)
Lemma cleanup_path_ok path w : (cleanup_path env path w).1 = Ok tt.
Proof.
  destruct path as [p|]; [|reflexivity]. unfold cleanup_path. unfold_m.
  destruct (String.eqb p ""); [reflexivity|]. simpl.
  unfold shutil_rmtree, os_remove, isdir, exists_path. rewrite (rm_ok p). simpl.
  destruct (fs w !! p) as [[|d]|] eqn:E; simpl; rewrite ?E; reflexivity.
Qed.

(** ... and leaves the target absent. *)
Lemma cleanup_path_removes p w :
  p <> "" -> fs (cleanup_path env (Some p) w).2 !! p = None.
Proof.
  intros Hne. unfold cleanup_path. unfold_m.
  destruct (String.eqb_spec p ""); [done|]. simpl.
  unfold shutil_rmtree, os_remove, isdir, exists_path. rewrite (rm_ok p). simpl.
  destruct (fs w !! p) as [[|data]|] eqn:E; simpl; rewrite ?E; simpl.
  - apply remove_tree_inside, in_tree_refl.
  - apply lookup_delete_eq.
  - reflexivity.
Qed.

Lemma cleanup_paths_cons x paths w :
  cleanup_paths env (x :: paths) w
  = cleanup_paths env paths (cleanup_path env x w).2.
Proof.
  unfold cleanup_paths. simpl. unfold bind.
  pose proof (cleanup_path_ok x w) as Hok.
  destruct (cleanup_path env x w) as [[[]|e] w1]; simpl in *; [reflexivity | discriminate].
Qed.

Lemma cleanup_paths_ok paths w : (cleanup_paths env paths w).1 = Ok tt.
Proof.
  revert w. induction paths as [|x paths IH]; intros w; [reflexivity|].
  rewrite cleanup_paths_cons. apply IH.
Qed.

(** With deletions succeeding, every non-empty target of [cleanup_paths] is
    absent afterwards. *)
Lemma cleanup_removes paths p w :
  In (Some p) paths -> p <> "" -> fs (cleanup_paths env paths w).2 !! p = None.
Proof.
  intros Hin Hne. revert w. induction paths as [|x paths IH]; intros w; [done|].
  rewrite cleanup_paths_cons. destruct Hin as [-> | Hin].
  - pose proof (cleanup_paths_stays env (uniform True False (fun _ => False)) paths) as Hs.
    destruct (Hs (fun _ _ _ _ => I) (cleanup_path env (Some p) w).2) as (_ & Hn & _).
    apply Hn; [by intros [] | by apply cleanup_path_removes].
  - by apply IH.
Qed.

End Cleanup.

Section Acquisition.

Variable env : Env.
Hypothesis rm_ok : deletions_succeed env.

(** Writing a file neither calls outside nor replaces a directory. *)
Lemma write_file_keeps p data d w :
  events (write_file p data w).2 = events w /\
  (isdir (fs w) d = true -> isdir (fs (write_file p data w).2) d = true).
Proof.
  unfold write_file, isdir.
  destruct (fs w !! p) as [[|old]|] eqn:E; simpl; (split; [reflexivity|]); try done;
    intros Hd; (destruct (decide (p = d)) as [->|Hne];
      [by rewrite E in Hd | by rewrite lookup_insert_ne]).
Qed.

Lemma for_each_write_keeps (name : string * string -> string)
      (files : list (string * string)) d w :
  let w' := (for_each files (fun f => write_file (name f) f.2) w).2 in
  events w' = events w /\ (isdir (fs w) d = true -> isdir (fs w') d = true).
Proof.
  revert w. induction files as [|f files IH]; intros w; simpl; [done|].
  unfold bind. destruct (write_file_keeps (name f) f.2 d w) as [He Hd].
  destruct (write_file (name f) f.2 w) as [[[]|e] w1]; simpl in *; [|done].
  destruct (IH w1) as [He' Hd']. split; [congruence | auto].
Qed.

Lemma mkdtemp_run prefix w :
  let t := mkdtemp_name env prefix (fs w) in
  mkdtemp env prefix w = (Ok t, add_event (EvMkdtemp t) (set_fs (insert t Dir) w)).
Proof. reflexivity. Qed.

Lemma rmtree_removes t w :
  isdir (fs w) t = true ->
  shutil_rmtree env t true w = (Ok tt, set_fs (remove_tree t) w).
Proof. intros Hd. unfold shutil_rmtree. by rewrite (rm_ok t), Hd. Qed.

(** What is known of the world in which a download's handler runs. *)
Lemma failed_download_removed d e w wB t (w1 : World) (r : Res string) :
  events wB = events w ++ [EvMkdtemp d] -> isdir (fs wB) d = true ->
  (shutil_rmtree env d true ;;; @throw string e) wB = (r, w1) ->
  t ∈ new_events w w1 ->
  t = EvMkdtemp d /\ fs w1 !! d = None /\ r = Raise e.
Proof.
  intros He Hd Hrun Ht. unfold bind in Hrun. rewrite (rmtree_removes d wB Hd) in Hrun.
  unfold throw in Hrun. injection Hrun as <- <-.
  rewrite (new_events_app w _ [EvMkdtemp d]) in Ht by (by rewrite <- He).
  apply list_elem_of_singleton in Ht as ->. split; [done|]. split; [|done].
  apply remove_tree_inside, in_tree_refl.
Qed.

(** The temporary directory of a download: returned to the caller when
    the download succeeds, removed when it fails. *)
Lemma download_youtube_temp url cookie_file cookies w r w1 :
  download_youtube_video env url cookie_file cookies w = (r, w1) ->
  forall t, t ∈ new_events w w1 ->
    exists d, t = EvMkdtemp d /\
      match r with
      | Ok res => res.2 = d
      | Raise _ => fs w1 !! d = None
      end.
Proof.
  unfold download_youtube_video. intros Hrun t Ht.
  destruct (yt_dlp_available env); simpl in Hrun.
  2: { injection Hrun as <- <-. unfold new_events in Ht. rewrite drop_all in Ht.
       by apply elem_of_nil in Ht. }
  unfold bind at 1 in Hrun. rewrite mkdtemp_run in Hrun. cbv zeta in Hrun.
  set (d := mkdtemp_name env "babyagent_youtube_" (fs w)) in *.
  set (wA := add_event (EvMkdtemp d) (set_fs (insert d Dir) w)) in *.
  assert (HdA : isdir (fs wA) d = true).
  { unfold isdir, wA. simpl. by rewrite lookup_insert_eq. }
  unfold bind at 1, try_except in Hrun.
  destruct (ytdl env url cookie_file cookies) as [files result].
  unfold bind at 1 in Hrun.
  destruct (for_each_write_keeps
              (fun f => Path.join d ("youtube." +:+ f.1)) files d wA) as [He Hd].
  destruct (for_each files _ wA) as [[[]|e] wB]; simpl in He, Hd.
  - destruct result as [e|ext].
    + change (any_exception e) with true in Hrun. cbv iota beta in Hrun.
      unfold lift_sum, throw at 1 in Hrun. unfold bind at 1 in Hrun.
      cbv iota beta in Hrun.
      destruct ((shutil_rmtree env d true ;;; @throw string e) wB) as [r0 w0] eqn:Hh.
      assert (w0 = w1) as ->
        by (clear -Hrun; destruct r0; unfold ret in Hrun; simpl in Hrun; congruence).
      destruct (failed_download_removed d e w wB t w1 r0 He (Hd HdA) Hh Ht) as (-> & Hnone & ->).
      injection Hrun as <-. by exists d.
    + unfold lift_sum, ret at 1, bind at 1, get_world, bind at 1, ret at 1 in Hrun.
      cbv iota beta in Hrun. unfold ret in Hrun. injection Hrun as <- <-.
      rewrite (new_events_app w _ [EvMkdtemp d]) in Ht by (by rewrite He).
      apply list_elem_of_singleton in Ht as ->. by exists d.
  - change (any_exception e) with true in Hrun. cbv iota beta in Hrun.
    destruct ((shutil_rmtree env d true ;;; @throw string e) wB) as [r0 w0] eqn:Hh.
    assert (w0 = w1) as ->
      by (clear -Hrun; destruct r0; unfold ret in Hrun; simpl in Hrun; congruence).
    destruct (failed_download_removed d e w wB t w1 r0 He (Hd HdA) Hh Ht) as (-> & Hnone & ->).
    injection Hrun as <-. by exists d.
Qed.

Lemma download_generic_temp url w r w1 :
  download_generic_video env url w = (r, w1) ->
  forall t, t ∈ new_events w w1 ->
    exists d, t = EvMkdtemp d /\
      match r with
      | Ok res => res.2 = d
      | Raise _ => fs w1 !! d = None
      end.
Proof.
  unfold download_generic_video. intros Hrun t Ht.
  unfold bind at 1 in Hrun. rewrite mkdtemp_run in Hrun. cbv zeta in Hrun.
  set (d := mkdtemp_name env "babyagent_remote_" (fs w)) in *.
  set (wA := add_event (EvMkdtemp d) (set_fs (insert d Dir) w)) in *.
  assert (HdA : isdir (fs wA) d = true).
  { unfold isdir, wA. simpl. by rewrite lookup_insert_eq. }
  assert (HeA : events wA = events w ++ [EvMkdtemp d]) by reflexivity.
  assert (Hfail : forall e (wB : World),
            events wB = events w ++ [EvMkdtemp d] -> isdir (fs wB) d = true ->
            (let (r0, w') := (shutil_rmtree env d true ;;; @throw string e) wB in
             match r0 with
             | Ok a => ret (a, d) w'
             | Raise e0 => (Raise e0, w')
             end) = (r, w1) ->
            exists d0, t = EvMkdtemp d0 /\
              match r with
              | Ok res => res.2 = d0
              | Raise _ => fs w1 !! d0 = None
              end).
  { intros e wB He Hd Hr.
    destruct ((shutil_rmtree env d true ;;; @throw string e) wB) as [r0 w0] eqn:Hh.
    assert (w0 = w1) as ->
      by (clear -Hr; destruct r0; unfold ret in Hr; simpl in Hr; congruence).
    destruct (failed_download_removed d e w wB t w1 r0 He Hd Hh Ht) as (-> & Hnone & ->).
    injection Hr as <-. by exists d. }
  unfold bind at 1, try_except in Hrun. unfold bind at 1 in Hrun.
  destruct (http_get env url) as [e|[[content_type body] broken]].
  { by apply (Hfail e wA). }
  unfold lift_sum, ret at 1 in Hrun. cbv iota beta in Hrun.
  unfold bind at 1, lift_res at 1 in Hrun.
  destruct (_infer_filename_from_url env url content_type) as [filename|e].
  2: { by apply (Hfail e wA). }
  cbv iota beta in Hrun. unfold bind at 1 in Hrun.
  destruct (write_file_keeps (Path.join d filename) body d wA) as [He Hd].
  destruct (write_file (Path.join d filename) body wA) as [[[]|e] wB]; simpl in He, Hd.
  - destruct broken as [e|].
    + apply (Hfail e wB); [congruence | auto | exact Hrun].
    + unfold ret in Hrun. cbv iota beta in Hrun. injection Hrun as <- <-.
      rewrite (new_events_app w _ [EvMkdtemp d]) in Ht by congruence.
      apply list_elem_of_singleton in Ht as ->. by exists d.
  - apply (Hfail e wB); [congruence | auto | exact Hrun].
Qed.

(** Acquisition calls [mkdtemp] at most for the directory it hands back; a
    failed acquisition has removed it. *)
Lemma prepare_temp video_source cookie_file cookies w r w1 :
  prepare_video_input env video_source cookie_file cookies w = (r, w1) ->
  forall t, t ∈ new_events w w1 ->
    exists d, t = EvMkdtemp d /\
      match r with
      | Ok acquired => acquired.2 = Some d
      | Raise _ => fs w1 !! d = None
      end.
Proof.
  unfold prepare_video_input. intros Hrun t Ht.
  destruct (is_url env video_source); simpl in Hrun.
  2: { injection Hrun as <- <-. unfold new_events in Ht. rewrite drop_all in Ht.
       by apply elem_of_nil in Ht. }
  unfold bind at 1, lift_res at 1 in Hrun.
  destruct (is_youtube_url env video_source) as [[|]|e].
  - unfold bind at 1, print, modify in Hrun. cbv iota beta in Hrun.
    unfold bind at 1 in Hrun.
    destruct (download_youtube_video env video_source cookie_file cookies _)
      as [[res|e] w0] eqn:Hd;
      destruct (download_youtube_temp _ _ _ _ _ _ Hd t) as (d & -> & Hres);
      try (unfold ret in Hrun; injection Hrun as <- <-); try exact Ht;
      exists d; (split; [done|]); simpl; by rewrite ?Hres.
  - unfold bind at 1, print, modify in Hrun. cbv iota beta in Hrun.
    unfold bind at 1 in Hrun.
    destruct (download_generic_video env video_source _)
      as [[res|e] w0] eqn:Hd;
      destruct (download_generic_temp _ _ _ _ Hd t) as (d & -> & Hres);
      try (unfold ret in Hrun; injection Hrun as <- <-); try exact Ht;
      exists d; (split; [done|]); simpl; by rewrite ?Hres.
  - injection Hrun as <- <-. unfold new_events in Ht. rewrite drop_all in Ht.
    by apply elem_of_nil in Ht.
Qed.

End Acquisition.

(** ** The orchestrator *)

Section Orchestration.

Variable env : Env.
Hypothesis rm_ok : deletions_succeed env.

(** Once a transcription call has answered, the extractor returns with the
    scratch audio file removed. *)
Lemma audio_removed video_path w r w3 :
  extract_audio_and_transcribe env video_path w = (r, w3) ->
  (exists model text, EvTranscribe model (Some text) ∈ new_events w w3) ->
  fs w3 !! OUTPUT_AUDIO_PATH = None.
Proof.
  unfold extract_audio_and_transcribe. intros Hrun (model & text & Hev).
  assert (Hnil : forall w0 : World, events w0 = events w ->
                 ~ EvTranscribe model (Some text) ∈ new_events w w0).
  { intros w0 E H. rewrite (new_events_app w w0 []) in H by (by rewrite app_nil_r).
    by apply elem_of_nil in H. }
  unfold bind at 1 in Hrun.
  destruct (open_clip env video_path w) as [[clip|e] w0] eqn:Hclip.
  2: { injection Hrun as <- <-. exfalso. apply (Hnil w0); [|done].
       unfold open_clip in Hclip. repeat case_match; by simplify_eq. }
  assert (w0 = w) as ->.
  { unfold open_clip in Hclip. repeat case_match; by simplify_eq. }
  destruct (clip_audio clip) as [wav|].
  2: { unfold_m. injection Hrun as <- <-. exfalso. by apply (Hnil (add_out NO_AUDIO w)). }
  unfold bind at 1 in Hrun.
  destruct (write_audiofile env OUTPUT_AUDIO_PATH wav w) as [[[]|e] wA] eqn:Hw.
  2: { injection Hrun as <- <-. exfalso. apply (Hnil wA); [|done].
       unfold write_audiofile in Hw. repeat case_match; by simplify_eq. }
  assert (HeA : events wA = events w).
  { unfold write_audiofile in Hw. repeat case_match; by simplify_eq. }
  unfold bind at 1 in Hrun.
  destruct (isfile (fs wA) OUTPUT_AUDIO_PATH) eqn:Hfile.
  - unfold isfile in Hfile.
    destruct (fs wA !! OUTPUT_AUDIO_PATH) as [[|af]|] eqn:Haf; try done.
    destruct (transcribe_audio_cases env OUTPUT_AUDIO_PATH af wA Haf) as [Hfs Hcase].
    destruct (transcribe_audio env OUTPUT_AUDIO_PATH wA) as [rt wT]; simpl in *.
    assert (Hok : exists t, rt = Ok t).
    { destruct (asr env "gpt-4o-transcribe" af TRANSCRIPTION_PROMPT) as [e1|t1];
        [destruct (asr env "whisper-1" af TRANSCRIPTION_PROMPT) as [e2|t2]|];
        destruct Hcase as [-> Hn]; eauto.
      exfalso. injection Hrun as <- <-.
      unfold new_events in Hev, Hn. rewrite <- HeA, Hn in Hev.
      apply elem_of_cons in Hev as [Hev | Hev]; [done|].
      apply elem_of_cons in Hev as [Hev | Hev]; [done|]. by apply elem_of_nil in Hev. }
    destruct Hok as [t ->].
    unfold_m. unfold os_remove in Hrun. rewrite (rm_ok OUTPUT_AUDIO_PATH) in Hrun.
    simpl in Hrun. rewrite Hfs, Haf in Hrun. simpl in Hrun.
    injection Hrun as <- <-. simpl. apply lookup_delete_eq.
  - exfalso.
    destruct (transcribe_audio_unreadable env OUTPUT_AUDIO_PATH wA Hfile)
      as (Hn & _ & e0 & He0).
    destruct (transcribe_audio env OUTPUT_AUDIO_PATH wA) as [[t|e] wT] eqn:Ht.
    + discriminate.
    + injection Hrun as <- <-. simpl in Hn.
      unfold new_events in Hev, Hn. rewrite <- HeA, Hn in Hev. by apply elem_of_nil in Hev.
Qed.

Lemma elem_of_new_events_trans w1 w2 w3 (ev : event) :
  (exists n, events w2 = events w1 ++ n) ->
  (exists n, events w3 = events w2 ++ n) ->
  ev ∈ new_events w1 w3 -> ev ∈ new_events w1 w2 \/ ev ∈ new_events w2 w3.
Proof.
  intros [n1 E1] [n2 E2] H.
  rewrite (new_events_app w1 w3 (n1 ++ n2)) in H by (by rewrite E2, E1, <- app_assoc).
  rewrite (new_events_app w1 w2 n1 E1), (new_events_app w2 w3 n2 E2).
  by apply elem_of_app in H.
Qed.

Lemma within_grows fp w w' : within fp w w' -> exists n, events w' = events w ++ n.
Proof. intros (_ & _ & n & E & _). by exists n. Qed.

Lemma within_emits fp w w' ev :
  within fp w w' -> ev ∈ new_events w w' -> may_emit fp ev.
Proof.
  intros (_ & _ & n & E & F) H. rewrite (new_events_app _ _ _ E) in H.
  rewrite Forall_forall in F. by apply F.
Qed.

End Orchestration.

Section OrchestratorResults.

Variable env : Env.

Lemma video_GPT_unfold video_path start_sec end_sec cookie_file cookies w :
  video_GPT env video_path start_sec end_sec cookie_file cookies w =
  match prepare_video_input env video_path cookie_file cookies w with
  | (Ok acquired, w1) =>
      try_finally (pipeline_body env acquired.1 start_sec end_sec)
                  (cleanup_paths env [acquired.2; Some FRAME_FOLDER]) w1
  | (Raise e, w1) => (Raise e, w1)
  end.
Proof. reflexivity. Qed.

Lemma try_finally_world {A} (body : M A) (fin : M unit) w :
  (try_finally body fin w).2 = (fin (body w).2).2.
Proof.
  unfold try_finally. destruct (body w) as [r w1]. simpl.
  by destruct (fin w1) as [[[]|e] w2].
Qed.

Lemma pipeline_body_stays fp local_video_path start_sec end_sec :
  (forall q, Path.in_tree FRAME_FOLDER q = true -> may_change fp q) ->
  (forall q, Path.in_tree FRAME_FOLDER q = true -> may_create fp q) ->
  (forall q, In q (Path.parents FRAME_FOLDER) -> may_create fp q) ->
  may_change fp OUTPUT_AUDIO_PATH -> may_create fp OUTPUT_AUDIO_PATH ->
  (forall ev, ~ is_mkdtemp ev -> may_emit fp ev) ->
  stays fp (pipeline_body env local_video_path start_sec end_sec).
Proof.
  intros Hc Hn Hp Hca Hna He. unfold pipeline_body.
  stays_with ltac:(first
    [ by apply extract_frames_stays
    | apply extract_audio_stays; [done | done | intros; apply He; intros []]
    | apply gather_frames_stays
    | apply analyze_stays; intros; apply He; intros [] ]).
Qed.

Hypothesis rm_ok : deletions_succeed env.

(** In the body, a transcription that answered leaves no scratch audio
    file behind. *)
Lemma pipeline_body_audio local_video_path start_sec end_sec w1 rb wb :
  pipeline_body env local_video_path start_sec end_sec w1 = (rb, wb) ->
  forall model text,
    EvTranscribe model (Some text) ∈ new_events w1 wb ->
    fs wb !! OUTPUT_AUDIO_PATH = None.
Proof.
  intros Hrun model text. unfold pipeline_body in Hrun. unfold bind at 1 in Hrun.
  pose proof (extract_frames_stays env (uniform True True (fun _ => False))
                local_video_path (1 # 2) start_sec end_sec
                (fun _ _ => I) (fun _ _ => I) (fun _ _ => I) w1) as Hf.
  destruct (extract_frames env local_video_path (1 # 2) start_sec end_sec w1)
    as [[[]|e] wf]; simpl in Hf.
  2: { injection Hrun as <- <-. intros H. by apply (within_emits _ _ _ _ Hf) in H. }
  unfold bind at 1 in Hrun.
  pose proof (extract_audio_stays env (uniform True True (fun _ => True))
                local_video_path I I (fun _ _ => I) wf) as Haw.
  destruct (extract_audio_and_transcribe env local_video_path wf) as [[tc|e] wa] eqn:Ha;
    simpl in Haw.
  - set (rest := (base64frames <- gather_frames env ;;
                  analyze_frames_with_responses env PROMPT_VISION tc.1 base64frames tc.2))
      in Hrun.
    assert (Hrest : within (uniform True False is_request) wa wb).
    { replace wb with (rest wa).2 by (by rewrite Hrun). unfold rest.
      apply (stays_bind _ (gather_frames env)); [apply gather_frames_stays|].
      intros frames. by apply analyze_stays. }
    intros H.
    apply (elem_of_new_events_trans w1 wf) in H;
      [| by eapply within_grows
       | destruct (within_grows _ _ _ Haw) as [n1 E1];
         destruct (within_grows _ _ _ Hrest) as [n2 E2];
         exists (n1 ++ n2); by rewrite E2, E1, <- app_assoc ].
    destruct H as [H | H]; [by apply (within_emits _ _ _ _ Hf) in H|].
    apply (elem_of_new_events_trans wf wa) in H;
      [| by eapply within_grows | by eapply within_grows].
    destruct H as [H | H]; [|by apply (within_emits _ _ _ _ Hrest) in H].
    destruct Hrest as (_ & Hkeep & _). apply Hkeep; [by intros []|].
    apply (audio_removed env rm_ok _ _ _ _ Ha). by exists model, text.
  - injection Hrun as <- <-. intros H.
    apply (elem_of_new_events_trans w1 wf) in H;
      [| by eapply within_grows | by eapply within_grows].
    destruct H as [H | H]; [by apply (within_emits _ _ _ _ Hf) in H|].
    apply (audio_removed env rm_ok _ _ _ _ Ha). by exists model, text.
Qed.

(** C1 (as amended): when deletions succeed, after every run, whatever
    its outcome and wherever it failed: every temporary directory the
    run created through [mkdtemp] is absent; if acquisition succeeded,
    the frame directory is absent; and if a transcription call answered,
    the scratch audio file is absent. *)
Theorem video_GPT_cleanup (video_path : string) (start_sec : Q) (end_sec : option Q)
        (cookie_file : option string) (cookies : option (string * option string))
        (w : World) (r : Res unit) (w' : World) :
  video_GPT env video_path start_sec end_sec cookie_file cookies w = (r, w') ->
  (forall d, EvMkdtemp d ∈ new_events w w' -> d <> "" -> fs w' !! d = None) /\
  (forall acquired w1,
     prepare_video_input env video_path cookie_file cookies w = (Ok acquired, w1) ->
     fs w' !! FRAME_FOLDER = None) /\
  (forall model text,
     EvTranscribe model (Some text) ∈ new_events w w' ->
     fs w' !! OUTPUT_AUDIO_PATH = None).
Proof.
  intros Hrun. rewrite video_GPT_unfold in Hrun.
  pose proof (prepare_temp env rm_ok video_path cookie_file cookies w) as Hprep.
  pose proof (prepare_stays env (uniform True True is_mkdtemp) video_path cookie_file
                cookies (fun _ => I) (fun _ => I) (fun _ => I) w) as Hpw.
  destruct (prepare_video_input env video_path cookie_file cookies w)
    as [[acquired|e] w1] eqn:Hp; simpl in Hpw.
  2: { injection Hrun as <- <-. split; [|split].
       - intros d Hd _. destruct (Hprep _ _ eq_refl _ Hd) as (d0 & [= <-] & H0). exact H0.
       - intros acquired w2 [=].
       - intros model text H. by destruct (Hprep _ _ eq_refl _ H) as (d0 & [=] & _). }
  set (body := pipeline_body env acquired.1 start_sec end_sec) in *.
  set (targets := [acquired.2; Some FRAME_FOLDER]) in *.
  assert (Hw' : w' = (cleanup_paths env targets (body w1).2).2).
  { rewrite <- try_finally_world. by rewrite Hrun. }
  assert (Hbody : within (uniform True True (fun ev => ~ is_mkdtemp ev)) w1 (body w1).2).
  { by apply pipeline_body_stays. }
  assert (Hclean : within (uniform True False (fun _ => False)) (body w1).2 w').
  { rewrite Hw'. by apply cleanup_paths_stays. }
  split; [|split].
  - intros d Hd Hne.
    apply (elem_of_new_events_trans w w1) in Hd;
      [| by eapply within_grows
       | destruct (within_grows _ _ _ Hbody) as [n1 E1];
         destruct (within_grows _ _ _ Hclean) as [n2 E2];
         exists (n1 ++ n2); by rewrite E2, E1, <- app_assoc ].
    destruct Hd as [Hd | Hd].
    + destruct (Hprep _ _ eq_refl _ Hd) as (d0 & [= <-] & H0). simpl in H0.
      rewrite Hw'. apply (cleanup_removes env rm_ok); [|exact Hne].
      unfold targets. rewrite H0. by left.
    + apply (elem_of_new_events_trans w1 (body w1).2) in Hd;
        [| by eapply within_grows | by eapply within_grows].
      destruct Hd as [Hd | Hd].
      * apply (within_emits _ _ _ _ Hbody) in Hd. by destruct Hd.
      * by apply (within_emits _ _ _ _ Hclean) in Hd.
  - intros _ _ _. rewrite Hw'. apply (cleanup_removes env rm_ok); [|discriminate].
    unfold targets. right. by left.
  - intros model text H.
    apply (elem_of_new_events_trans w w1) in H;
      [| by eapply within_grows
       | destruct (within_grows _ _ _ Hbody) as [n1 E1];
         destruct (within_grows _ _ _ Hclean) as [n2 E2];
         exists (n1 ++ n2); by rewrite E2, E1, <- app_assoc ].
    destruct H as [H | H]; [by destruct (Hprep _ _ eq_refl _ H) as (d0 & [=] & _)|].
    apply (elem_of_new_events_trans w1 (body w1).2) in H;
      [| by eapply within_grows | by eapply within_grows].
    destruct H as [H | H]; [|by apply (within_emits _ _ _ _ Hclean) in H].
    destruct Hclean as (_ & Hkeep & _). apply Hkeep; [by intros []|].
    destruct (body w1) as [rb wb] eqn:Hb.
    by apply (pipeline_body_audio _ _ _ _ _ _ Hb model text).
Qed.

End OrchestratorResults.

Section LocalInput.

Variable env : Env.

(** C10 (as amended): for a local source, acquisition returns the path as
    it is with no temporary directory to clean; the end-of-run cleanup
    touches nothing outside the frame folder; the whole run changes or
    removes nothing that is there outside the frame folder other than the
    scratch audio file, and creates nothing there other than that file
    and the missing directories above the frame folder; so an input video
    whose file, however the path spells it, lies outside the frame folder
    and is not the scratch audio file is still in place, with its
    content, after every run. *)
Theorem local_input_kept (video_path data : string) (start_sec : Q)
        (end_sec : option Q) (cookie_file : option string)
        (cookies : option (string * option string))
        (w : World) (r : Res unit) (w' : World) :
  is_url env video_path = false ->
  Path.in_tree FRAME_FOLDER (locate env video_path) = false ->
  locate env video_path <> OUTPUT_AUDIO_PATH ->
  fs w !! locate env video_path = Some (File data) ->
  video_GPT env video_path start_sec end_sec cookie_file cookies w = (r, w') ->
  prepare_video_input env video_path cookie_file cookies w = (Ok (video_path, None), w) /\
  (forall w0 q, Path.in_tree FRAME_FOLDER q = false ->
     fs (cleanup_paths env [None; Some FRAME_FOLDER] w0).2 !! q = fs w0 !! q) /\
  (forall q, Path.in_tree FRAME_FOLDER q = false -> q <> OUTPUT_AUDIO_PATH ->
     (fs w !! q <> None -> fs w' !! q = fs w !! q) /\
     (fs w !! q = None -> ~ In q (Path.parents FRAME_FOLDER) -> fs w' !! q = None)) /\
  fs w' !! locate env video_path = Some (File data).
Proof.
  intros Hlocal Hout Hna Hfile Hrun.
  assert (Hprep : prepare_video_input env video_path cookie_file cookies w
                  = (Ok (video_path, None), w)).
  { unfold prepare_video_input. by rewrite Hlocal. }
  assert (Hclean : forall fp : Footprint,
            (forall q, Path.in_tree FRAME_FOLDER q = true -> may_change fp q) ->
            stays fp (cleanup_paths env [None; Some FRAME_FOLDER])).
  { intros fp Hfp. apply cleanup_paths_stays. intros p q [[=] | [[= <-] | []]]. apply Hfp. }
  assert (Hw : within scratch_footprint w w').
  { rewrite video_GPT_unfold, Hprep in Hrun. simpl in Hrun.
    replace w' with (try_finally (pipeline_body env video_path start_sec end_sec)
                       (cleanup_paths env [None; Some FRAME_FOLDER]) w).2
      by (by rewrite Hrun).
    apply stays_try_finally.
    - apply pipeline_body_stays; simpl; auto.
    - apply Hclean. simpl. auto. }
  destruct Hw as (Hkeep & Hnew & _).
  assert (Hthere : forall q, Path.in_tree FRAME_FOLDER q = false -> q <> OUTPUT_AUDIO_PATH ->
                   fs w !! q <> None -> fs w' !! q = fs w !! q).
  { intros q Hq Hqa. apply Hkeep. simpl. intros [H | H]; congruence. }
  split; [exact Hprep|]. split; [|split].
  - intros w0 q Hq.
    destruct (Hclean {| may_change := fun q => Path.in_tree FRAME_FOLDER q = true;
                        may_create := fun _ => False;
                        may_emit := fun _ => False |} (fun _ H => H) w0) as (Hk & Hn & _).
    destruct (fs w0 !! q) as [n|] eqn:E.
    + rewrite <- E. apply Hk; simpl; [by rewrite Hq | by rewrite E].
    + apply Hn; [by intros [] | exact E].
  - intros q Hq Hqa. split; [by apply Hthere|].
    intros Hnone Hpar. apply Hnew; [|exact Hnone]. simpl.
    intros [H | [H | H]]; [congruence | congruence | contradiction].
  - rewrite (Hthere _ Hout Hna); [exact Hfile | by rewrite Hfile].
Qed.

End LocalInput.

(** ** The properties on concrete runs *)

Section ConcreteRuns.

Import Concrete.

(** C3's theorem applies: the synthetic 10-second, 30 fps video leaves
    exactly six frames in the frame folder. *)
Lemma sample_window_six_frames_witness :
  sorted (children FRAME_FOLDER
            (fs (extract_frames (scenario_env all_fine) "baby.mp4" (1 # 2) 2 (Some 5%Q)
                   (world_with_video "baby.mp4")).2))
  = ["frame_0000060.jpg"; "frame_0000075.jpg"; "frame_0000090.jpg";
     "frame_0000105.jpg"; "frame_0000120.jpg"; "frame_0000135.jpg"].
Proof.
  set (env := scenario_env all_fine). set (w := world_with_video "baby.mp4").
  assert (H : extract_frames env "baby.mp4" (1 # 2) 2 (Some 5%Q) w
              = (Ok tt, persist_frames
                   (map (fun i : nat => (Z.of_nat i, nth i (cv_frames (synthetic_video 30 300)) ""))
                        [60; 75; 90; 105; 120; 135]%nat)
                   (ensure_clean_dir env FRAME_FOLDER w).2)).
  { apply (sample_window_six_frames env "baby.mp4" "VIDEO" (synthetic_video 30 300)
             w (ensure_clean_dir env FRAME_FOLDER w).2);
      vm_compute; reflexivity. }
  rewrite H. vm_compute. reflexivity.
Defined.


Lemma scenario_deletions sc : deletions_ok sc = true -> deletions_succeed (scenario_env sc).
Proof. intros H p. simpl. by rewrite H. Qed.

(** C1's theorem applies: a YouTube download succeeds, the primary
    transcription model fails, the fallback answers, inference fails;
    afterwards the download directory, the frame folder and the scratch
    audio file are all gone. *)
Lemma video_GPT_cleanup_witness :
  let run := video_GPT (scenario_env inference_down) "https://youtu.be/abc" 0 None
                       None None empty_world in
  run.1 = Raise (service_error "inference failed") /\
  fs run.2 !! "/tmp/babyagent_youtube_a1b2c3" = None /\
  fs run.2 !! FRAME_FOLDER = None /\
  fs run.2 !! OUTPUT_AUDIO_PATH = None.
Proof.
  intros run.
  destruct (video_GPT_cleanup (scenario_env inference_down)
              (scenario_deletions inference_down eq_refl)
              "https://youtu.be/abc" 0 None None None empty_world run.1 run.2
              (surjective_pairing run)) as (Ha & Hb & Hc).
  split; [vm_compute; reflexivity|]. split; [|split].
  - apply Ha; [|discriminate]. vm_compute. repeat constructor.
  - eapply Hb. vm_compute. reflexivity.
  - apply (Hc "whisper-1" "the baby says eh"). vm_compute. repeat constructor.
Defined.

(** C1, as stated, fails.  When both transcription models fail, the run
    ends with the scratch audio file still on disk: the removal sits after
    the transcription call and is skipped by the error.  And when the
    download fails, a frame folder present before the run is still there
    after it: acquisition runs before the [try] block. *)
Lemma video_GPT_leaves_files :
  (video_GPT (scenario_env transcription_down) "baby.mp4" 0 None None None
             (world_with_video "baby.mp4")).1
  = Raise (service_error "fallback model unavailable") /\
  fs (video_GPT (scenario_env transcription_down) "baby.mp4" 0 None None None
                (world_with_video "baby.mp4")).2 !! OUTPUT_AUDIO_PATH
  = Some (File "WAV") /\
  (video_GPT (scenario_env download_down) "https://example.com/baby.mp4" 0 None
             None None world_with_stale_frames).1
  = Raise (service_error "connection reset") /\
  fs (video_GPT (scenario_env download_down) "https://example.com/baby.mp4" 0 None
                None None world_with_stale_frames).2 !! FRAME_FOLDER
  = Some Dir.
Proof. repeat split; vm_compute; reflexivity. Qed.

(** C10's theorem applies: a local video next to the scratch paths,
    named in a roundabout way, is still there after a successful run. *)
Lemma local_input_kept_witness :
  let run := video_GPT (scenario_env all_fine) "./clips/../baby.mp4" 0 None None None
                       (world_with_video "baby.mp4") in
  run.1 = Ok tt /\ fs run.2 !! "baby.mp4" = Some (File "VIDEO").
Proof.
  intros run. split; [vm_compute; reflexivity|].
  refine (proj2 (proj2 (proj2
    (local_input_kept (scenario_env all_fine) "./clips/../baby.mp4" "VIDEO" 0 None None
       None (world_with_video "baby.mp4") run.1 run.2 _ _ _ _ (surjective_pairing run))))).
  - vm_compute. reflexivity.
  - vm_compute. reflexivity.
  - discriminate.
  - vm_compute. reflexivity.
Defined.

(** C10, as stated, fails: a local video that lies inside the frame folder
    is deleted by the run (the folder is cleared before sampling and
    removed at the end), also when its path is spelled so that it does not
    start with the folder's. *)
Lemma local_input_in_frames_deleted :
  classify (scenario_env all_fine) video_in_frames = Local video_in_frames /\
  fs world_video_in_frames !! video_in_frames = Some (File "VIDEO") /\
  fs (ensure_clean_dir (scenario_env all_fine) FRAME_FOLDER world_video_in_frames).2
    !! video_in_frames = None /\
  fs (video_GPT (scenario_env all_fine) video_in_frames 0 None None None
                world_video_in_frames).2 !! video_in_frames = None /\
  classify (scenario_env all_fine) video_in_frames_respelled
    = Local video_in_frames_respelled /\
  Path.in_tree FRAME_FOLDER video_in_frames_respelled = false /\
  locate (scenario_env all_fine) video_in_frames_respelled = video_in_frames /\
  fs (video_GPT (scenario_env all_fine) video_in_frames_respelled 0 None None None
                world_video_in_frames).2 !! video_in_frames = None.
Proof. repeat split; vm_compute; reflexivity. Qed.

End ConcreteRuns.
(** ** The browser-cookie argument *)

Lemma drop_while_head f l x r : Text.drop_while f l = x :: r -> f x = false.
Proof.
  induction l as [|c l IH]; simpl; [done|].
  destruct (f c) eqn:E; [exact IH|]. intros H. by injection H as -> _.
Qed.

(** *** Dropping leading members of a set of texts *)

Section DropLeading.

Variable pats : list (list ascii).
Hypothesis pats_nonempty : forall p, In p pats -> p <> [].

Implicit Types (p l r : list ascii) (ps : list (list ascii)).

Lemma find_leading_none l :
  List.find (fun p => Text.starts_with p l) pats = None <->
  forall p, In p pats -> Text.starts_with p l = false.
Proof.
  split; [apply List.find_none|].
  intros H. destruct (List.find _ pats) as [p|] eqn:E; [|reflexivity].
  apply List.find_some in E as [Hin Hp]. by rewrite (H p Hin) in Hp.
Qed.

Lemma drop_leading_stable n l :
  List.find (fun p => Text.starts_with p l) pats = None -> drop_leading pats n l = l.
Proof. intros H. destruct n; simpl; [reflexivity | by rewrite H]. Qed.

Lemma drop_leading_done n l :
  (length l <= n)%nat ->
  List.find (fun p => Text.starts_with p (drop_leading pats n l)) pats = None.
Proof.
  revert l. induction n as [|n IH]; intros l Hn; simpl.
  - destruct l; [|simpl in Hn; lia]. apply find_leading_none. intros p Hp.
    destruct p; [by apply pats_nonempty in Hp | reflexivity].
  - destruct (List.find (fun p => Text.starts_with p l) pats) as [p|] eqn:E; [|exact E].
    apply List.find_some in E as [Hin Hp]. apply IH.
    apply starts_with_spec in Hp as [r ->].
    rewrite drop_app_length. rewrite length_app in Hn.
    pose proof (pats_nonempty p Hin). destruct p; [done | simpl in Hn; lia].
Qed.

(** What was dropped is a sequence of members of [pats]. *)
Lemma drop_leading_split n l :
  exists ps, Forall (fun p => In p pats) ps /\ l = concat ps ++ drop_leading pats n l.
Proof.
  revert l. induction n as [|n IH]; intros l; simpl.
  - by exists [].
  - destruct (List.find _ pats) as [p|] eqn:E; [|by exists []].
    apply List.find_some in E as [Hin Hp]. apply starts_with_spec in Hp as [r ->].
    rewrite drop_app_length. destruct (IH r) as (ps & Hps & Hr).
    exists (p :: ps). split; [by constructor|].
    simpl. rewrite <- app_assoc. by f_equal.
Qed.

(** A text that starts with none of [pats] has no prefix that does. *)
Lemma no_leading_prefix l r :
  List.find (fun p => Text.starts_with p (l ++ r)) pats = None ->
  List.find (fun p => Text.starts_with p l) pats = None.
Proof.
  rewrite !find_leading_none. intros H p Hp. specialize (H p Hp).
  destruct (Text.starts_with p l) eqn:E; [|reflexivity].
  apply starts_with_spec in E as [t ->]. rewrite <- H. symmetry.
  apply starts_with_spec. exists (t ++ r). by rewrite app_assoc.
Qed.

(** When no member of [pats] starts another one, a sequence of members
    is dropped whole. *)
Lemma drop_leading_concat ps n r :
  (forall p q t, In p pats -> In q pats ->
                 Text.starts_with p (q ++ t) = true -> p = q) ->
  Forall (fun p => In p pats) ps -> (length ps <= n)%nat ->
  drop_leading pats n (concat ps ++ r) = drop_leading pats (n - length ps) r.
Proof.
  intros Hfree Hps. revert n. induction Hps as [|q ps Hq _ IH]; intros n Hn; simpl.
  - by rewrite Nat.sub_0_r.
  - destruct n as [|n]; [simpl in Hn; lia|]. simpl.
    destruct (List.find _ pats) as [p|] eqn:E.
    + apply List.find_some in E as [Hin Hp]. rewrite <- app_assoc in Hp.
      rewrite (Hfree p q _ Hin Hq Hp), <- app_assoc, drop_app_length.
      apply IH. simpl in Hn. lia.
    + exfalso. rewrite find_leading_none in E. specialize (E q Hq).
      rewrite <- app_assoc in E.
      assert (Text.starts_with q (q ++ concat ps ++ r) = true)
        by (apply starts_with_spec; by eexists).
      congruence.
Qed.

End DropLeading.

(** *** [str.strip()] *)

Lemma starts_with_app_cases (p q t : list ascii) :
  Text.starts_with p (q ++ t) = true ->
  Text.starts_with p q = true \/ Text.starts_with q p = true.
Proof.
  revert q. induction p as [|a p IH]; intros q; [by left|].
  destruct q as [|b q]; [by right|]. simpl.
  intros H. apply andb_true_iff in H as [Hab H]. rewrite Hab. simpl.
  apply Ascii.eqb_eq in Hab as ->. rewrite Ascii.eqb_refl. simpl. by apply IH.
Qed.

Lemma whitespace_nonempty p : In p whitespace_encodings -> p <> [].
Proof.
  intros Hin ->. revert Hin. vm_compute. intros H. decompose [or] H; discriminate || done.
Qed.

Lemma whitespace_rev_nonempty p : In p (map (@rev ascii) whitespace_encodings) -> p <> [].
Proof.
  intros Hin ->. revert Hin. vm_compute. intros H. decompose [or] H; discriminate || done.
Qed.

(** No encoding of a whitespace character starts another one. *)
Lemma whitespace_prefix_free p q t :
  In p whitespace_encodings -> In q whitespace_encodings ->
  Text.starts_with p (q ++ t) = true -> p = q.
Proof.
  intros Hp Hq H.
  assert (Htable : forallb (fun p => forallb (fun q =>
            implb (Text.starts_with p q || Text.starts_with q p)
                  (String.eqb (Text.of_chars p) (Text.of_chars q)))
            whitespace_encodings) whitespace_encodings = true)
    by (vm_compute; reflexivity).
  rewrite forallb_forall in Htable. specialize (Htable p Hp).
  rewrite forallb_forall in Htable. specialize (Htable q Hq).
  apply starts_with_app_cases in H.
  assert (Hs : Text.starts_with p q || Text.starts_with q p = true)
    by (destruct H as [-> | ->]; [reflexivity | apply orb_true_r]).
  rewrite Hs in Htable. simpl in Htable. apply String.eqb_eq in Htable.
  apply (f_equal Text.chars) in Htable. by rewrite !chars_of_chars in Htable.
Qed.

Lemma lstrip_chars_done l :
  List.find (fun p => Text.starts_with p (lstrip_chars l)) whitespace_encodings = None.
Proof. apply drop_leading_done; [apply whitespace_nonempty | done]. Qed.

(** What [rstrip] leaves is a prefix, and what it removes is whitespace. *)
Lemma rstrip_chars_split l :
  exists ps, Forall (fun p => In p whitespace_encodings) ps /\
             l = rstrip_chars l ++ concat ps.
Proof.
  unfold rstrip_chars.
  destruct (drop_leading_split (map (@rev ascii) whitespace_encodings)
              (length l) (rev l)) as (ps & Hps & E).
  exists (rev (map (@rev ascii) ps)). split.
  - apply List.Forall_forall. intros p Hp. apply in_rev, in_map_iff in Hp as (q & <- & Hq).
    rewrite List.Forall_forall in Hps. specialize (Hps q Hq).
    apply in_map_iff in Hps as (p' & <- & Hp'). by rewrite rev_involutive.
  - apply (f_equal (@rev ascii)) in E. rewrite rev_involutive, rev_app_distr in E.
    rewrite E at 1. f_equal. clear. induction ps as [|p ps IH]; [reflexivity|].
    simpl. rewrite rev_app_distr, concat_app, IH. simpl. by rewrite app_nil_r.
Qed.

Lemma lstrip_chars_split l :
  exists ps, Forall (fun p => In p whitespace_encodings) ps /\
             l = concat ps ++ lstrip_chars l.
Proof. apply drop_leading_split. Qed.

Lemma strip_chars_trimmed l : trimmed (strip_chars l).
Proof.
  unfold trimmed, strip_chars. set (y := lstrip_chars l). split.
  - apply drop_leading_stable.
    destruct (rstrip_chars_split y) as (ps & _ & E).
    apply (no_leading_prefix _ _ (concat ps)). rewrite <- E. apply lstrip_chars_done.
  - unfold rstrip_chars at 1. rewrite drop_leading_stable.
    + apply rev_involutive.
    + unfold rstrip_chars. rewrite rev_involutive.
      apply drop_leading_done; [apply whitespace_rev_nonempty|].
      by rewrite length_rev.
Qed.

Lemma strip_chars_of_trimmed l : trimmed l -> strip_chars l = l.
Proof. intros [H1 H2]. unfold strip_chars. by rewrite H1, H2. Qed.

Lemma strip_chars_idem l : strip_chars (strip_chars l) = strip_chars l.
Proof. apply strip_chars_of_trimmed, strip_chars_trimmed. Qed.

Lemma encodings_of ps :
  Forall (fun p => In p whitespace_encodings) ps ->
  exists cps, Forall (fun cp => In cp Unicode.whitespace) cps /\
              ps = map Unicode.encode cps.
Proof.
  induction 1 as [|p ps Hp _ (cps & Hcps & ->)]; [by exists []|].
  apply in_map_iff in Hp as (cp & <- & Hcp). exists (cp :: cps).
  split; [by constructor | reflexivity].
Qed.

(** [strip] leaves nothing exactly of the texts made of whitespace. *)
Lemma strip_chars_nil l : strip_chars l = [] <-> blank l.
Proof.
  unfold blank. split.
  - intros H. destruct (lstrip_chars_split l) as (ps1 & H1 & E1).
    destruct (rstrip_chars_split (lstrip_chars l)) as (ps2 & H2 & E2).
    unfold strip_chars in H. rewrite H in E2. simpl in E2.
    destruct (encodings_of (ps1 ++ ps2)) as (cps & Hcps & E).
    { apply Forall_app. by split. }
    exists cps. split; [exact Hcps|]. by rewrite <- E, concat_app, <- E2.
  - intros (cps & Hcps & ->). unfold strip_chars.
    assert (Hl : lstrip_chars (concat (map Unicode.encode cps)) = []).
    { unfold lstrip_chars.
      assert (Hps : Forall (fun p => In p whitespace_encodings) (map Unicode.encode cps)).
      { apply List.Forall_forall. intros p Hp. apply in_map_iff in Hp as (cp & <- & Hcp).
        apply in_map. rewrite List.Forall_forall in Hcps. by apply Hcps. }
      assert (Hlen : (length (map Unicode.encode cps)
                      <= length (concat (map Unicode.encode cps)))%nat).
      { clear -Hps. induction Hps as [|p ps Hp _ IH]; simpl; [lia|].
        rewrite length_app. apply whitespace_nonempty in Hp.
        destruct p; [done | simpl; lia]. }
      rewrite <- (app_nil_r (concat _)) at 2.
      rewrite (drop_leading_concat _ _ _ _ whitespace_prefix_free Hps Hlen).
      apply drop_leading_stable. apply find_leading_none. intros p Hp.
      apply whitespace_nonempty in Hp. by destruct p. }
    by rewrite Hl.
Qed.

Lemma stripped_trimmed s : stripped s <-> trimmed (Text.chars s).
Proof.
  unfold stripped, strip. split.
  - intros H. rewrite <- H, chars_of_chars. apply strip_chars_trimmed.
  - intros H. rewrite (strip_chars_of_trimmed _ H). apply of_chars_chars.
Qed.

Lemma split_colon_once_spec l :
  let '(before, after) := split_colon_once l in
  ~ In ":"%char before /\
  l = before ++ match after with
                | Some rest => ":"%char :: rest
                | None => []
                end.
Proof.
  induction l as [|c l IH]; simpl; [split; [intros [] | reflexivity]|].
  destruct (Ascii.eqb c ":") eqn:Ec.
  - apply Ascii.eqb_eq in Ec as ->. split; [intros [] | reflexivity].
  - destruct (split_colon_once l) as [before after]. destruct IH as [IH1 IH2].
    apply Ascii.eqb_neq in Ec. split.
    + intros [H | H]; [by symmetry in H | done].
    + simpl. by f_equal.
Qed.

Lemma split_colon_once_colon before rest :
  ~ In ":"%char before ->
  split_colon_once (before ++ ":"%char :: rest) = (before, Some rest).
Proof.
  induction before as [|c before IH]; simpl; intros H; [reflexivity|].
  destruct (Ascii.eqb c ":") eqn:Ec.
  - apply Ascii.eqb_eq in Ec. exfalso. apply H. by left.
  - rewrite IH; [reflexivity|]. intros Hin. apply H. by right.
Qed.

Lemma split_colon_once_plain before :
  ~ In ":"%char before -> split_colon_once before = (before, None).
Proof.
  induction before as [|c before IH]; simpl; intros H; [reflexivity|].
  destruct (Ascii.eqb c ":") eqn:Ec.
  - apply Ascii.eqb_eq in Ec. exfalso. apply H. by left.
  - rewrite IH; [reflexivity|]. intros Hin. apply H. by right.
Qed.

Lemma eqb_empty_chars l : String.eqb (Text.of_chars l) "" = true <-> l = [].
Proof.
  rewrite String.eqb_eq. split.
  - intros H. apply (f_equal Text.chars) in H. by rewrite chars_of_chars in H.
  - by intros ->.
Qed.

(** Trimming a prefix that holds no colon leaves no colon. *)
Lemma strip_chars_incl l c : In c (strip_chars l) -> In c l.
Proof.
  unfold strip_chars. intros H.
  destruct (rstrip_chars_split (lstrip_chars l)) as (ps2 & _ & E2).
  destruct (lstrip_chars_split l) as (ps1 & _ & E1).
  rewrite E1, E2. apply in_or_app. right. apply in_or_app. by left.
Qed.

(** X1: whatever [_normalize_browser_cookie_arg] returns as a pair is
    clean: the browser name is non-empty, has no whitespace at either end
    and no colon; a profile, when there is one, is non-empty and has no
    whitespace at either end (it may hold colons: the argument is split
    at its first colon only). *)
Theorem normalize_cookie_arg_clean raw browser profile :
  _normalize_browser_cookie_arg raw = Ok (Some (browser, profile)) ->
  browser <> "" /\ stripped browser /\ ~ In ":"%char (Text.chars browser) /\
  match profile with
  | Some p => p <> "" /\ stripped p
  | None => True
  end.
Proof.
  unfold _normalize_browser_cookie_arg.
  destruct raw as [raw|]; [|discriminate].
  destruct (String.eqb raw ""); [discriminate|].
  pose proof (split_colon_once_spec (Text.chars raw)) as Hs.
  destruct (split_colon_once (Text.chars raw)) as [part0 part1].
  destruct Hs as [Hcolon _].
  destruct (String.eqb (Text.of_chars (strip_chars part0)) "") eqn:Eb; [discriminate|].
  intros H. injection H as <- <-.
  apply String.eqb_neq in Eb.
  repeat split.
  - exact Eb.
  - apply stripped_trimmed. rewrite chars_of_chars. apply strip_chars_trimmed.
  - rewrite chars_of_chars. intros Hin. apply Hcolon. by apply strip_chars_incl.
  - destruct part1 as [rest|]; [|done].
    destruct (String.eqb (Text.of_chars (strip_chars rest)) "") eqn:Ep; [done|].
    apply String.eqb_neq in Ep. split; [exact Ep|].
    apply stripped_trimmed. rewrite chars_of_chars. apply strip_chars_trimmed.
Qed.

(** X1's theorem applies: blanks around both parts, a colon in the profile. *)
Lemma normalize_cookie_arg_clean_witness :
  _normalize_browser_cookie_arg (Some " chrome : Profile:1 ")
    = Ok (Some ("chrome", Some "Profile:1")) /\
  "chrome" <> "" /\ stripped "chrome" /\ ~ In ":"%char (Text.chars "chrome") /\
  "Profile:1" <> "" /\ stripped "Profile:1".
Proof.
  split; [reflexivity|].
  exact (normalize_cookie_arg_clean (Some " chrome : Profile:1 ") "chrome"
           (Some "Profile:1") eq_refl).
Defined.

(** X2: [_normalize_browser_cookie_arg] raises exactly when the argument
    is non-empty and what stands before its first colon is made of
    whitespace characters only (any of those [str.strip()] removes, the
    no-break space among them), and the error is then a [ValueError]; it
    returns [None] exactly for a missing or empty argument. *)
Theorem normalize_cookie_arg_outcomes raw :
  (forall e, _normalize_browser_cookie_arg raw = Raise e ->
             is_class ValueError e = true) /\
  ((exists e, _normalize_browser_cookie_arg raw = Raise e) <->
   (exists s, raw = Some s /\ s <> "" /\
              blank (split_colon_once (Text.chars s)).1)) /\
  (_normalize_browser_cookie_arg raw = Ok None <-> raw = None \/ raw = Some "").
Proof.
  unfold _normalize_browser_cookie_arg.
  destruct raw as [raw|].
  2:{ split; [discriminate|]. split.
      - split; [intros [e H]; discriminate | intros (s & H & _); discriminate].
      - split; [by left | done]. }
  destruct (String.eqb raw "") eqn:Er.
  { apply String.eqb_eq in Er as ->. split; [discriminate|]. split.
    - split; [intros [e H]; discriminate|].
      intros (s & H & Hne & _). by injection H as <-.
    - split; [by right | done]. }
  apply String.eqb_neq in Er.
  destruct (split_colon_once (Text.chars raw)) as [part0 part1] eqn:Es.
  destruct (String.eqb (Text.of_chars (strip_chars part0)) "") eqn:Eb.
  - apply eqb_empty_chars, strip_chars_nil in Eb. split; [|split].
    + intros e H. by injection H as <-.
    + split; [|by eexists].
      intros _. exists raw. by rewrite Es.
    + split; [discriminate|]. intros [H | H]; [discriminate|]. by injection H as ->.
  - split; [discriminate|]. split.
    + split; [intros [e H]; discriminate|].
      intros (s & H & _ & Hsp). injection H as <-. rewrite Es in Hsp. simpl in Hsp.
      apply strip_chars_nil in Hsp. rewrite Hsp in Eb. discriminate.
    + split; [discriminate|]. intros [H | H]; [discriminate|]. by injection H as ->.
Qed.

(** X3: reading back what it printed. For a clean pair (browser name
    non-empty, trimmed and without colon; profile, if any, non-empty and
    trimmed), [_normalize_browser_cookie_arg] on [browser:profile], or on
    [browser] alone when there is no profile, returns that pair. *)
Theorem normalize_cookie_arg_round_trip browser profile :
  browser <> "" -> stripped browser -> ~ In ":"%char (Text.chars browser) ->
  match profile with
  | Some p => p <> "" /\ stripped p
  | None => True
  end ->
  _normalize_browser_cookie_arg (Some (cookie_arg browser profile))
    = Ok (Some (browser, profile)).
Proof.
  intros Hne Hs Hcolon Hp.
  assert (Hb : Text.of_chars (strip_chars (Text.chars browser)) = browser) by exact Hs.
  assert (Hbe : String.eqb browser "" = false) by by apply String.eqb_neq.
  unfold _normalize_browser_cookie_arg, cookie_arg.
  destruct profile as [p|].
  - destruct Hp as [Hpne Hps].
    assert (Hraw : String.eqb (browser +:+ ":" +:+ p) "" = false).
    { apply String.eqb_neq. intros H. apply (f_equal Text.chars) in H.
      rewrite chars_append in H. destruct (Text.chars browser) eqn:E; [|discriminate].
      apply Hne. apply chars_inj. by rewrite E. }
    rewrite Hraw, !chars_append.
    change (Text.chars ":") with [":"%char]. simpl app at 2.
    rewrite (split_colon_once_colon _ _ Hcolon), Hb, Hbe.
    assert (Hp' : Text.of_chars (strip_chars (Text.chars p)) = p) by exact Hps.
    rewrite Hp'. apply String.eqb_neq in Hpne. by rewrite Hpne.
  - rewrite Hbe, (split_colon_once_plain _ Hcolon), Hb, Hbe. reflexivity.
Qed.

(** X3's theorem applies. *)
Lemma normalize_cookie_arg_round_trip_witness :
  _normalize_browser_cookie_arg (Some (cookie_arg "firefox" (Some "default release")))
    = Ok (Some ("firefox", Some "default release")).
Proof.
  apply (normalize_cookie_arg_round_trip "firefox" (Some "default release")).
  - discriminate.
  - reflexivity.
  - vm_compute. intros H. decompose [or] H; discriminate || contradiction.
  - split; [discriminate | reflexivity].
Defined.

(** ** The directory utilities: [ensure_clean_dir] and [cleanup_paths] *)

Lemma for_each_ok {A} (l : list A) (body : A -> M unit) w :
  (forall x w, (body x w).1 = Ok tt) -> (for_each l body w).1 = Ok tt.
Proof.
  intros Hb. revert w. induction l as [|x l IH]; intros w; [reflexivity|].
  simpl. unfold bind. pose proof (Hb x w) as Hx.
  destruct (body x w) as [[[]|e] w1]; simpl in *; [apply IH | discriminate].
Qed.

Lemma for_each_cons_ok {A} (x : A) l (body : A -> M unit) w :
  (body x w).1 = Ok tt ->
  for_each (x :: l) body w = for_each l body (body x w).2.
Proof.
  intros Hx. simpl. unfold bind.
  destruct (body x w) as [[[]|e] w1]; simpl in *; [reflexivity | discriminate].
Qed.

Lemma ensure_clean_dir_loop env path w :
  ensure_clean_dir env path w
  = (os_makedirs env path ;;;
     names <- os_listdir path ;;
     for_each names (clean_entry env path)) w.
Proof. reflexivity. Qed.

(** One entry of the folder: whatever the deletion does, the loop goes on. *)
Lemma clean_entry_ok env path fn w : (clean_entry env path fn w).1 = Ok tt.
Proof.
  unfold clean_entry. unfold_m. simpl.
  destruct (isfile (fs w) (Path.join path fn)).
  - destruct (os_remove env (Path.join path fn) w) as [[[]|e] w1]; reflexivity.
  - destruct (isdir (fs w) (Path.join path fn)); [|reflexivity].
    destruct (shutil_rmtree env (Path.join path fn) false w) as [[[]|e] w1]; reflexivity.
Qed.

Lemma for_each_app {A} (l1 l2 : list A) (body : A -> M unit) w :
  for_each (l1 ++ l2) body w
  = match for_each l1 body w with
    | (Ok _, w1) => for_each l2 body w1
    | (Raise e, w1) => (Raise e, w1)
    end.
Proof.
  revert w. induction l1 as [|x l1 IH]; intros w; [reflexivity|].
  simpl. unfold bind. destruct (body x w) as [[[]|e] w1]; [apply IH | reflexivity].
Qed.

Lemma make_directory_effect env p w :
  (make_directory env p w).2 = w \/
  (fs w !! p = None /\ (make_directory env p w).2 = set_fs (insert p Dir) w).
Proof.
  unfold make_directory. destruct (fs w !! p) as [[|d]|]; [by left | by left |].
  destruct (mkdir_fails env p); [by left | by right].
Qed.

(** What the levels of [os.makedirs] do to one name: nothing, unless the
    name was missing and is one of the levels, which is then a directory. *)
Lemma make_directories_effect env l w q :
  let w1 := (for_each l (make_directory env) w).2 in
  fs w1 !! q = fs w !! q \/
  (fs w !! q = None /\ fs w1 !! q = Some Dir /\ In q l).
Proof.
  revert w. induction l as [|p l IH]; intros w; [by left|].
  cbn [for_each]. unfold bind.
  pose proof (make_directory_effect env p w) as Hstep.
  destruct (make_directory env p w) as [[[]|e] w0]; simpl in Hstep.
  - specialize (IH w0). cbv zeta in IH.
    set (w1 := (for_each l (make_directory env) w0).2) in *.
    cbv zeta. fold w1.
    destruct Hstep as [-> | [Hp ->]].
    + destruct IH as [H | (H1 & H2 & H3)]; [by left | right].
      split; [exact H1|]. split; [exact H2 | by right].
    + simpl in IH. destruct (decide (p = q)) as [->|Hne].
      * right. split; [exact Hp|]. split; [|by left].
        destruct IH as [H | (H1 & _)]; [by rewrite H, lookup_insert_eq|].
        by rewrite lookup_insert_eq in H1.
      * rewrite lookup_insert_ne in IH by done.
        destruct IH as [H | (H1 & H2 & H3)]; [by left | right].
        split; [exact H1|]. split; [exact H2 | by right].
  - cbv zeta. simpl. destruct Hstep as [-> | [Hp ->]]; [by left|].
    simpl. destruct (decide (p = q)) as [->|Hne].
    + right. rewrite lookup_insert_eq. split; [exact Hp|]. split; [done | by left].
    + left. by rewrite lookup_insert_ne.
Qed.

Lemma makedirs_effect env path w q :
  let w1 := (os_makedirs env path w).2 in
  fs w1 !! q = fs w !! q \/
  (fs w !! q = None /\ fs w1 !! q = Some Dir /\ (In q (Path.parents path) \/ q = path)).
Proof.
  destruct (make_directories_effect env (Path.parents path ++ [path]) w q)
    as [H | (H1 & H2 & H3)]; [by left | right].
  repeat split; try assumption.
  apply in_app_or in H3 as [H3 | [<- | []]]; auto.
Qed.

Lemma makedirs_ok_isdir env path w w1 :
  os_makedirs env path w = (Ok tt, w1) -> isdir (fs w1) path = true.
Proof.
  unfold os_makedirs. rewrite for_each_app.
  destruct (for_each (Path.parents path) (make_directory env) w) as [[[]|e] w0];
    [|discriminate].
  simpl. unfold bind, make_directory, isdir.
  destruct (fs w0 !! path) as [[|d]|] eqn:E.
  - intros H. injection H as <-. by rewrite E.
  - discriminate.
  - destruct (mkdir_fails env path); [discriminate|].
    intros H. injection H as <-. simpl. by rewrite lookup_insert_eq.
Qed.

(** The deletion loop never raises. *)
Lemma clean_loop_ok env path names w :
  (for_each names (clean_entry env path) w).1 = Ok tt.
Proof. apply for_each_ok. intros fn w0. apply clean_entry_ok. Qed.

(** Once the folder is there, nothing stops [ensure_clean_dir]. *)
Lemma ensure_clean_dir_after_makedirs env path w w1 :
  os_makedirs env path w = (Ok tt, w1) -> (ensure_clean_dir env path w).1 = Ok tt.
Proof.
  intros Em. rewrite ensure_clean_dir_loop. unfold bind at 1. rewrite Em.
  apply makedirs_ok_isdir in Em. unfold bind, os_listdir. rewrite Em. simpl.
  apply clean_loop_ok.
Qed.

Lemma ensure_clean_dir_makedirs_error env path w e w1 :
  os_makedirs env path w = (Raise e, w1) -> ensure_clean_dir env path w = (Raise e, w1).
Proof. intros Em. rewrite ensure_clean_dir_loop. unfold bind at 1. by rewrite Em. Qed.

(** X4: the deletion loop of [ensure_clean_dir] never raises, whichever
    names it is given and whichever deletions fail: a failure is printed
    and the loop goes on.  So [ensure_clean_dir] raises only when
    [os.makedirs] or [os.listdir] does, and then with their error. *)
Theorem ensure_clean_dir_outcome env path w :
  (forall names w0, (for_each names (clean_entry env path) w0).1 = Ok tt) /\
  (ensure_clean_dir env path w).1
  = ((os_makedirs env path ;;; names <- os_listdir path ;; ret tt) w).1.
Proof.
  split; [intros names w0; apply clean_loop_ok|].
  rewrite ensure_clean_dir_loop. unfold bind at 1 3.
  destruct (os_makedirs env path w) as [[[]|e] w1]; [|reflexivity].
  unfold bind. destruct (os_listdir path w1) as [[names|e] w2]; [|reflexivity].
  apply clean_loop_ok.
Qed.

Section CleanDir.

Variable env : Env.
Hypothesis rm_ok : deletions_succeed env.

Lemma clean_entry_run path fn w :
  fs (clean_entry env path fn w).2 = without (Path.join path fn) (fs w).
Proof.
  unfold clean_entry, without. unfold_m. simpl.
  unfold isfile, isdir, os_remove, shutil_rmtree, isdir.
  rewrite (rm_ok (Path.join path fn)).
  destruct (fs w !! Path.join path fn) as [[|d]|] eqn:E; simpl; rewrite ?E; reflexivity.
Qed.

End CleanDir.

Lemma without_target p m : without p m !! p = None.
Proof.
  unfold without. destruct (m !! p) as [[|d]|] eqn:E.
  - apply remove_tree_inside, in_tree_refl.
  - apply lookup_delete_eq.
  - exact E.
Qed.

Lemma without_none p m q : m !! q = None -> without p m !! q = None.
Proof.
  intros Hq. unfold without. destruct (m !! p) as [[|d]|] eqn:E.
  - by apply remove_tree_none.
  - destruct (decide (p = q)) as [->|Hne]; [apply lookup_delete_eq|].
    by rewrite lookup_delete_ne.
  - exact Hq.
Qed.

Lemma without_outside p m q : Path.in_tree p q = false -> without p m !! q = m !! q.
Proof.
  intros Hq. unfold without. destruct (m !! p) as [[|d]|] eqn:E.
  - by apply remove_tree_outside.
  - apply lookup_delete_ne. intros ->. by rewrite in_tree_refl in Hq.
  - reflexivity.
Qed.

(** A directory is removed with everything below it. *)
Lemma without_tree p m q :
  isdir m p = true -> Path.in_tree p q = true -> without p m !! q = None.
Proof.
  unfold isdir, without. destruct (m !! p) as [[|d]|]; try discriminate.
  intros _ Hq. by apply remove_tree_inside.
Qed.

(** A path is not below one of its own entries. *)
Lemma not_below_entry dir k r :
  Text.chars k = Text.chars dir ++ Path.slash :: r -> Path.in_tree k dir = false.
Proof.
  intros Hk. destruct (Path.in_tree k dir) eqn:E; [|reflexivity].
  apply in_tree_spec in E as [-> | [r' E]].
  - apply (f_equal (@length ascii)) in Hk. rewrite length_app in Hk. simpl in Hk. lia.
  - rewrite E in Hk. apply (f_equal (@length ascii)) in Hk.
    rewrite !length_app in Hk. simpl in Hk. rewrite ?length_app in Hk. simpl in Hk. lia.
Qed.

Section CleanDirLoop.

Variable env : Env.
Hypothesis rm_ok : deletions_succeed env.

Lemma clean_loop path names w :
  let w' := (for_each names (clean_entry env path) w).2 in
  (forall fn, In fn names -> fs w' !! Path.join path fn = None) /\
  (forall q, fs w !! q = None -> fs w' !! q = None) /\
  (forall q, (forall fn, In fn names -> Path.in_tree (Path.join path fn) q = false) ->
             fs w' !! q = fs w !! q).
Proof.
  revert w. induction names as [|fn names IH]; intros w.
  - simpl. repeat split; try done.
  - rewrite (for_each_cons_ok _ _ _ _ (clean_entry_ok env path fn w)).
    destruct (IH (clean_entry env path fn w).2) as (IH1 & IH2 & IH3).
    rewrite (clean_entry_run env rm_ok) in IH2, IH3.
    split; [|split].
    + intros fn' [<- | Hin]; [|by apply IH1].
      apply IH2, without_target.
    + intros q Hq. by apply IH2, without_none.
    + intros q Hq. rewrite IH3 by (intros fn' Hin; apply Hq; by right).
      apply without_outside, Hq. by left.
Qed.

End CleanDirLoop.

(** X5: with deletions succeeding, a call of [ensure_clean_dir] that
    returns leaves [path] a directory that [os.listdir] finds empty.
    Outside the tree of [path] nothing that was there is changed or
    removed, and nothing is created but directories above [path] that
    were missing. *)
Theorem ensure_clean_dir_empties env path w w' :
  deletions_succeed env -> plain_dir path ->
  ensure_clean_dir env path w = (Ok tt, w') ->
  isdir (fs w') path = true /\ children path (fs w') = [] /\
  (forall q, Path.in_tree path q = false ->
     fs w' !! q = fs w !! q \/
     (fs w !! q = None /\ fs w' !! q = Some Dir /\ In q (Path.parents path))).
Proof.
  intros rm_ok [Hne Hend] Hrun.
  rewrite ensure_clean_dir_loop in Hrun. unfold bind at 1 in Hrun.
  pose proof (makedirs_effect env path w) as Heff.
  destruct (os_makedirs env path w) as [[[]|e] w1] eqn:Em; [|discriminate].
  simpl in Heff.
  apply makedirs_ok_isdir in Em. unfold bind, os_listdir in Hrun.
  rewrite Em in Hrun.
  destruct (clean_loop env rm_ok path (children path (fs w1)) w1) as (H1 & H2 & H3).
  rewrite Hrun in H1, H2, H3. simpl in H1, H2, H3.
  assert (Hentry : forall fn q, In fn (children path (fs w1)) ->
            Path.in_tree (Path.join path fn) q = true -> Path.in_tree path q = true).
  { intros fn q Hfn Hq. apply children_are_entries in Hfn as [k Hk].
    destruct (child_name_join _ _ _ Hk Hne Hend) as [Hj Hin].
    rewrite Hj in Hq. by eapply in_tree_trans. }
  split; [|split].
  - unfold isdir in *. rewrite H3; [exact Em|].
    intros fn Hfn. apply children_are_entries in Hfn as [k Hk].
    destruct (child_name_join _ _ _ Hk Hne Hend) as [-> Hin].
    apply in_tree_spec in Hin as [-> | [r Hr]].
    + unfold Path.child_name in Hk.
      destruct (Text.starts_with _ _) eqn:Hs; [|done].
      apply starts_with_spec in Hs as [r Hr].
      apply (f_equal (@length ascii)) in Hr. rewrite !length_app in Hr. simpl in Hr. lia.
    + by eapply not_below_entry.
  - destruct (children path (fs w')) as [|name rest] eqn:Ec; [reflexivity|]. exfalso.
    assert (Hin : In name (children path (fs w'))) by (rewrite Ec; by left).
    unfold children in Hin. apply list_elem_of_In, list_elem_of_omap in Hin
      as ([k n] & Hkn & Hname). simpl in Hname.
    apply elem_of_map_to_list in Hkn.
    destruct (fs w1 !! k) as [n1|] eqn:Ek; [|by rewrite (H2 k Ek) in Hkn].
    assert (Hn : In name (children path (fs w1))).
    { apply list_elem_of_In, list_elem_of_omap. exists (k, n1). split; [|exact Hname].
      by apply elem_of_map_to_list. }
    destruct (child_name_join _ _ _ Hname Hne Hend) as [Hj _].
    specialize (H1 name Hn). rewrite Hj in H1. by rewrite H1 in Hkn.
  - intros q Hq.
    assert (Hloop : fs w' !! q = fs w1 !! q).
    { apply H3. intros fn Hfn. destruct (Path.in_tree (Path.join path fn) q) eqn:E;
        [|reflexivity]. by rewrite (Hentry fn q Hfn E) in Hq. }
    rewrite Hloop. destruct (Heff q) as [H | (Hn1 & Hd & [Hp | ->])].
    + by left.
    + right. auto.
    + by rewrite in_tree_refl in Hq.
Qed.

(** *** [cleanup_paths] *)

(** One target: no outcome of the deletion reaches the caller. *)
Lemma cleanup_path_never_raises env path w : (cleanup_path env path w).1 = Ok tt.
Proof.
  destruct path as [p|]; [|reflexivity]. unfold cleanup_path. unfold_m.
  destruct (String.eqb p ""); [reflexivity|]. simpl.
  destruct (isdir (fs w) p).
  - unfold shutil_rmtree. by destruct (rm_fails env p || negb (isdir (fs w) p)).
  - destruct (exists_path (fs w) p); [|reflexivity].
    unfold os_remove. destruct (rm_fails env p); [reflexivity|].
    destruct (fs w !! p) as [[|d]|]; reflexivity.
Qed.

Lemma cleanup_paths_step env x paths w :
  cleanup_paths env (x :: paths) w
  = cleanup_paths env paths (cleanup_path env x w).2.
Proof. apply for_each_cons_ok, cleanup_path_never_raises. Qed.

Lemma cleanup_paths_never_raises env paths w : (cleanup_paths env paths w).1 = Ok tt.
Proof. apply for_each_ok. intros x w1. apply cleanup_path_never_raises. Qed.

Lemma cleanup_paths_frame env paths w :
  (forall q, fs w !! q = None -> fs (cleanup_paths env paths w).2 !! q = None) /\
  (forall q, (forall p, In (Some p) paths -> Path.in_tree p q = false) ->
             fs (cleanup_paths env paths w).2 !! q = fs w !! q) /\
  events (cleanup_paths env paths w).2 = events w.
Proof.
  pose proof (cleanup_paths_stays env
    {| may_change := fun q => exists p, In (Some p) paths /\ Path.in_tree p q = true;
       may_create := fun _ => False;
       may_emit := fun _ => False |} paths) as Hs.
  destruct (Hs (fun p q Hp Hq => ex_intro _ p (conj Hp Hq)) w) as (Hc & Hn & new & He & Hf).
  simpl in *. split; [|split].
  - intros q Hq. apply Hn; [by intros [] | exact Hq].
  - intros q Hq. destruct (fs w !! q) as [n|] eqn:E.
    + rewrite <- E. apply Hc; [|by rewrite E].
      intros (p & Hp & Hin). by rewrite (Hq p Hp) in Hin.
    + apply Hn; [by intros [] | exact E].
  - destruct new as [|ev new]; [by rewrite app_nil_r in He|].
    by apply Forall_cons in Hf as [[] _].
Qed.

(** X6: [cleanup_paths] never raises, whether or not the deletions
    succeed; it creates no entry, leaves every path outside the trees of
    its targets as it was, and calls nothing outside. *)
Theorem cleanup_paths_contained env paths w :
  (cleanup_paths env paths w).1 = Ok tt /\
  (forall q, fs w !! q = None -> fs (cleanup_paths env paths w).2 !! q = None) /\
  (forall q, (forall p, In (Some p) paths -> Path.in_tree p q = false) ->
             fs (cleanup_paths env paths w).2 !! q = fs w !! q) /\
  events (cleanup_paths env paths w).2 = events w.
Proof.
  split; [apply cleanup_paths_never_raises|].
  destruct (cleanup_paths_frame env paths w) as (Hnone & Hout & Hev).
  split; [exact Hnone|]. split; [exact Hout | exact Hev].
Qed.

Section CleanupTargets.

Variable env : Env.
Hypothesis rm_ok : deletions_succeed env.

Lemma cleanup_path_run p w :
  p <> "" -> fs (cleanup_path env (Some p) w).2 = without p (fs w).
Proof.
  intros Hne. unfold cleanup_path, without. unfold_m.
  destruct (String.eqb_spec p ""); [done|]. simpl.
  unfold shutil_rmtree, os_remove, isdir, exists_path. rewrite (rm_ok p). simpl.
  destruct (fs w !! p) as [[|d]|] eqn:E; simpl; rewrite ?E; reflexivity.
Qed.

Lemma cleanup_path_skip x w :
  x = None \/ x = Some "" -> cleanup_path env x w = (Ok tt, w).
Proof. by intros [-> | ->]. Qed.

Lemma cleanup_removes_tree paths p q w :
  In (Some p) paths -> p <> "" -> isdir (fs w) p = true -> Path.in_tree p q = true ->
  fs (cleanup_paths env paths w).2 !! q = None.
Proof.
  intros Hin Hne. revert w. induction paths as [|x paths IH]; intros w Hd Hq; [done|].
  rewrite cleanup_paths_step.
  set (w1 := (cleanup_path env x w).2).
  destruct (fs w1 !! q) as [n|] eqn:Eq;
    [|by apply (proj1 (cleanup_paths_frame env paths w1))].
  assert (Hx : x <> Some p).
  { intros ->. unfold w1 in Eq. rewrite (cleanup_path_run p w Hne) in Eq.
    by rewrite (without_tree p (fs w) q Hd Hq) in Eq. }
  destruct Hin as [-> | Hin]; [done|]. apply IH; [exact Hin| |exact Hq].
  destruct x as [t|]; [|exact Hd].
  destruct (String.eqb_spec t "") as [->|Ht]; [exact Hd|].
  unfold w1 in *. rewrite (cleanup_path_run t w Ht) in *.
  destruct (Path.in_tree t p) eqn:Etp.
  - unfold without in *. unfold isdir in *.
    destruct (fs w !! t) as [[|d]|] eqn:Et.
    + rewrite remove_tree_inside in Eq; [done|]. by eapply in_tree_trans.
    + assert (t <> p) by (intros ->; by rewrite Et in Hd).
      by rewrite lookup_delete_ne.
    + exact Hd.
  - unfold isdir. by rewrite (without_outside t (fs w) p Etp).
Qed.

End CleanupTargets.

(** X7: with deletions succeeding, every non-empty target of
    [cleanup_paths] is absent afterwards, and a target that was a
    directory is gone with everything below it. *)
Theorem cleanup_paths_removes_targets env paths p w :
  deletions_succeed env -> In (Some p) paths -> p <> "" ->
  fs (cleanup_paths env paths w).2 !! p = None /\
  (isdir (fs w) p = true ->
   forall q, Path.in_tree p q = true -> fs (cleanup_paths env paths w).2 !! q = None).
Proof.
  intros rm_ok Hin Hne. split.
  - by apply cleanup_removes.
  - intros Hd q Hq. by apply (cleanup_removes_tree env rm_ok paths p q w).
Qed.

(** ** Outcomes of the stages *)

(** X8: a video that cannot be opened. When cleaning the frame folder
    raises, [extract_frames] raises with that error and does nothing
    more. When it returns and there is no file under the video's path, or
    none that OpenCV can decode, [extract_frames] writes no frame: it
    prints the warning about the window if the window was invalid, then
    [Error opening video file], and returns normally. *)
Theorem extract_frames_unopened env video_path interval_sec start_sec end_sec w :
  let cleaned := ensure_clean_dir env FRAME_FOLDER w in
  let warned :=
    if (normalize_end (safe_start_of start_sec) end_sec).2
    then add_out WINDOW_WARNING cleaned.2 else cleaned.2 in
  match cleaned.1 with
  | Raise e =>
      extract_frames env video_path interval_sec start_sec end_sec w
      = (Raise e, cleaned.2)
  | Ok _ =>
      unopenable env cleaned.2 video_path ->
      extract_frames env video_path interval_sec start_sec end_sec w
      = (Ok tt, add_out "Error opening video file" warned)
  end.
Proof.
  intros cleaned warned. subst cleaned warned.
  destruct (ensure_clean_dir env FRAME_FOLDER w) as [[[]|e] w1] eqn:Ec; simpl.
  2: { unfold extract_frames. unfold bind at 1. by rewrite Ec. }
  unfold extract_frames. unfold bind at 1. rewrite Ec. unfold unopenable.
  destruct (normalize_end (safe_start_of start_sec) end_sec) as [safe_end warn].
  simpl. intros Hun.
  assert (Hw : (if warn then print WINDOW_WARNING else ret tt) w1
               = (Ok tt, if warn then add_out WINDOW_WARNING w1 else w1))
    by (by destruct warn).
  unfold WINDOW_WARNING in Hw at 1. unfold bind at 1. rewrite Hw.
  unfold bind, open_capture.
  assert (Hfs : fs (if warn then add_out WINDOW_WARNING w1 else w1) = fs w1)
    by (by destruct warn).
  rewrite Hfs.
  destruct (fs w1 !! locate env video_path) as [[|data]|]; try reflexivity.
  by rewrite Hun.
Qed.

(** X9: once a transcription call has answered, the extractor returns
    that answer together with the cues detected in it; a failure to
    remove the scratch audio file afterwards does not change the
    outcome. *)
Theorem extract_audio_returns_answer env video_path w r w' model text :
  extract_audio_and_transcribe env video_path w = (r, w') ->
  EvTranscribe model (Some text) ∈ new_events w w' ->
  r = Ok (text, detect_baby_sounds text).
Proof.
  unfold extract_audio_and_transcribe. intros Hrun Hev.
  assert (Hnil : forall w0 : World, events w0 = events w ->
                 ~ EvTranscribe model (Some text) ∈ new_events w w0).
  { intros w0 E H. rewrite (new_events_app w w0 []) in H by (by rewrite app_nil_r).
    by apply elem_of_nil in H. }
  unfold bind at 1 in Hrun.
  destruct (open_clip env video_path w) as [[clip|e] w0] eqn:Hclip.
  2: { injection Hrun as <- <-. exfalso. apply (Hnil w0); [|done].
       unfold open_clip in Hclip. repeat case_match; by simplify_eq. }
  assert (w0 = w) as ->.
  { unfold open_clip in Hclip. repeat case_match; by simplify_eq. }
  destruct (clip_audio clip) as [wav|].
  2: { unfold_m. injection Hrun as <- <-. exfalso. by apply (Hnil (add_out NO_AUDIO w)). }
  unfold bind at 1 in Hrun.
  destruct (write_audiofile env OUTPUT_AUDIO_PATH wav w) as [[[]|e] wA] eqn:Hw.
  2: { injection Hrun as <- <-. exfalso. apply (Hnil wA); [|done].
       unfold write_audiofile in Hw. repeat case_match; by simplify_eq. }
  assert (HeA : events wA = events w).
  { unfold write_audiofile in Hw. repeat case_match; by simplify_eq. }
  unfold bind at 1 in Hrun.
  destruct (isfile (fs wA) OUTPUT_AUDIO_PATH) eqn:Hfile.
  - unfold isfile in Hfile.
    destruct (fs wA !! OUTPUT_AUDIO_PATH) as [[|af]|] eqn:Haf; try done.
    destruct (transcribe_audio_cases env OUTPUT_AUDIO_PATH af wA Haf) as [Hfs Hcase].
    destruct (transcribe_audio env OUTPUT_AUDIO_PATH wA) as [rt wT]; simpl in *.
    assert (Hin : forall w2 : World, events w2 = events wT ->
              EvTranscribe model (Some text) ∈ new_events w w2 ->
              rt = Ok text).
    { intros w2 E2 H. unfold new_events in H, Hcase. rewrite E2, <- HeA in H.
      destruct (asr env "gpt-4o-transcribe" af TRANSCRIPTION_PROMPT) as [e1|t1];
        [destruct (asr env "whisper-1" af TRANSCRIPTION_PROMPT) as [e2|t2]|];
        destruct Hcase as [-> Hn]; rewrite Hn in H.
      - apply elem_of_cons in H as [H | H]; [done|].
        apply elem_of_cons in H as [H | H]; [done|]. by apply elem_of_nil in H.
      - apply elem_of_cons in H as [H | H]; [done|].
        apply elem_of_cons in H as [H | H]; [by simplify_eq|]. by apply elem_of_nil in H.
      - apply elem_of_cons in H as [H | H]; [by simplify_eq|]. by apply elem_of_nil in H. }
    destruct rt as [t|e].
    + assert (Hfin : r = Ok (t, detect_baby_sounds t) /\ events w' = events wT).
      { unfold_m. unfold os_remove in Hrun.
        destruct (rm_fails env OUTPUT_AUDIO_PATH); simpl in Hrun;
          [by injection Hrun as <- <-|].
        rewrite Hfs, Haf in Hrun. simpl in Hrun. by injection Hrun as <- <-. }
      destruct Hfin as [-> Hev']. specialize (Hin w' Hev' Hev). by injection Hin as ->.
    + injection Hrun as <- <-. by specialize (Hin wT eq_refl Hev).
  - exfalso.
    destruct (transcribe_audio_unreadable env OUTPUT_AUDIO_PATH wA Hfile)
      as (Hn & _ & e0 & He0).
    destruct (transcribe_audio env OUTPUT_AUDIO_PATH wA) as [[t|e] wT] eqn:Ht.
    + discriminate.
    + injection Hrun as <- <-. simpl in Hn.
      unfold new_events in Hev, Hn. rewrite <- HeA, Hn in Hev. by apply elem_of_nil in Hev.
Qed.

(** ** The orchestrator: outcome, gathered frames, requests *)

(** X10: the [finally] block of [video_GPT] never changes the outcome:
    when acquisition fails its error is the outcome and nothing else
    runs, and otherwise the outcome is that of the body, whether or not
    the cleanup manages to delete anything. *)
Theorem video_GPT_outcome env video_path start_sec end_sec cookie_file cookies w :
  let acquired := prepare_video_input env video_path cookie_file cookies w in
  let run := video_GPT env video_path start_sec end_sec cookie_file cookies w in
  match acquired.1 with
  | Ok source => run.1 = (pipeline_body env source.1 start_sec end_sec acquired.2).1
  | Raise e => run = (Raise e, acquired.2)
  end.
Proof.
  intros acquired run. unfold run, acquired. rewrite video_GPT_unfold.
  destruct (prepare_video_input env video_path cookie_file cookies w)
    as [[source|e] w1]; [|reflexivity].
  simpl. unfold try_finally.
  destruct (pipeline_body env source.1 start_sec end_sec w1) as [rb wb]. simpl.
  pose proof (cleanup_paths_never_raises env [source.2; Some FRAME_FOLDER] wb) as Hok.
  by destruct (cleanup_paths env [source.2; Some FRAME_FOLDER] wb) as [[[]|e] w2].
Qed.

(** *** The gather loop *)

Lemma gather_loop_run env names w :
  gather_loop env names w
  = (Ok (map (fun fn => b64encode env (file_data (fs w) (Path.join FRAME_FOLDER fn)))
             (List.filter (gathers (fs w)) names)), w).
Proof.
  induction names as [|fn names IH]; [reflexivity|].
  simpl. unfold bind at 1. unfold get_world at 1. unfold gathers at 1.
  destruct (isfile (fs w) (Path.join FRAME_FOLDER fn) && is_image_name fn) eqn:E;
    [|exact IH].
  apply andb_true_iff in E as [Hf _]. unfold isfile in Hf.
  unfold convert_to_base64, read_file, file_data. unfold bind, ret.
  destruct (fs w !! Path.join FRAME_FOLDER fn) as [[|data]|] eqn:El; try done.
  fold (bind (gather_loop env names) (fun bs => ret (b64encode env data :: bs))).
  unfold bind, ret. rewrite IH. simpl. by rewrite El.
Qed.

Lemma ascii_compare_N a b :
  Ascii.compare a b = N.compare (N_of_ascii a) (N_of_ascii b).
Proof. reflexivity. Qed.

Lemma string_compare_trans s1 s2 s3 :
  String.compare s1 s2 <> Gt -> String.compare s2 s3 <> Gt ->
  String.compare s1 s3 <> Gt.
Proof.
  revert s2 s3. induction s1 as [|a s1 IH]; intros [|b s2] [|c s3]; simpl; try done.
  rewrite !ascii_compare_N.
  destruct (N.compare_spec (N_of_ascii a) (N_of_ascii b)) as [Eab|Lab|Gab];
    destruct (N.compare_spec (N_of_ascii b) (N_of_ascii c)) as [Ebc|Lbc|Gbc];
    try done; intros H1 H2.
  - assert (E : N_of_ascii a = N_of_ascii c) by congruence.
    rewrite E, N.compare_refl. by eapply IH.
  - assert (L : (N_of_ascii a < N_of_ascii c)%N) by lia.
    apply N.compare_lt_iff in L. by rewrite L.
  - assert (L : (N_of_ascii a < N_of_ascii c)%N) by lia.
    apply N.compare_lt_iff in L. by rewrite L.
  - assert (L : (N_of_ascii a < N_of_ascii c)%N) by lia.
    apply N.compare_lt_iff in L. by rewrite L.
Qed.

Lemma name_le_trans a b c : name_le a b -> name_le b c -> name_le a c.
Proof.
  unfold name_le, String.leb. intros H1 H2.
  pose proof (string_compare_trans a b c) as H.
  destruct (String.compare a b); try done; destruct (String.compare b c); try done;
    destruct (String.compare a c); try done; exfalso; by apply H.
Qed.

Lemma name_le_total a b : name_le a b \/ name_le b a.
Proof. apply String.leb_total. Qed.

Lemma insert_sorted_perm x l : Permutation (insert_sorted x l) (x :: l).
Proof.
  induction l as [|y l IH]; simpl; [reflexivity|].
  destruct (String.leb x y); [reflexivity|].
  rewrite IH. apply perm_swap.
Qed.

Lemma insert_sorted_sorted x l :
  StronglySorted name_le l -> StronglySorted name_le (insert_sorted x l).
Proof.
  induction 1 as [|y l Hs IH Hy]; simpl; [by repeat constructor|].
  destruct (String.leb x y) eqn:E.
  - constructor; [by constructor|]. constructor; [exact E|].
    eapply Forall_impl; [exact Hy|]. intros z Hz. by apply (name_le_trans x y z).
  - constructor; [exact IH|].
    rewrite (insert_sorted_perm x l). constructor; [|exact Hy].
    destruct (name_le_total x y) as [H | H]; [|exact H].
    unfold name_le in H. by rewrite H in E.
Qed.

(** The model of [sorted] sorts. *)
Lemma sorted_sorts l : Permutation (sorted l) l /\ StronglySorted name_le (sorted l).
Proof.
  unfold sorted. induction l as [|x l [IHp IHs]]; simpl; [by split; constructor|].
  split; [by rewrite insert_sorted_perm, IHp | by apply insert_sorted_sorted].
Qed.

(** X11: the frames [video_GPT] gathers. With the frame folder present,
    the gather step returns, changes nothing, and yields the base64 text
    of exactly the regular files of the folder whose name ends, up to
    case, in .jpg, .jpeg or .png, in ascending order of their names. *)
Theorem gather_frames_result env w :
  isdir (fs w) FRAME_FOLDER = true ->
  exists names,
    Permutation names (children FRAME_FOLDER (fs w)) /\
    StronglySorted name_le names /\
    gather_frames env w
    = (Ok (map (fun fn => b64encode env (file_data (fs w) (Path.join FRAME_FOLDER fn)))
               (List.filter (gathers (fs w)) names)), w).
Proof.
  intros Hd. exists (sorted (children FRAME_FOLDER (fs w))).
  destruct (sorted_sorts (children FRAME_FOLDER (fs w))) as [Hp Hs].
  split; [exact Hp|]. split; [exact Hs|].
  unfold gather_frames, bind, os_listdir. rewrite Hd. apply gather_loop_run.
Qed.

(** *** The analysis request *)

Lemma scan_entries_error content e :
  scan_entries content = Raise e -> exists what, e = attribute_error what.
Proof.
  induction content as [|[fields|] rest IH]; simpl; [done| |intros [= <-]; by eexists].
  repeat case_match; try done; exact IH.
Qed.

Lemma scan_blocks_error blocks e :
  scan_blocks blocks = Raise e -> exists what, e = attribute_error what.
Proof.
  induction blocks as [|b rest IH]; simpl; [done|].
  repeat case_match; try done; try exact IH; try (intros [= <-]; by eexists).
  all: intros [= <-]; by eapply scan_entries_error.
Qed.
Ltac analyze_cases :=
  unfold analyze_frames_with_responses;
  repeat (unfold_m; simpl; try case_match; simplify_eq/=).

Lemma analyze_without_responses env prompt transcript frames cues w :
  has_responses env = false ->
  new_events w (analyze_frames_with_responses env prompt transcript frames cues w).2
  = [EvChat (chat_content prompt transcript frames cues)].
Proof.
  intros H. unfold analyze_frames_with_responses. rewrite H.
  unfold_m. simpl. by destruct (chat_create env _); apply new_events_app.
Qed.
Lemma analyze_with_responses env prompt transcript frames cues w :
  has_responses env = true ->
  let run := analyze_frames_with_responses env prompt transcript frames cues w in
  let rc := responses_content prompt transcript frames cues in
  let cc := chat_content prompt transcript frames cues in
  (responses_attribute_error env rc /\ new_events w run.2 = [EvResponses rc; EvChat cc]) \/
  (~ responses_attribute_error env rc /\ new_events w run.2 = [EvResponses rc]).
Proof.
  intros H run rc cc. subst run. unfold analyze_frames_with_responses. rewrite H.
  fold rc. fold cc. unfold_m. simpl.
  destruct (responses_create env rc) as [e|resp] eqn:Er; simpl.
  - destruct (is_class AttributeError e) eqn:Ec;
      pose proof Ec as Ec'; unfold is_class in Ec'; rewrite Ec'.
    + left. split; [left; by exists e|].
      by destruct (chat_create env cc); apply new_events_app; simpl; rewrite <- ?app_assoc.
    + right. split; [|by apply new_events_app].
      intros [(e' & He' & Hc') | (resp & e' & He' & _)]; congruence.
  - destruct (output_text resp) as [[|ch txt]|] eqn:Eo; simpl.
    2: { right. split; [|by apply new_events_app].
         intros [(e' & He' & _) | (resp' & e' & He' & [Ho | Ho] & _)]; congruence. }
    all: destruct (scan_blocks (default [] (output resp))) as [[text|]|e] eqn:Es; simpl.
    all: try (right; split; [|by apply new_events_app];
              intros [(e' & He' & _) | (resp' & e' & He' & _ & Hs)]; congruence).
    all: destruct (scan_blocks_error _ _ Es) as [what ->]; simpl.
    all: left; (split; [right; exists resp, (attribute_error what); by auto|]).
    all: by destruct (chat_create env cc); apply new_events_app; simpl; rewrite <- ?app_assoc.
Qed.
Lemma analyze_chat_decides env prompt transcript frames cues w :
  let run := analyze_frames_with_responses env prompt transcript frames cues w in
  let cc := chat_content prompt transcript frames cues in
  EvChat cc ∈ new_events w run.2 ->
  run.1 = match chat_create env cc with
          | inl e => Raise e
          | inr _ => Ok tt
          end.
Proof.
  intros run cc. subst run.
  assert (Hno : forall w0 : World,
            (events w0 = events w \/
             events w0 = events w ++
               [EvResponses (responses_content prompt transcript frames cues)]) ->
            ~ EvChat cc ∈ new_events w w0).
  { intros w0 [E | E] Hin.
    - rewrite (new_events_app w w0 []) in Hin by (by rewrite app_nil_r).
      by apply elem_of_nil in Hin.
    - rewrite (new_events_app w w0 _ E) in Hin.
      apply elem_of_cons in Hin as [Hin | Hin]; [done | by apply elem_of_nil in Hin]. }
  unfold analyze_frames_with_responses. fold cc. unfold_m. simpl.
  destruct (has_responses env); simpl.
  2: { intros _. by destruct (chat_create env cc). }
  destruct (responses_create env _) as [e|resp] eqn:Er; simpl.
  - destruct (match exn_cls e with AttributeError => true | _ => false end); simpl.
    + intros _. by destruct (chat_create env cc).
    + intros Hin. exfalso. eapply Hno; [|exact Hin]. by right.
  - destruct (output_text resp) as [[|ch txt]|]; simpl.
    2: { intros Hin. exfalso. eapply Hno; [|exact Hin]. by right. }
    all: destruct (scan_blocks (default [] (output resp))) as [[text|]|e] eqn:Es; simpl.
    all: try (intros Hin; exfalso; eapply Hno; [|exact Hin]; by right).
    all: destruct (scan_blocks_error _ _ Es) as [what ->]; simpl.
    all: intros _; by destruct (chat_create env cc).
Qed.

Lemma analyze_service_error env prompt transcript frames cues w e :
  has_responses env = true ->
  responses_create env (responses_content prompt transcript frames cues) = inl e ->
  is_class AttributeError e = false ->
  analyze_frames_with_responses env prompt transcript frames cues w
  = (Raise e, add_event (EvResponses (responses_content prompt transcript frames cues)) w).
Proof.
  intros H Er Ec. unfold analyze_frames_with_responses. rewrite H. unfold_m.
  rewrite Er. unfold is_class in Ec. simpl. by rewrite Ec.
Qed.

(** X12: [analyze_frames_with_responses] prints exactly one line when it
    returns, whichever API answered and however the reply was read, and
    nothing when it raises; it never touches the filesystem. *)
Theorem analyze_prints_one_line env prompt transcript frames cues w :
  let run := analyze_frames_with_responses env prompt transcript frames cues w in
  fs run.2 = fs w /\
  match run.1 with
  | Ok _ => exists line, out run.2 = out w ++ [line]
  | Raise _ => out run.2 = out w
  end.
Proof.
  intros run. subst run. analyze_cases; split; try reflexivity; by eexists.
Qed.

(** X13: the requests of [analyze_frames_with_responses]. Without a
    [responses] attribute the only request is the chat completion. With
    it, the Responses request is sent first and alone, unless that attempt
    ends in an [AttributeError], raised by the call or while reading the
    reply: then, and only then, a second request goes to chat
    completions. Whenever the chat request is sent, its result is the
    outcome. *)
Theorem analyze_requests env prompt transcript frames cues w :
  let run := analyze_frames_with_responses env prompt transcript frames cues w in
  let rc := responses_content prompt transcript frames cues in
  let cc := chat_content prompt transcript frames cues in
  (if has_responses env
   then (responses_attribute_error env rc /\
         new_events w run.2 = [EvResponses rc; EvChat cc]) \/
        (~ responses_attribute_error env rc /\ new_events w run.2 = [EvResponses rc])
   else new_events w run.2 = [EvChat cc]) /\
  (EvChat cc ∈ new_events w run.2 ->
   run.1 = match chat_create env cc with
           | inl e => Raise e
           | inr _ => Ok tt
           end).
Proof.
  intros run rc cc. split; [|apply analyze_chat_decides].
  destruct (has_responses env) eqn:H.
  - by apply analyze_with_responses.
  - by apply analyze_without_responses.
Qed.

(** ** The frame sampler in general *)

Lemma timestamp_mono (fps : Q) (a b : Z) :
  (0 < fps)%Q -> a <= b -> (inject_Z a / fps <= inject_Z b / fps)%Q.
Proof.
  intros Hf Hab. unfold Qdiv. apply Qmult_le_compat_r.
  - rewrite <- Zle_Qle. exact Hab.
  - apply Qinv_le_0_compat. by apply Qlt_le_weak.
Qed.

Lemma positive_not_zero (fps : Q) : (0 < fps)%Q -> Qeq_bool fps 0 = false.
Proof.
  intros Hf. destruct (Qeq_bool fps 0) eqn:E; [|reflexivity].
  apply Qeq_bool_iff in E. rewrite E in Hf. by apply Qlt_irrefl in Hf.
Qed.

Lemma schedule_lower {A} fps skip safe_end start (remaining : list A) idx i f :
  (i, f) ∈ schedule fps skip safe_end start remaining idx -> start + idx <= i.
Proof.
  revert idx. induction remaining as [|frame rest IH]; intros idx; simpl.
  - destruct (match safe_end with Some e => _ | None => false end);
      intros H; by apply elem_of_nil in H.
  - destruct (match safe_end with Some e => _ | None => false end);
      [intros H; by apply elem_of_nil in H|].
    intros H. apply elem_of_app in H as [H | H].
    + destruct (idx mod skip =? 0); [|by apply elem_of_nil in H].
      apply list_elem_of_singleton in H. injection H as -> _. lia.
    + apply IH in H. lia.
Qed.

Lemma schedule_ascending {A} fps skip safe_end start (remaining : list A) idx :
  ascending (schedule fps skip safe_end start remaining idx).
Proof.
  unfold ascending.
  revert idx. induction remaining as [|frame rest IH]; intros idx; simpl.
  - destruct (match safe_end with Some e => _ | None => false end); constructor.
  - destruct (match safe_end with Some e => _ | None => false end); [constructor|].
    destruct (idx mod skip =? 0); simpl; [|apply IH].
    constructor; [apply IH|]. apply Forall_forall. intros [i f] H.
    apply schedule_lower in H. simpl. lia.
Qed.

Lemma schedule_elem {A} fps skip safe_end start (remaining : list A) idx i f :
  (0 < fps)%Q ->
  (i, f) ∈ schedule fps skip safe_end start remaining idx <->
  exists k : nat,
    i = start + idx + Z.of_nat k /\ remaining !! k = Some f /\
    (idx + Z.of_nat k) mod skip = 0 /\ before_end fps safe_end i.
Proof.
  intros Hf. revert idx. induction remaining as [|frame rest IH]; intros idx.
  all: cbn [schedule]; rewrite (positive_not_zero fps Hf).
  all: destruct (match safe_end with Some e => _ | None => false end) eqn:Estop.
  1,3: split; [intros H; by apply elem_of_nil in H|];
       intros (k & -> & _ & _ & Hb); exfalso;
       destruct safe_end as [e|]; [|done];
       apply Qle_bool_iff in Estop; specialize (Hb e eq_refl);
       apply (Qlt_irrefl e); eapply Qle_lt_trans; [exact Estop|];
       eapply Qle_lt_trans; [|exact Hb]; apply timestamp_mono; [exact Hf | lia].
  - split; [intros H; by apply elem_of_nil in H|]. by intros (k & _ & Hk & _).
  - assert (Hhere : before_end fps safe_end (start + idx)).
    { intros e ->. apply Qnot_le_lt. intros Hle. apply Qle_bool_iff in Hle.
      by rewrite Hle in Estop. }
    rewrite elem_of_app, IH. split.
    + intros [H | (k & -> & Hk & Hm & Hb)].
      * destruct (idx mod skip =? 0) eqn:Em; [|by apply elem_of_nil in H].
        apply list_elem_of_singleton in H. injection H as -> ->.
        exists 0%nat. apply Z.eqb_eq in Em. rewrite !Z.add_0_r.
        split; [reflexivity|]. split; [reflexivity|]. by split.
      * exists (S k).
        replace (start + idx + Z.of_nat (S k)) with (start + (idx + 1) + Z.of_nat k) by lia.
        replace (idx + Z.of_nat (S k)) with (idx + 1 + Z.of_nat k) by lia.
        split; [reflexivity|]. split; [exact Hk|]. by split.
    + intros ([|k] & -> & Hk & Hm & Hb).
      * left. simpl in Hk. injection Hk as ->. rewrite Z.add_0_r in Hm.
        apply Z.eqb_eq in Hm. rewrite Hm, Z.add_0_r. by apply list_elem_of_singleton.
      * right. exists k.
        replace (start + idx + Z.of_nat (S k)) with (start + (idx + 1) + Z.of_nat k)
          in * by lia.
        replace (idx + Z.of_nat (S k)) with (idx + 1 + Z.of_nat k) in Hm by lia.
        split; [reflexivity|]. split; [exact Hk|]. by split.
Qed.

(** Without an end of the window the loop makes no use of the frame rate. *)
Lemma schedule_unbounded {A} fps skip start (remaining : list A) idx :
  schedule fps skip None start remaining idx = schedule 1 skip None start remaining idx.
Proof.
  revert idx. induction remaining as [|frame rest IH]; intros idx; cbn [schedule].
  - reflexivity.
  - by rewrite IH.
Qed.

(** X14: what the sampling loop keeps when the window has no end (none
    was given, or the one given was dropped as invalid).  The loop returns
    normally and persists, in ascending order of their native index,
    exactly the frames whose offset from the start position is a multiple
    of [frame_skip], up to the end of the video.  The stride is at least
    1, as [max(1, ...)] makes it. *)
Theorem sampler_selects fps frame_skip start_frame_idx remaining w :
  1 <= frame_skip ->
  exists samples,
    sample_loop fps frame_skip None start_frame_idx remaining 0 w
    = (Ok tt, persist_frames samples w) /\
    ascending samples /\
    forall i f,
      (i, f) ∈ samples <->
      exists k : nat,
        i = start_frame_idx + Z.of_nat k /\ remaining !! k = Some f /\
        Z.of_nat k mod frame_skip = 0.
Proof.
  intros _. exists (schedule fps frame_skip None start_frame_idx remaining 0).
  split; [apply sample_loop_schedule|]. split; [apply schedule_ascending|].
  intros i f. rewrite schedule_unbounded.
  rewrite (schedule_elem 1 _ None _ _ 0 i f eq_refl).
  split.
  - intros (k & Hi & Hk & Hm & _). exists k.
    rewrite Z.add_0_r in Hi. by rewrite Z.add_0_l in Hm.
  - intros (k & Hi & Hk & Hm). exists k.
    rewrite Z.add_0_r, Z.add_0_l. repeat split; try assumption. by intros e.
Qed.

(** ** Remote acquisition: file names and downloads *)

Lemma basename_go_no_slash cur l :
  ~ In Path.slash cur -> ~ In Path.slash (Path.basename_go cur l).
Proof.
  revert cur. induction l as [|c l IH]; intros cur Hcur; simpl.
  - intros H. apply Hcur. by apply in_rev.
  - destruct (Ascii.eqb c Path.slash) eqn:E.
    + apply IH. intros [].
    + apply IH. apply Ascii.eqb_neq in E. intros [H | H]; [by symmetry in H | done].
Qed.

Lemma basename_go_plain cur l :
  ~ In Path.slash l -> Path.basename_go cur l = rev cur ++ l.
Proof.
  revert cur. induction l as [|c l IH]; intros cur Hl; simpl.
  - by rewrite app_nil_r.
  - destruct (Ascii.eqb c Path.slash) eqn:E.
    + apply Ascii.eqb_eq in E. exfalso. apply Hl. by left.
    + rewrite IH by (intros H; apply Hl; by right). simpl. by rewrite <- app_assoc.
Qed.

Lemma take_drop_while f l : Text.take_while f l ++ Text.drop_while f l = l.
Proof.
  induction l as [|c l IH]; simpl; [reflexivity|].
  destruct (f c); simpl; [by rewrite IH | reflexivity].
Qed.

Lemma last_dot_bound l i : Path.last_dot l = Some i -> (i < length l)%nat.
Proof.
  revert i. induction l as [|c l IH]; intros i; simpl; [done|].
  destruct (Path.last_dot l) as [j|].
  - intros [= <-]. specialize (IH j eq_refl). lia.
  - destruct (Ascii.eqb c Path.dot); [|done]. intros [= <-]. lia.
Qed.

(** [splitext] cuts its argument in two, and an extension is never all
    there is: the root before it is not empty. *)
Lemma splitext_base_spec base :
  (Path.splitext_base base).1 ++ (Path.splitext_base base).2 = base /\
  ((Path.splitext_base base).2 <> [] -> (Path.splitext_base base).1 <> []).
Proof.
  unfold Path.splitext_base.
  pose proof (take_drop_while (fun c => Ascii.eqb c Path.dot) base) as Hsplit.
  destruct (Path.last_dot (Text.drop_while (fun c => Ascii.eqb c Path.dot) base))
    as [i|] eqn:Ei; simpl.
  - split.
    + by rewrite <- app_assoc, take_drop.
    + intros _ Hnil. apply app_eq_nil in Hnil as [_ Ht].
      destruct (Text.drop_while (fun c => Ascii.eqb c Path.dot) base) as [|c rest] eqn:Er;
        [done|].
      pose proof (drop_while_head _ _ _ _ Er) as Hc. simpl in Hc.
      destruct i as [|i]; [|done].
      simpl in Ei. destruct (Path.last_dot rest); [done|]. by rewrite Hc in Ei.
  - split; [apply app_nil_r | done].
Qed.

Lemma splitext_plain (s : string) :
  ~ In Path.slash (Text.chars s) ->
  (Path.splitext s).1 +:+ (Path.splitext s).2 = s /\
  ((Path.splitext s).2 <> "" -> (Path.splitext s).1 <> "").
Proof.
  intros Hs. unfold Path.splitext.
  rewrite (basename_go_plain [] _ Hs). simpl. rewrite Nat.sub_diag. simpl.
  destruct (splitext_base_spec (Text.chars s)) as [Happ Hne].
  destruct (Path.splitext_base (Text.chars s)) as [root ext]. simpl in *. split.
  - apply chars_inj. by rewrite chars_append, !chars_of_chars.
  - intros He Hr. apply Hne.
    + intros ->. by apply He.
    + apply (f_equal Text.chars) in Hr. by rewrite chars_of_chars in Hr.
Qed.

Lemma str_or_nonempty x default : default <> "" -> str_or x default <> "".
Proof. intros Hd. unfold str_or. by destruct (String.eqb_spec x ""). Qed.

Lemma str_or_keeps x default : x <> "" -> str_or x default = x.
Proof. intros Hx. unfold str_or. by destruct (String.eqb_spec x ""). Qed.

(** The last component of the URL's path, or the default name. *)
Lemma url_basename_plain (p : string) :
  let base := str_or (Path.basename (Path.rstrip_slash p)) "remote_video" in
  base <> "" /\ ~ In Path.slash (Text.chars base).
Proof.
  intros base. split; [by apply str_or_nonempty|].
  unfold base, str_or. destruct (String.eqb _ "").
  - vm_compute. intros H. decompose [or] H; discriminate || contradiction.
  - unfold Path.basename. rewrite chars_of_chars. apply basename_go_no_slash. intros [].
Qed.

Lemma append_empty_r (s : string) : s +:+ "" = s.
Proof. apply chars_inj. by rewrite chars_append, app_nil_r. Qed.

Lemma infer_filename_run env url content_type parsed :
  urlparse env url = Some parsed ->
  let base := str_or (Path.basename (Path.rstrip_slash (url_path parsed))) "remote_video" in
  exists suffix,
    _infer_filename_from_url env url content_type = Ok (base +:+ suffix) /\
    (suffix = "" <-> (Path.splitext base).2 <> "").
Proof.
  intros Hp base. unfold _infer_filename_from_url. rewrite Hp. fold base.
  destruct (url_basename_plain (url_path parsed)) as [Hne Hplain]. fold base in Hne, Hplain.
  destruct (splitext_plain base Hplain) as [Happ Hroot].
  destruct (Path.splitext base) as [name ext]. simpl in *.
  destruct (String.eqb_spec ext "") as [-> | Hext].
  - rewrite append_empty_r in Happ. subst name. rewrite (str_or_keeps base _ Hne).
    eexists. split; [reflexivity|]. split; [|done].
    intros Hs. exfalso. revert Hs.
    destruct content_type as [ct|]; [destruct (String.eqb ct "")|]; try done.
    destruct (guess_extension env (mime_of ct)) as [g|]; [|done].
    by apply str_or_nonempty.
  - rewrite (str_or_keeps name _ (Hroot Hext)), Happ.
    exists "". by rewrite append_empty_r.
Qed.

(** X15: the file name a download is stored under. It is the last
    component of the URL's path (after trailing slashes; [remote_video]
    when that is empty) followed by a suffix that is empty exactly when
    the component already has an extension; the name is not empty and
    holds no separator in its first part, so the second
    [or 'remote_video'] of the code never applies. *)
Theorem inferred_filename env url content_type parsed :
  urlparse env url = Some parsed ->
  let base := str_or (Path.basename (Path.rstrip_slash (url_path parsed))) "remote_video" in
  base <> "" /\ ~ In Path.slash (Text.chars base) /\
  exists suffix,
    _infer_filename_from_url env url content_type = Ok (base +:+ suffix) /\
    (suffix = "" <-> (Path.splitext base).2 <> "").
Proof.
  intros Hp base. destruct (url_basename_plain (url_path parsed)) as [Hne Hplain].
  split; [exact Hne|]. split; [exact Hplain|]. by apply infer_filename_run.
Qed.
Lemma join_inside d name :
  plain_dir d -> Text.starts_with [Path.slash] (Text.chars name) = false ->
  Text.chars (Path.join d name) = Text.chars d ++ Path.slash :: Text.chars name /\
  Path.in_tree d (Path.join d name) = true /\ Path.join d name <> d.
Proof.
  intros [Hne Hend] Hs. unfold Path.join. rewrite Hs, Hend.
  destruct (String.eqb_spec d ""); [done|]. simpl.
  assert (E : Text.chars (d +:+ "/" +:+ name)
              = Text.chars d ++ Path.slash :: Text.chars name).
  { by rewrite !chars_append. }
  split; [exact E|]. split.
  - apply in_tree_spec. right. by eexists.
  - intros H. rewrite H in E. apply (f_equal (@length ascii)) in E.
    rewrite length_app in E. simpl in E. lia.
Qed.

Lemma plain_head_not_slash base suffix :
  base <> "" -> ~ In Path.slash (Text.chars base) ->
  Text.starts_with [Path.slash] (Text.chars (base +:+ suffix)) = false.
Proof.
  intros Hne Hplain. rewrite chars_append.
  destruct (Text.chars base) as [|c l] eqn:E.
  - exfalso. apply Hne. apply chars_inj. by rewrite E.
  - cbn [Text.starts_with app]. destruct (Ascii.eqb_spec Path.slash c) as [<-|]; [|reflexivity].
    exfalso. apply Hplain. by left.
Qed.

Section Downloads.

Variable env : Env.

(** The handler of both downloads: with the directory still in place and
    deletions succeeding, it removes the whole tree and re-raises. *)
Lemma guarded_download {A} (body : M A) d w :
  isdir (fs (body w).2) d = true ->
  let run := try_except body any_exception
               (fun e => shutil_rmtree env d true ;;; throw e) w in
  match (body w).1 with
  | Ok a => run = (Ok a, (body w).2)
  | Raise e =>
      run.1 = Raise e /\
      (deletions_succeed env ->
       forall q, Path.in_tree d q = true -> fs run.2 !! q = None)
  end.
Proof.
  intros Hd run. subst run. unfold try_except.
  destruct (body w) as [[a|e] wB]; simpl in *; [reflexivity|].
  unfold bind, throw, shutil_rmtree. rewrite Hd. simpl.
  destruct (rm_fails env d) eqn:Er; simpl.
  - split; [reflexivity|]. intros rm_ok. by rewrite (rm_ok d) in Er.
  - split; [reflexivity|]. intros _ q Hq. by apply remove_tree_inside.
Qed.

End Downloads.
Lemma infer_filename_head env url content_type filename :
  _infer_filename_from_url env url content_type = Ok filename ->
  Text.starts_with [Path.slash] (Text.chars filename) = false.
Proof.
  intros H. destruct (urlparse env url) as [parsed|] eqn:Hp.
  - destruct (url_basename_plain (url_path parsed)) as [Hne Hplain].
    destruct (infer_filename_run env url content_type parsed Hp) as (suffix & E & _).
    rewrite E in H. injection H as <-. by apply plain_head_not_slash.
  - unfold _infer_filename_from_url in H. by rewrite Hp in H.
Qed.

(** X16: a download from a plain URL. When it returns, the path it
    reports lies inside the temporary directory it created and reports,
    and holds exactly the bytes of the response; when it raises, with
    deletions succeeding, nothing is left of the temporary directory, not
    even the part of the file received before the error. *)
Theorem download_generic_result env url w r w' :
  let d := mkdtemp_name env "babyagent_remote_" (fs w) in
  plain_dir d ->
  download_generic_video env url w = (r, w') ->
  match r with
  | Ok res =>
      res.2 = d /\ Path.in_tree d res.1 = true /\ isdir (fs w') d = true /\
      exists content_type body,
        http_get env url = inr (content_type, body, None) /\
        fs w' !! res.1 = Some (File body)
  | Raise e =>
      deletions_succeed env -> forall q, Path.in_tree d q = true -> fs w' !! q = None
  end.
Proof.
  intros d Hplain Hrun. unfold download_generic_video in Hrun.
  unfold bind at 1 in Hrun. rewrite mkdtemp_run in Hrun. cbv zeta in Hrun. fold d in Hrun.
  set (wA := add_event (EvMkdtemp d) (set_fs (insert d Dir) w)) in *.
  assert (HdA : isdir (fs wA) d = true).
  { unfold isdir, wA. simpl. by rewrite lookup_insert_eq. }
  unfold bind at 1 in Hrun.
  match type of Hrun with
  | context [try_except ?b any_exception ?h wA] => set (body := b) in *
  end.
  assert (Hbody : forall rb wB, body wA = (rb, wB) ->
                  isdir (fs wB) d = true /\
                  match rb with
                  | Ok lp => Path.in_tree d lp = true /\
                             exists content_type bytes,
                               http_get env url = inr (content_type, bytes, None) /\
                               fs wB !! lp = Some (File bytes)
                  | Raise _ => True
                  end).
  { intros rb wB Eb. subst body. unfold bind at 1 in Eb.
    destruct (http_get env url) as [e|[[content_type bytes] broken]]; simpl in Eb.
    { by injection Eb as <- <-. }
    unfold bind at 1, lift_res in Eb.
    destruct (_infer_filename_from_url env url content_type) as [filename|e] eqn:Ef.
    2:{ by injection Eb as <- <-. }
    destruct (join_inside d filename Hplain (infer_filename_head _ _ _ _ Ef))
      as (_ & Hin & Hned).
    unfold bind, write_file in Eb.
    destruct (fs wA !! Path.join d filename) as [[|old]|] eqn:El.
    { by injection Eb as <- <-. }
    all: assert (Hd' : isdir (<[Path.join d filename := File bytes]> (fs wA)) d = true)
      by (unfold isdir in *; by rewrite lookup_insert_ne).
    all: destruct broken as [e|]; simpl in Eb; injection Eb as <- <-;
      (split; [exact Hd'|]); try done.
    all: split; [exact Hin|]; exists content_type, bytes;
      split; [reflexivity | apply lookup_insert_eq]. }
  specialize (Hbody (body wA).1 (body wA).2 (surjective_pairing _)).
  destruct Hbody as [Hd Hok].
  pose proof (guarded_download env body d wA Hd) as Hg. cbv zeta in Hg.
  destruct ((body wA).1) as [lp|e] eqn:Eb.
  - rewrite Hg in Hrun. unfold ret in Hrun. injection Hrun as <- <-. simpl.
    destruct Hok as [Hin Hfile]. by repeat split.
  - destruct Hg as [Hr Hgone].
    destruct (try_except body any_exception _ wA) as [r0 w0]. simpl in Hr, Hgone.
    subst r0. injection Hrun as <- <-. exact Hgone.
Qed.
(** X17: a download through yt_dlp. Without the package the call raises
    a [RuntimeError] before anything is created. With it, a call that
    returns reports the temporary directory it created, still in place;
    a call that raises, with deletions succeeding, leaves nothing of that
    directory, partial files included. *)
Theorem download_youtube_result env url cookie_file cookies w r w' :
  download_youtube_video env url cookie_file cookies w = (r, w') ->
  if yt_dlp_available env then
    let d := mkdtemp_name env "babyagent_youtube_" (fs w) in
    match r with
    | Ok res => res.2 = d /\ isdir (fs w') d = true
    | Raise e =>
        deletions_succeed env -> forall q, Path.in_tree d q = true -> fs w' !! q = None
    end
  else w' = w /\ exists e, r = Raise e /\ is_class RuntimeError e = true.
Proof.
  unfold download_youtube_video. intros Hrun.
  destruct (yt_dlp_available env); simpl in Hrun.
  2: { injection Hrun as <- <-. split; [reflexivity|]. by eexists. }
  cbv beta iota zeta. unfold bind at 1 in Hrun. rewrite mkdtemp_run in Hrun.
  cbv zeta in Hrun. set (d := mkdtemp_name env "babyagent_youtube_" (fs w)) in *.
  set (wA := add_event (EvMkdtemp d) (set_fs (insert d Dir) w)) in *.
  assert (HdA : isdir (fs wA) d = true).
  { unfold isdir, wA. simpl. by rewrite lookup_insert_eq. }
  unfold bind at 1 in Hrun.
  match type of Hrun with
  | context [try_except ?b any_exception ?h wA] => set (body := b) in *
  end.
  assert (Hbody : isdir (fs (body wA).2) d = true).
  { destruct (body wA) as [rb wB] eqn:Eb. subst body. simpl.
    destruct (ytdl env url cookie_file cookies) as [files result].
    unfold bind at 1 in Eb.
    destruct (for_each_write_keeps
                (fun f => Path.join d ("youtube." +:+ f.1)) files d wA) as [_ Hd].
    destruct (for_each files _ wA) as [[[]|e] wF]; simpl in Hd.
    - destruct result as [e|ext]; unfold_m; simpl in Eb; injection Eb as <- <-; auto.
    - injection Eb as <- <-. auto. }
  pose proof (guarded_download env body d wA Hbody) as Hg. cbv zeta in Hg.
  destruct ((body wA).1) as [lp|e] eqn:Eb.
  - rewrite Hg in Hrun. unfold ret in Hrun. by injection Hrun as <- <-.
  - destruct Hg as [Hr Hgone].
    destruct (try_except body any_exception _ wA) as [r0 w0]. simpl in Hr, Hgone.
    subst r0. injection Hrun as <- <-. exact Hgone.
Qed.

(** ** The web front end *)

Section FrontEnd.

Import App.

Variable env : Env.
Variable app : AppEnv.

Lemma run_analysis_run source w :
  let inner := {| fs := fs w; out := []; events := events w |} in
  let vg := video_GPT env source 0 None None None inner in
  run_analysis env source w
  = (match vg.1 with
     | Ok _ => Ok (printed (out vg.2))
     | Raise e => Raise e
     end,
     {| fs := fs vg.2; out := out w; events := events vg.2 |}).
Proof.
  intros inner vg. unfold run_analysis. fold inner. fold vg.
  by destruct vg as [[[]|e] w1].
Qed.

(** The [try]/[except] of [index] always ends in a page. *)
Lemma analyse_run source w :
  let inner := {| fs := fs w; out := []; events := events w |} in
  let vg := video_GPT env source 0 None None None inner in
  analyse env source w
  = (Ok match vg.1 with
        | Ok _ => {| page_error := None; page_analysis := Some (printed (out vg.2)) |}
        | Raise e => {| page_error := Some ("Analysis failed: " +:+ exn_msg e);
                        page_analysis := None |}
        end,
     {| fs := fs vg.2; out := out w; events := events vg.2 |}).
Proof.
  intros inner vg. unfold analyse, failure_page, try_except, bind.
  rewrite run_analysis_run. fold inner. fold vg. by destruct (vg.1) as [[]|e].
Qed.

Lemma index_url_run request w :
  method request = POST -> String.eqb (given_url request) "" = false ->
  given_file request = None ->
  index env app request w = analyse env (given_url request) w.
Proof.
  intros Hm Hu Hf. unfold index. rewrite Hm, Hu, Hf. unfold try_finally.
  rewrite analyse_run. reflexivity.
Qed.

(** An upload: when it cannot be saved the page reports the error, and
    what the copy left of the file stays; when it is saved the analysis
    runs on the saved file, which is removed afterwards. *)
Lemma index_upload_failed request upload w :
  method request = POST -> String.eqb (given_url request) "" = true ->
  given_file request = Some upload ->
  index env app request w
  = match temp_file_error app (upload_suffix app upload), save_error app upload with
    | Some e, _ => (Ok (failure_page e), w)
    | None, Some (partial, e) =>
        (Ok (failure_page e),
         set_fs (insert (upload_path app upload w) (File partial)) w)
    | None, None =>
        try_finally (analyse env (upload_path app upload w))
          (remove_upload env (Some (upload_path app upload w)))
          (set_fs (insert (upload_path app upload w) (File (upload_data upload))) w)
    end.
Proof.
  intros Hm Hu Hf. unfold index. rewrite Hm, Hu, Hf. unfold save_upload, upload_path.
  destruct (temp_file_error app (upload_suffix app upload)) as [e|]; [reflexivity|].
  by destruct (save_error app upload) as [[partial e]|].
Qed.

Lemma remove_upload_run p w :
  match (remove_upload env (Some p) w).1 with
  | Ok _ => fs (remove_upload env (Some p) w).2 !! p = None \/ p = ""
  | Raise e => is_class OSError e = true /\ (remove_upload env (Some p) w).2 = w /\
               exists_path (fs w) p = true
  end /\
  out (remove_upload env (Some p) w).2 = out w /\
  events (remove_upload env (Some p) w).2 = events w.
Proof.
  unfold remove_upload. destruct (String.eqb_spec p "") as [->|Hp]; [simpl; auto|].
  unfold bind, get_world, exists_path, os_remove.
  destruct (fs w !! p) as [[|d]|] eqn:E; simpl;
    destruct (rm_fails env p); simpl; rewrite ?E; simpl; rewrite ?E;
    repeat split; auto.
  left. apply lookup_delete_eq.
Qed.

(** X18: what [index] answers. The process's own output is never
    written to. A GET renders the empty page and does nothing. A POST
    that returns renders a page with exactly one of error and analysis,
    and when the request does not name exactly one source nothing is run
    at all. An error of the pipeline never escapes: [index] raises only
    when the uploaded file it saved cannot be removed, and the file is
    then still there. *)
Theorem index_page request w :
  let run := index env app request w in
  out run.2 = out w /\
  match run.1 with
  | Ok page =>
      match method request with
      | GET => page = {| page_error := None; page_analysis := None |} /\ run.2 = w
      | POST => one_field page /\ (one_source request = false -> run.2 = w)
      end
  | Raise e =>
      is_class OSError e = true /\ method request = POST /\
      given_url request = "" /\
      exists upload,
        given_file request = Some upload /\
        exists_path (fs run.2) (upload_path app upload w) = true
  end.
Proof.
  intros run. subst run.
  destruct (method request) eqn:Hm.
  { unfold index. rewrite Hm. by simpl. }
  destruct (String.eqb (given_url request) "") eqn:Hu;
    destruct (given_file request) as [upload|] eqn:Hf.
  - rewrite (index_upload_failed request upload w Hm Hu Hf).
    destruct (temp_file_error app (upload_suffix app upload)) as [e|].
    { simpl. split; [reflexivity|]. split; [by right|].
      unfold one_source. by rewrite Hu, Hf. }
    destruct (save_error app upload) as [[partial e]|].
    { simpl. split; [reflexivity|]. split; [by right|].
      unfold one_source. by rewrite Hu, Hf. }
    set (p := upload_path app upload w).
    set (saved := set_fs (insert p (File (upload_data upload))) w).
    unfold try_finally. rewrite analyse_run. cbv zeta.
    match goal with |- context [remove_upload env (Some p) ?w1] => set (wa := w1) end.
    destruct (remove_upload_run p wa) as (Hr & Ho & He).
    destruct (remove_upload env (Some p) wa) as [[[]|e] w2]; simpl in *.
    + split; [exact Ho|]. split.
      * destruct (video_GPT _ _ _ _ _ _ _).1; [left | right]; by simpl.
      * unfold one_source. by rewrite Hu, Hf.
    + destruct Hr as (Hc & -> & Hex). split; [reflexivity|].
      apply String.eqb_eq in Hu. repeat split; try done. by exists upload.
  - unfold index. rewrite Hm, Hu, Hf. simpl. split; [reflexivity|]. split; [|done].
    right. by simpl.
  - unfold index. rewrite Hm, Hu, Hf. simpl. split; [reflexivity|]. split; [|done].
    right. by simpl.
  - rewrite (index_url_run request w Hm Hu Hf), analyse_run. simpl.
    split; [reflexivity|]. split.
    + destruct (video_GPT _ _ _ _ _ _ _).1; [left | right]; by simpl.
    + unfold one_source. by rewrite Hu, Hf.
Qed.

(** X19: what becomes of the file an upload is saved to. When the file
    was created and the upload copied into it, it does not outlive the
    request: whenever [index] returns, the file is gone, whether the
    analysis succeeded or failed. When the copy fails, nothing is
    analysed, the page reports the error, and what was written of the
    file is left behind; when the file cannot be created, the page
    reports the error and nothing has changed. *)
Theorem index_upload_cleanup request upload w page w' :
  method request = POST -> given_url request = "" ->
  given_file request = Some upload ->
  upload_path app upload w <> "" ->
  index env app request w = (Ok page, w') ->
  match temp_file_error app (upload_suffix app upload), save_error app upload with
  | Some e, _ => page = failure_page e /\ w' = w
  | None, Some (partial, e) =>
      page = failure_page e /\
      w' = set_fs (insert (upload_path app upload w) (File partial)) w
  | None, None => fs w' !! upload_path app upload w = None
  end.
Proof.
  intros Hm Hu Hf Hne Hrun. apply String.eqb_eq in Hu.
  rewrite (index_upload_failed request upload w Hm Hu Hf) in Hrun.
  destruct (temp_file_error app (upload_suffix app upload)) as [e|].
  { by injection Hrun as <- <-. }
  destruct (save_error app upload) as [[partial e]|].
  { by injection Hrun as <- <-. }
  set (p := upload_path app upload w) in *.
  unfold try_finally in Hrun. rewrite analyse_run in Hrun. cbv zeta in Hrun.
  match type of Hrun with context [remove_upload env (Some p) ?w1] => set (wa := w1) in * end.
  destruct (remove_upload_run p wa) as (Hr & _).
  destruct (remove_upload env (Some p) wa) as [[[]|e] w2]; simpl in *; [|discriminate].
  injection Hrun as _ <-. by destruct Hr.
Qed.

(** X20: what the page of a URL request shows. [index] runs [video_GPT]
    on the trimmed URL with the default window and no cookies; the page
    carries the lines the run printed, each followed by a newline, when
    it returned, and [Analysis failed:] with the error's message when it
    raised; lines printed before an error are dropped. *)
Theorem index_url_page request w :
  method request = POST -> given_url request <> "" -> given_file request = None ->
  let source := given_url request in
  let vg := video_GPT env source 0 None None None
                      {| fs := fs w; out := []; events := events w |} in
  index env app request w
  = (Ok match vg.1 with
        | Ok _ => {| page_error := None; page_analysis := Some (printed (out vg.2)) |}
        | Raise e => {| page_error := Some ("Analysis failed: " +:+ exn_msg e);
                        page_analysis := None |}
        end,
     {| fs := fs vg.2; out := out w; events := events vg.2 |}).
Proof.
  intros Hm Hu Hf source vg. apply String.eqb_neq in Hu.
  rewrite (index_url_run request w Hm Hu Hf). apply analyse_run.
Qed.

End FrontEnd.

(** ** Frames of earlier runs *)

Lemma without_lookup p m q n : without p m !! q = Some n -> m !! q = Some n.
Proof.
  unfold without. destruct (m !! p) as [[|d]|] eqn:E; [| |done].
  - unfold remove_tree. intros H. by apply map_lookup_filter_Some in H as [H _].
  - intros H. destruct (decide (p = q)) as [->|Hne].
    + by rewrite lookup_delete_eq in H.
    + by rewrite lookup_delete_ne in H.
Qed.

Lemma clean_loop_sub env path names w q n :
  deletions_succeed env ->
  fs (for_each names (clean_entry env path) w).2 !! q = Some n -> fs w !! q = Some n.
Proof.
  intros rm_ok. revert w. induction names as [|fn names IH]; intros w; [done|].
  rewrite (for_each_cons_ok _ _ _ _ (clean_entry_ok env path fn w)).
  intros H. apply IH in H. rewrite (clean_entry_run env rm_ok) in H.
  by apply without_lookup in H.
Qed.

(** A file found after [ensure_clean_dir] was there before. *)
Lemma ensure_clean_dir_sub env path w w1 q data :
  deletions_succeed env ->
  ensure_clean_dir env path w = (Ok tt, w1) ->
  fs w1 !! q = Some (File data) -> fs w !! q = Some (File data).
Proof.
  intros rm_ok Hrun Hq. rewrite ensure_clean_dir_loop in Hrun. unfold bind at 1 in Hrun.
  destruct (os_makedirs env path w) as [[[]|e] wm] eqn:Em; [|discriminate].
  pose proof (makedirs_ok_isdir _ _ _ _ Em) as Hd.
  unfold bind, os_listdir in Hrun. rewrite Hd in Hrun.
  assert (H1 : fs wm !! q = Some (File data)).
  { apply (clean_loop_sub env path (children path (fs wm)) wm q _ rm_ok).
    by rewrite Hrun. }
  destruct (makedirs_effect env path w q) as [H | (_ & H & _)]; rewrite Em in H;
    simpl in H; congruence.
Qed.

Lemma schedule_frames {A} fps skip safe_end start (remaining : list A) idx i f :
  (i, f) ∈ schedule fps skip safe_end start remaining idx -> f ∈ remaining.
Proof.
  revert idx. induction remaining as [|frame rest IH]; intros idx; simpl.
  - destruct (match safe_end with Some e => _ | None => false end);
      intros H; by apply elem_of_nil in H.
  - destruct (match safe_end with Some e => _ | None => false end);
      [intros H; by apply elem_of_nil in H|].
    intros H. apply elem_of_app in H as [H | H].
    + destruct (idx mod skip =? 0); [|by apply elem_of_nil in H].
      apply list_elem_of_singleton in H. injection H as _ ->. by left.
    + right. by eapply IH.
Qed.

(** A file found after the frames were written was there before, or is
    one of the frames. *)
Lemma persist_frames_lookup samples w k n :
  fs (persist_frames samples w) !! k = Some n ->
  fs w !! k = Some n \/
  exists i image, (i, image) ∈ samples /\ k = frame_path i /\ n = File image.
Proof.
  revert w. induction samples as [|s samples IH]; intros w; [by left|].
  change (persist_frames (s :: samples) w)
    with (persist_frames samples (persist_frame w s)).
  intros H. apply IH in H as [H | (i & image & Hin & -> & ->)].
  - unfold persist_frame in H. simpl in H.
    destruct (isdir (fs w) (frame_path s.1)); [by left|]. simpl in H.
    destruct (decide (frame_path s.1 = k)) as [<-|Hne].
    + rewrite lookup_insert_eq in H. injection H as <-.
      right. exists s.1, s.2. split; [|done]. destruct s. by left.
    + rewrite lookup_insert_ne in H by done. by left.
  - right. exists i, image. split; [by right | done].
Qed.

(** X21: no frame of an earlier run survives the sampler. With
    deletions succeeding, every entry of the frame folder after
    [extract_frames] is a frame file written by this call: its name is a
    frame name and its content an image of the video given, as it was
    when the call started. *)
Theorem extract_frames_only_fresh env video_path interval_sec start_sec end_sec
        w w' name :
  deletions_succeed env ->
  extract_frames env video_path interval_sec start_sec end_sec w = (Ok tt, w') ->
  In name (children FRAME_FOLDER (fs w')) ->
  exists idx image data cap,
    Path.join FRAME_FOLDER name = frame_path idx /\
    fs w' !! frame_path idx = Some (File image) /\
    fs w !! locate env video_path = Some (File data) /\ cv_decode env data = Some cap /\
    In image (cv_frames cap).
Proof.
  intros rm_ok Hrun Hin. unfold extract_frames in Hrun. unfold bind at 1 in Hrun.
  destruct (ensure_clean_dir env FRAME_FOLDER w) as [[[]|e] w1] eqn:Ec; [|discriminate].
  destruct (ensure_clean_dir_empties env FRAME_FOLDER w w1 rm_ok frame_folder_plain Ec)
    as (_ & Hempty & _).
  destruct (normalize_end (safe_start_of start_sec) end_sec) as [safe_end warn].
  assert (Hw : exists w2, (if warn then print WINDOW_WARNING else ret tt) w1 = (Ok tt, w2)
                          /\ fs w2 = fs w1)
    by (destruct warn; eexists; split; reflexivity).
  destruct Hw as (w2 & Hw & Hfs2). unfold WINDOW_WARNING in Hw.
  unfold bind at 1 in Hrun. rewrite Hw in Hrun.
  unfold bind, open_capture in Hrun.
  unfold children in Hin. apply list_elem_of_In, list_elem_of_omap in Hin
    as ([k n] & Hkn & Hname). simpl in Hname. apply elem_of_map_to_list in Hkn.
  assert (Hold : fs w1 !! k = Some n -> False).
  { intros H. assert (Hc : In name (children FRAME_FOLDER (fs w1))).
    { apply list_elem_of_In, list_elem_of_omap. exists (k, n). split; [|exact Hname].
      by apply elem_of_map_to_list. }
    by rewrite Hempty in Hc. }
  destruct (fs w2 !! locate env video_path) as [[|data]|] eqn:Ev.
  1,3: unfold print, modify in Hrun; injection Hrun as <-; simpl in Hkn;
       exfalso; apply Hold; by rewrite <- Hfs2.
  destruct (cv_decode env data) as [cap|] eqn:Ed.
  2: { unfold print, modify in Hrun. injection Hrun as <-. simpl in Hkn.
       exfalso. apply Hold. by rewrite <- Hfs2. }
  rewrite sample_loop_schedule in Hrun. injection Hrun as <-.
  pose proof Hkn as Hkeep.
  apply persist_frames_lookup in Hkn as [Hkn | (i & image & Hs & -> & ->)].
  { exfalso. apply Hold. by rewrite <- Hfs2. }
  destruct (child_name_join _ _ _ Hname (proj1 frame_folder_plain)
              (proj2 frame_folder_plain)) as [Hj _].
  exists i, image, data, cap. split; [exact Hj|].
  split; [exact Hkeep|].
  split; [|split; [exact Ed|]].
  - apply (ensure_clean_dir_sub env FRAME_FOLDER w w1 _ _ rm_ok Ec). by rewrite <- Hfs2.
  - apply schedule_frames in Hs. apply list_elem_of_In.
    apply list_elem_of_lookup_1 in Hs as [j Hj']. rewrite lookup_drop in Hj'.
    by eapply list_elem_of_lookup_2.
Qed.
Lemma audio_stage_failed env video_path w r w' :
  extract_audio_and_transcribe env video_path w = (r, w') ->
  EvTranscribe "whisper-1" None ∈ new_events w w' ->
  exists err, r = Raise err.
Proof.
  unfold extract_audio_and_transcribe. intros Hrun Hev.
  assert (Hnil : forall w0 : World, events w0 = events w ->
                 ~ EvTranscribe "whisper-1" None ∈ new_events w w0).
  { intros w0 E H. rewrite (new_events_app w w0 []) in H by (by rewrite app_nil_r).
    by apply elem_of_nil in H. }
  unfold bind at 1 in Hrun.
  destruct (open_clip env video_path w) as [[clip|e] w0] eqn:Hclip.
  2: { injection Hrun as <- <-. by eexists. }
  assert (w0 = w) as ->.
  { unfold open_clip in Hclip. repeat case_match; by simplify_eq. }
  destruct (clip_audio clip) as [wav|].
  2: { unfold_m. injection Hrun as <- <-. exfalso. by apply (Hnil (add_out NO_AUDIO w)). }
  unfold bind at 1 in Hrun.
  destruct (write_audiofile env OUTPUT_AUDIO_PATH wav w) as [[[]|e] wA] eqn:Hw.
  2: { injection Hrun as <- <-. by eexists. }
  assert (HeA : events wA = events w).
  { unfold write_audiofile in Hw. repeat case_match; by simplify_eq. }
  unfold bind at 1 in Hrun.
  destruct (transcribe_audio env OUTPUT_AUDIO_PATH wA) as [[t|e] wT] eqn:Ht.
  2: { injection Hrun as <- <-. by eexists. }
  exfalso.
  assert (Hev' : events w' = events wT).
  { unfold_m. unfold os_remove in Hrun.
    destruct (rm_fails env OUTPUT_AUDIO_PATH); simpl in Hrun;
      [by injection Hrun as <- <-|].
    destruct (fs wT !! OUTPUT_AUDIO_PATH) as [[|d]|]; simpl in Hrun;
      by injection Hrun as <- <-. }
  unfold new_events in Hev. rewrite Hev', <- HeA in Hev.
  fold (new_events wA wT) in Hev.
  destruct (isfile (fs wA) OUTPUT_AUDIO_PATH) eqn:Hfile.
  - unfold isfile in Hfile.
    destruct (fs wA !! OUTPUT_AUDIO_PATH) as [[|af]|] eqn:Haf; try done.
    destruct (transcribe_audio_cases env OUTPUT_AUDIO_PATH af wA Haf) as [_ Hcase].
    rewrite Ht in Hcase. simpl in Hcase.
    destruct (asr env "gpt-4o-transcribe" af TRANSCRIPTION_PROMPT) as [e1|t1];
      [destruct (asr env "whisper-1" af TRANSCRIPTION_PROMPT) as [e2|t2]|];
      destruct Hcase as [Hr Hn]; try discriminate; rewrite Hn in Hev.
    + apply elem_of_cons in Hev as [H | H]; [done|].
      apply elem_of_cons in H as [H | H]; [done|]. by apply elem_of_nil in H.
    + apply elem_of_cons in Hev as [H | H]; [done|]. by apply elem_of_nil in H.
  - destruct (transcribe_audio_unreadable env OUTPUT_AUDIO_PATH wA Hfile)
      as (_ & _ & e0 & He0).
    rewrite Ht in He0. discriminate.
Qed.

Lemma new_events_split w w1 w2 n1 n2 :
  events w1 = events w ++ n1 -> events w2 = events w1 ++ n2 ->
  new_events w w2 = n1 ++ n2.
Proof. intros E1 E2. apply new_events_app. by rewrite E2, E1, <- app_assoc. Qed.

(** X22: inference never runs on a failed transcription. When the
    fallback transcription call of a run fails, [video_GPT] raises and
    sends no request to the vision model. *)
Theorem failed_transcription_stops_run env video_path start_sec end_sec cookie_file
        cookies w r w' :
  video_GPT env video_path start_sec end_sec cookie_file cookies w = (r, w') ->
  EvTranscribe "whisper-1" None ∈ new_events w w' ->
  (exists err, r = Raise err) /\
  forall content,
    ~ EvResponses content ∈ new_events w w' /\ ~ EvChat content ∈ new_events w w'.
Proof.
  intros Hrun Hev. rewrite video_GPT_unfold in Hrun.
  pose proof (prepare_stays env (uniform True True is_mkdtemp) video_path cookie_file
                cookies (fun _ => I) (fun _ => I) (fun _ => I) w) as Hpw.
  destruct (prepare_video_input env video_path cookie_file cookies w)
    as [[acquired|e] w1] eqn:Hp; simpl in Hpw.
  2: { injection Hrun as <- <-. exfalso.
       by apply (within_emits _ _ _ _ Hpw) in Hev. }
  destruct Hpw as (_ & _ & n1 & E1 & F1).
  unfold try_finally in Hrun.
  destruct (pipeline_body env acquired.1 start_sec end_sec w1) as [rb wb] eqn:Hb.
  pose proof (cleanup_paths_never_raises env [acquired.2; Some FRAME_FOLDER] wb) as Hok.
  destruct (cleanup_paths_frame env [acquired.2; Some FRAME_FOLDER] wb) as (_ & _ & Ec).
  destruct (cleanup_paths env [acquired.2; Some FRAME_FOLDER] wb) as [[[]|e] wc];
    [|discriminate]. simpl in Ec. injection Hrun as <- <-.
  unfold pipeline_body in Hb. unfold bind at 1 in Hb.
  pose proof (extract_frames_stays env (uniform True True (fun _ => False))
                acquired.1 (1 # 2) start_sec end_sec
                (fun _ _ => I) (fun _ _ => I) (fun _ _ => I) w1) as Hf.
  destruct (extract_frames env acquired.1 (1 # 2) start_sec end_sec w1)
    as [[[]|e] wf]; simpl in Hf; destruct Hf as (_ & _ & n2 & E2 & F2).
  2: { injection Hb as <- <-. exfalso.
       unfold new_events in Hev. rewrite Ec in Hev. fold (new_events w wf) in Hev.
       rewrite (new_events_split w w1 wf n1 n2 E1 E2) in Hev.
       apply elem_of_app in Hev as [H | H].
       - rewrite Forall_forall in F1. by apply F1 in H.
       - rewrite Forall_forall in F2. by apply F2 in H. }
  assert (n2 = []) as -> by (destruct n2; [done | by apply Forall_cons in F2 as [[] _]]).
  rewrite app_nil_r in E2.
  unfold bind at 1 in Hb.
  pose proof (extract_audio_stays env
                (uniform True True (fun ev => is_transcription_call ev = true))
                acquired.1 I I (fun _ _ => eq_refl) wf) as Haw.
  destruct (extract_audio_and_transcribe env acquired.1 wf) as [[tc|e] wa] eqn:Ha;
    simpl in Haw; destruct Haw as (_ & _ & n3 & E3 & F3).
  - exfalso.
    set (rest := (base64frames <- gather_frames env ;;
                  analyze_frames_with_responses env PROMPT_VISION tc.1 base64frames tc.2))
      in Hb.
    assert (Hrest : within (uniform True False is_request) wa wb).
    { replace wb with (rest wa).2 by (by rewrite Hb). unfold rest.
      apply (stays_bind _ (gather_frames env)); [apply gather_frames_stays|].
      intros frames. by apply analyze_stays. }
    destruct Hrest as (_ & _ & n4 & E4 & F4).
    unfold new_events in Hev. rewrite Ec in Hev. fold (new_events w wb) in Hev.
    rewrite (new_events_app w wb (n1 ++ n3 ++ n4)) in Hev
      by (by rewrite E4, E3, E2, E1, <- !app_assoc).
    apply elem_of_app in Hev as [H | H];
      [rewrite Forall_forall in F1; by apply F1 in H|].
    apply elem_of_app in H as [H | H];
      [|rewrite Forall_forall in F4; by apply F4 in H].
    rewrite <- (new_events_app wf wa n3 E3) in H.
    destruct (audio_stage_failed env _ _ _ _ Ha H) as [err Herr]. discriminate.
  - injection Hb as <- <-. split; [by eexists|]. intros content.
    unfold new_events. rewrite Ec. fold (new_events w wa).
    rewrite (new_events_app w wa (n1 ++ n3)) by (by rewrite E3, E2, E1, <- app_assoc).
    rewrite Forall_forall in F1, F3.
    split; intros H; apply elem_of_app in H as [H | H];
      first [by apply F1 in H | by apply F3 in H].
Qed.

(** ** The further properties on concrete runs *)

Section FurtherRuns.

Import Concrete Examples.

(** X5's theorem applies: a folder holding a frame of an earlier run is
    empty afterwards, and the video next to it is untouched. *)
Lemma ensure_clean_dir_empties_witness :
  let run := ensure_clean_dir (scenario_env all_fine) FRAME_FOLDER world_with_stale_frame in
  isdir (fs run.2) FRAME_FOLDER = true /\
  children FRAME_FOLDER (fs run.2) = [] /\
  fs run.2 !! "baby.mp4" = Some (File "VIDEO").
Proof.
  intros run. subst run.
  destruct (ensure_clean_dir (scenario_env all_fine) FRAME_FOLDER world_with_stale_frame)
    as [[[]|e] w'] eqn:E; [|by vm_compute in E].
  destruct (ensure_clean_dir_empties (scenario_env all_fine) FRAME_FOLDER
              world_with_stale_frame w' (scenario_deletions all_fine eq_refl)
              frame_folder_plain E) as (Hd & Hc & Hout).
  split; [exact Hd|]. split; [exact Hc|].
  destruct (Hout "baby.mp4" eq_refl) as [H | (H & _)]; [|discriminate H].
  simpl. rewrite H. reflexivity.
Defined.

(** X7's theorem applies: the frame folder goes with the frame inside it. *)
Lemma cleanup_paths_removes_targets_witness :
  let w' := (cleanup_paths (scenario_env all_fine) [None; Some FRAME_FOLDER]
               world_with_stale_frame).2 in
  fs w' !! FRAME_FOLDER = None /\ fs w' !! stale_frame = None.
Proof.
  intros w'. subst w'.
  destruct (cleanup_paths_removes_targets (scenario_env all_fine)
              [None; Some FRAME_FOLDER] FRAME_FOLDER world_with_stale_frame
              (scenario_deletions all_fine eq_refl)) as [Hp Ht].
  - right. by left.
  - discriminate.
  - split; [exact Hp|]. apply Ht; vm_compute; reflexivity.
Defined.

(** X9's theorem applies: the transcript is returned although the scratch
    audio file cannot be removed. *)
Lemma extract_audio_returns_answer_witness :
  (extract_audio_and_transcribe (scenario_env deletions_down) "baby.mp4"
     (world_with_video "baby.mp4")).1
  = Ok ("neh neh HEH", ["NEH"; "HEH"]).
Proof.
  apply (extract_audio_returns_answer (scenario_env deletions_down) "baby.mp4"
           (world_with_video "baby.mp4") _ _ "gpt-4o-transcribe" "neh neh HEH"
           (surjective_pairing _)).
  vm_compute. repeat constructor.
Defined.

(** X11's theorem applies to a folder with two images, a text file and a
    directory. *)
Lemma gather_frames_result_witness :
  exists names,
    Permutation names (children FRAME_FOLDER (fs world_with_mixed_folder)) /\
    StronglySorted name_le names /\
    gather_frames (scenario_env all_fine) world_with_mixed_folder
    = (Ok (map (fun fn => b64encode (scenario_env all_fine)
                            (file_data (fs world_with_mixed_folder)
                                       (Path.join FRAME_FOLDER fn)))
               (List.filter (gathers (fs world_with_mixed_folder)) names)),
       world_with_mixed_folder).
Proof. apply gather_frames_result. vm_compute. reflexivity. Defined.

(** X14's theorem applies: every fifteenth of 40 frames from position 60. *)
Lemma sampler_selects_witness :
  exists samples,
    sample_loop 30 15 None 60 (repeat "image" 40) 0 empty_world
    = (Ok tt, persist_frames samples empty_world) /\
    ascending samples /\
    forall i f,
      (i, f) ∈ samples <->
      exists k : nat,
        i = 60 + Z.of_nat k /\ repeat "image" 40 !! k = Some f /\
        Z.of_nat k mod 15 = 0.
Proof. apply sampler_selects. lia. Defined.

(** X15's theorem applies: a URL whose path ends in a slash and has no
    extension. *)
Lemma inferred_filename_witness :
  "clip" <> "" /\ ~ In Path.slash (Text.chars "clip") /\
  exists suffix,
    _infer_filename_from_url (scenario_env all_fine) "https://example.com/media/clip/"
      (Some "video/webm; codecs=vp9") = Ok ("clip" +:+ suffix) /\
    (suffix = "" <-> (Path.splitext "clip").2 <> "").
Proof.
  exact (inferred_filename (scenario_env all_fine) "https://example.com/media/clip/"
           (Some "video/webm; codecs=vp9")
           {| scheme := "https"; netloc := "example.com"; url_path := "/media/clip/" |}
           eq_refl).
Defined.

(** X16's theorem applies: the connection breaks midway; the directory and
    the partial file are gone. *)
Lemma download_generic_result_witness :
  let run := download_generic_video (scenario_env download_down)
               "https://example.com/baby.mp4" empty_world in
  run.1 = Raise (service_error "connection reset") /\
  fs run.2 !! "/tmp/babyagent_remote_a1b2c3" = None /\
  fs run.2 !! "/tmp/babyagent_remote_a1b2c3/baby.mp4" = None.
Proof.
  intros run.
  pose proof (download_generic_result (scenario_env download_down)
                "https://example.com/baby.mp4" empty_world run.1 run.2
                (conj (fun H => eq_ind "/tmp/babyagent_remote_a1b2c3"
                                  (fun s => match s with
                                            | EmptyString => False
                                            | String _ _ => True
                                            end) I "" H) eq_refl)
                (surjective_pairing run)) as H.
  assert (E : run.1 = Raise (service_error "connection reset"))
    by (vm_compute; reflexivity).
  rewrite E in H. split; [exact E|].
  split; apply H; try apply (scenario_deletions download_down eq_refl);
    vm_compute; reflexivity.
Defined.

(** X17's theorem applies: yt_dlp fails and leaves a [.part] file, which
    is removed with the directory. *)
Lemma download_youtube_result_witness :
  let run := download_youtube_video (scenario_env download_down)
               "https://youtu.be/abc" None None empty_world in
  run.1 = Raise (service_error "download failed") /\
  fs run.2 !! "/tmp/babyagent_youtube_a1b2c3" = None /\
  fs run.2 !! "/tmp/babyagent_youtube_a1b2c3/youtube.mp4.part" = None.
Proof.
  intros run.
  pose proof (download_youtube_result (scenario_env download_down)
                "https://youtu.be/abc" None None empty_world run.1 run.2
                (surjective_pairing run)) as H.
  assert (E : run.1 = Raise (service_error "download failed"))
    by (vm_compute; reflexivity).
  rewrite E in H. change (yt_dlp_available (scenario_env download_down)) with true in H.
  cbv beta iota zeta in H. split; [exact E|].
  split; apply H; try apply (scenario_deletions download_down eq_refl);
    vm_compute; reflexivity.
Defined.

(** X19's theorem applies: the analysis of an upload fails at inference;
    the saved file is removed all the same. *)
Lemma index_upload_cleanup_witness :
  let run := App.index (scenario_env inference_down) example_app upload_request
               empty_world in
  fs run.2 !! "/tmp/tmpupload.mp4" = None.
Proof.
  intros run. subst run.
  destruct (App.index (scenario_env inference_down) example_app upload_request
              empty_world) as [[page|e] w'] eqn:E; [|by vm_compute in E].
  apply (index_upload_cleanup (scenario_env inference_down) example_app upload_request
           {| App.upload_filename := "baby.mp4"; App.upload_data := "VIDEO" |}
           empty_world page w'); try reflexivity; [discriminate | exact E].
Defined.

(** An upload cut short by a full disk: the page reports the error and
    the part of the file that was written stays. *)
Lemma index_upload_left_behind :
  App.index (scenario_env all_fine) disk_full_app upload_request empty_world
  = (Ok {| App.page_error := Some "Analysis failed: No space left on device";
           App.page_analysis := None |},
     {| fs := {[ "/tmp/tmpupload.mp4" := File "VID" ]}; out := []; events := [] |}).
Proof. vm_compute. reflexivity. Qed.

(** X20's theorem applies: a URL given with blanks around it. *)
Lemma index_url_page_witness :
  let vg := video_GPT (scenario_env all_fine) "https://example.com/baby.mp4" 0 None
              None None empty_world in
  App.index (scenario_env all_fine) example_app url_request empty_world
  = (Ok match vg.1 with
        | Ok _ => {| App.page_error := None;
                     App.page_analysis := Some (App.printed (out vg.2)) |}
        | Raise e => {| App.page_error := Some ("Analysis failed: " +:+ exn_msg e);
                        App.page_analysis := None |}
        end,
     {| fs := fs vg.2; out := []; events := events vg.2 |}).
Proof.
  intros vg.
  apply (index_url_page (scenario_env all_fine) example_app url_request empty_world);
    [reflexivity | discriminate | reflexivity].
Defined.

(** X21's theorem applies: the frame at index 60 is one of this video's,
    with a stale frame in the folder at the start. *)
Lemma extract_frames_only_fresh_witness :
  exists idx image data cap,
    Path.join FRAME_FOLDER "frame_0000060.jpg" = frame_path idx /\
    fs (extract_frames (scenario_env all_fine) "baby.mp4" (1 # 2) 2 (Some 5%Q)
          world_with_stale_frame).2 !! frame_path idx = Some (File image) /\
    fs world_with_stale_frame !! "baby.mp4" = Some (File data) /\
    cv_decode (scenario_env all_fine) data = Some cap /\
    In image (cv_frames cap).
Proof.
  destruct (extract_frames (scenario_env all_fine) "baby.mp4" (1 # 2) 2 (Some 5%Q)
              world_with_stale_frame) as [[[]|e] w'] eqn:E; [|by vm_compute in E].
  apply (extract_frames_only_fresh (scenario_env all_fine) "baby.mp4" (1 # 2) 2
           (Some 5%Q) world_with_stale_frame w' "frame_0000060.jpg"
           (scenario_deletions all_fine eq_refl) E).
  replace w' with (extract_frames (scenario_env all_fine) "baby.mp4" (1 # 2) 2
                     (Some 5%Q) world_with_stale_frame).2 by (by rewrite E).
  vm_compute. repeat (first [left; reflexivity | right]).
Defined.

(** X22's theorem applies: both transcription models are down. *)
Lemma failed_transcription_stops_run_witness :
  let run := video_GPT (scenario_env transcription_down) "baby.mp4" 0 None None None
               (world_with_video "baby.mp4") in
  (exists err, run.1 = Raise err) /\
  forall content,
    ~ EvResponses content ∈ new_events (world_with_video "baby.mp4") run.2 /\
    ~ EvChat content ∈ new_events (world_with_video "baby.mp4") run.2.
Proof.
  intros run.
  apply (failed_transcription_stops_run (scenario_env transcription_down) "baby.mp4"
           0 None None None (world_with_video "baby.mp4") run.1 run.2
           (surjective_pairing run)).
  vm_compute. repeat constructor.
Defined.

End FurtherRuns.
